(** * PC-BASIC hardware emulation layer: sound.py and machine.py

    A shallow embedding of [pcbasic/basic/sound.py] (tone queues and the
    PLAY macro-language interpreter) and [pcbasic/basic/machine.py]
    (machine ports and the segmented memory model), with the properties
    of the specification stated and proved over it.

    Conventions
    - Python [int] is [Z]; Python [str] is [string]; a Python list that
      is indexed or updated in place is a [list] with stdpp's lookup
      and insert, and an out-of-range index raises [IndexError].
    - Python [float] is an abstract carrier with its operations (class
      [Float]): no property below depends on how doubles round.
    - Exceptions are values of [exn]; a computation is a [result].
      Loops that the source leaves unbounded ([while True], waiting on
      the scheduler) take a fuel argument and answer [Hang] when it
      runs out.
    - Objects that live outside the two files (scheduler, parser of the
      macro language, data memory, screen, keyboard buffer, files,
      device streams) are taken through interfaces (classes below). *)

From Stdlib Require Import ZArith Lia Bool Ascii String QArith Qround.
From stdpp Require Import base option list gmap strings.

Open Scope Z_scope.

(** ** Python runtime *)

Module Py.

(** BASIC error codes raised through [error.RunError]. *)
Inductive basic_error : Type :=
  | IFC              (* illegal function call *)
  | OUT_OF_RANGE     (* [error.range_check] *)
  | TYPE_MISMATCH
  | OVERFLOW.

Inductive exn : Type :=
  | RunError (code : basic_error)
  | ZeroDivisionError
  | IndexError
  | KeyError
  | ValueError
  | StructError.

Inductive result (A : Type) : Type :=
  | Ok (a : A)
  | Raise (e : exn)
  | Hang.
Arguments Ok {A} a.
Arguments Raise {A} e.
Arguments Hang {A}.

#[export] Instance result_ret : MRet result := λ A a, Ok a.
#[export] Instance result_bind : MBind result := λ A B f m,
  match m with
  | Ok a => f a
  | Raise e => Raise e
  | Hang => Hang
  end.

Definition is_ok {A} (r : result A) : bool :=
  match r with Ok _ => true | _ => false end.

Definition hangs {A} (r : result A) : bool :=
  match r with Hang => true | _ => false end.

(** [l[i]] on a Python list: negative indices count from the end. *)
Definition getitem {A} (l : list A) (i : Z) : result A :=
  let j := if i <? 0 then i + Z.of_nat (length l) else i in
  if j <? 0 then Raise IndexError
  else match l !! Z.to_nat j with
       | Some x => Ok x
       | None => Raise IndexError
       end.

(** [l[i]] for an index known to be a natural number. *)
Definition index {A} (l : list A) (i : nat) : result A :=
  match l !! i with
  | Some x => Ok x
  | None => Raise IndexError
  end.

(** [l[i] = x]. *)
Definition setitem {A} (l : list A) (i : nat) (x : A) : result (list A) :=
  match l !! i with
  | Some _ => Ok (<[i:=x]> l)
  | None => Raise IndexError
  end.

(** [d[k]] on a dict. *)
Definition dict_get `{Countable K} {V} (d : gmap K V) (k : K) : result V :=
  match d !! k with
  | Some v => Ok v
  | None => Raise KeyError
  end.

(** [l.remove(x)]: drops the first occurrence. *)
Fixpoint list_remove (x : nat) (l : list nat) : list nat :=
  match l with
  | [] => []
  | y :: l' => if Nat.eqb x y then l' else y :: list_remove x l'
  end.

(** [range(a, b)] as a list, and the test [x in range(a, b, step)]. *)
Definition range (a b : Z) : list Z :=
  (λ k : nat, a + Z.of_nat k) <$> seq 0 (Z.to_nat (b - a)).

Definition in_range (x a b step : Z) : bool :=
  (a <=? x) && (x <? b) && ((x - a) mod step =? 0).

(** [str.upper()] for the ASCII letters. *)
Definition upper_char (c : ascii) : ascii :=
  let n := nat_of_ascii c in
  if (Nat.leb 97 n && Nat.leb n 122)%bool then ascii_of_nat (n - 32) else c.

Fixpoint upper (s : string) : string :=
  match s with
  | EmptyString => EmptyString
  | String c s' => String (upper_char c) (upper s')
  end.

(** [c in s] on strings is the substring test. *)
Fixpoint str_in (c s : string) : bool :=
  String.prefix c s ||
  match s with
  | EmptyString => false
  | String _ s' => str_in c s'
  end.

Definition digits : string := "0123456789".

(** [int(numstr)] for a decimal literal. *)
Definition digit_val (c : ascii) : option Z :=
  let n := nat_of_ascii c in
  if (Nat.leb 48 n && Nat.leb n 57)%bool then Some (Z.of_nat (n - 48)) else None.

Fixpoint int_of_digits (acc : Z) (s : string) : result Z :=
  match s with
  | EmptyString => Ok acc
  | String c s' =>
      match digit_val c with
      | Some d => int_of_digits (10 * acc + d) s'
      | None => Raise ValueError
      end
  end.

Definition int_of_str (s : string) : result Z :=
  match s with
  | EmptyString => Raise ValueError
  | _ => int_of_digits 0 s
  end.

(** [s[a:]] and [s[:a]] for [0 <= a]. *)
Definition str_from (a : nat) (s : string) : string :=
  String.substring a (String.length s - a) s.
Definition str_upto (a : nat) (s : string) : string :=
  String.substring 0 a s.

End Py.
Import Py.

(** ** Floating point numbers *)

(** The operations the two files use on Python floats.  Integers that
    meet floats are promoted with [f_of_Z]. *)
Class Float : Type := {
  F : Type;
  f_of_Z : Z → F;
  fadd : F → F → F;
  fsub : F → F → F;
  fmul : F → F → F;
  fdiv : F → F → F;
  fpow : F → F → F;
  fltb : F → F → bool;
  feqb : F → F → bool
}.

Declare Scope float_scope.
Delimit Scope float_scope with fl.
Notation "x + y" := (fadd x y) : float_scope.
Notation "x - y" := (fsub x y) : float_scope.
Notation "x * y" := (fmul x y) : float_scope.
Notation "x / y" := (fdiv x y) : float_scope.
Notation "x ** y" := (fpow x y) (at level 30, right associativity) : float_scope.
Notation "x <? y" := (fltb x y) : float_scope.
Notation "x =? y" := (feqb x y) : float_scope.
Abbreviation fz := f_of_Z.

(** [x / y] where [y] is not a literal: Python raises on a zero divisor. *)
Definition py_fdiv `{Float} (x y : F) : result F :=
  if (y =? fz 0)%fl then Raise ZeroDivisionError else Ok (x / y)%fl.

(** [max(l)] on a non-empty list: the first largest element. *)
Definition py_fmax `{Float} (l : list F) : result F :=
  match l with
  | [] => Raise ValueError
  | x :: l' => Ok (foldl (λ m y, if (m <? y)%fl then y else m) x l')
  end.

(** ** sound.py: tone queues *)

Module sound.

(** [signals.Event]: what is put on the tone and message queues. *)
Inductive Event `{Float} : Type :=
  | AUDIO_TONE (frequency duration fill : F) (loop : bool) (volume : Z)
  | AUDIO_NOISE (white : bool) (frequency duration fill : F) (loop : bool) (volume : Z)
  | AUDIO_STOP
  | AUDIO_PERSIST (flag : bool).

(** [Queue.Queue]: the items not yet taken, and the count of items put
    but not yet reported done. *)
Record Queue `{Float} : Type := mkQueue {
  items : list Event;
  unfinished_tasks : Z
}.


Definition qsize `{Float} (q : Queue) : Z := Z.of_nat (length (items q)).

Definition put `{Float} (q : Queue) (e : Event) : Queue :=
  {| items := items q ++ [e]; unfinished_tasks := unfinished_tasks q + 1 |}.

Definition empty_queue `{Float} : Queue := {| items := []; unfinished_tasks := 0 |}.

(** The cooperative scheduler behind [events.wait()]: while the
    interpreter is parked the audio back end may take items off the tone
    queues.  [Events] is whatever state the scheduler keeps. *)
Class Scheduler `{Float} : Type := {
  Events : Type;
  events_wait : Events → list Queue → Events * list Queue
}.

Record PlayState `{Float} : Type := mkPlayState {
  octave : Z;
  speed : F;
  tempo : F;
  length : F;
  volume : Z
}.

Record Sound `{Float} `{!Scheduler} : Type := mkSound {
  events : Events;
  tone_queue : list Queue;
  message_queue : list Event;
  noise_freq : list F;
  beep_on : bool;
  capabilities : string;
  sound_on : bool;
  foreground : bool;
  play_state : list PlayState
}.

Section tone_engine.
Context `{Float} `{!Scheduler}.

(** base frequency for noise source *)
Definition base_freq : F := (fz 3579545 / fz 1024)%fl.

(** 12-tone equal temperament *)
Definition note_freq : list F :=
  (λ i : nat, fz 440 * fz 2 ** ((fz (Z.of_nat i) - fz 33) / fz 12))%fl <$> seq 0 84.

Definition notes : gmap string Z :=
  list_to_map
    [("C", 0); ("C#", 1); ("D-", 1); ("D", 2); ("D#", 3); ("E-", 3);
     ("E", 4); ("F", 5); ("F#", 6); ("G-", 6); ("G", 7); ("G#", 8);
     ("A-", 8); ("A", 9); ("A#", 10); ("B-", 10); ("B", 11)].

(** [PlayState.__init__] *)
Definition PlayState_init : PlayState :=
  {| octave := 4; speed := (fz 7 / fz 8)%fl; tempo := (fz 2);
     length := (fz 1 / fz 4)%fl; volume := 15 |}.

Definition set_tone_queue (s : Sound) (tq : list Queue) : Sound :=
  {| events := events s; tone_queue := tq; message_queue := message_queue s;
     noise_freq := noise_freq s; beep_on := beep_on s;
     capabilities := capabilities s; sound_on := sound_on s;
     foreground := foreground s; play_state := play_state s |}.

Definition set_events (s : Sound) (ev : Events) : Sound :=
  {| events := ev; tone_queue := tone_queue s; message_queue := message_queue s;
     noise_freq := noise_freq s; beep_on := beep_on s;
     capabilities := capabilities s; sound_on := sound_on s;
     foreground := foreground s; play_state := play_state s |}.

Definition set_message_queue (s : Sound) (mq : list Event) : Sound :=
  {| events := events s; tone_queue := tone_queue s; message_queue := mq;
     noise_freq := noise_freq s; beep_on := beep_on s;
     capabilities := capabilities s; sound_on := sound_on s;
     foreground := foreground s; play_state := play_state s |}.

Definition set_noise_freq (s : Sound) (nf : list F) : Sound :=
  {| events := events s; tone_queue := tone_queue s; message_queue := message_queue s;
     noise_freq := nf; beep_on := beep_on s;
     capabilities := capabilities s; sound_on := sound_on s;
     foreground := foreground s; play_state := play_state s |}.

Definition set_foreground (s : Sound) (fg : bool) : Sound :=
  {| events := events s; tone_queue := tone_queue s; message_queue := message_queue s;
     noise_freq := noise_freq s; beep_on := beep_on s;
     capabilities := capabilities s; sound_on := sound_on s;
     foreground := fg; play_state := play_state s |}.

Definition set_play_state (s : Sound) (ps : list PlayState) : Sound :=
  {| events := events s; tone_queue := tone_queue s; message_queue := message_queue s;
     noise_freq := noise_freq s; beep_on := beep_on s;
     capabilities := capabilities s; sound_on := sound_on s;
     foreground := foreground s; play_state := ps |}.

(** [Sound.reset]: Reset PLAY state (CLEAR). *)
Definition reset (s : Sound) : Sound :=
  set_play_state (set_foreground s true)
    [PlayState_init; PlayState_init; PlayState_init].

(** [Sound.__init__] *)
Definition Sound_init (ev : Events) (tq : list Queue) (mq : list Event)
    (syntax : string) : Sound :=
  let nf := (λ v, base_freq / v)%fl <$>
              [fz 1; fz 2; fz 4; fz 1; fz 1; fz 2; fz 4; fz 1] in
  let nf := <[7%nat:=fz 0]> (<[3%nat:=fz 0]> nf) in
  let caps := if String.eqb syntax "pcjr" || String.eqb syntax "tandy"
              then syntax else "" in
  reset {| events := ev; tone_queue := tq; message_queue := mq;
           noise_freq := nf; beep_on := true; capabilities := caps;
           sound_on := String.eqb caps "tandy"; foreground := true;
           play_state := [] |}.

(** The test guarding the 110 Hz floor and the [V] command. *)
Definition has_volume (s : Sound) : bool :=
  String.eqb (capabilities s) "tandy" ||
  (String.eqb (capabilities s) "pcjr" && sound_on s).

(** [Sound.play_sound_no_wait]: Play a sound on the tone generator. *)
Definition play_sound_no_wait (s : Sound) (frequency duration fill : F)
    (loop : bool) (voice : nat) (volume : Z) : result Sound :=
  let frequency := if (frequency <? fz 0)%fl then (fz 0) else frequency in
  let frequency :=
    if has_volume s && (frequency <? fz 110)%fl && negb (frequency =? fz 0)%fl
    then (fz 110) else frequency in
  let tone := AUDIO_TONE frequency duration fill loop volume in
  q ← index (tone_queue s) voice;
  let s := set_tone_queue s (<[voice:=put q tone]> (tone_queue s)) in
  if Nat.eqb voice 2 && negb (frequency =? fz 0)%fl then
    nf ← setitem (noise_freq s) 3 (frequency / fz 2)%fl;
    nf ← setitem nf 7 (frequency / fz 2)%fl;
    mret (set_noise_freq s nf)
  else mret s.

(** [Sound.queue_length]: Return the number of notes in the queue.
    This returns zero when there are still two notes to play. *)
Definition queue_length (s : Sound) (voice : nat) : result Z :=
  q ← index (tone_queue s) voice;
  mret (Z.max 0 (qsize q - 1)).

(** The loop condition of [wait_music], with Python's short-circuit [or]. *)
Definition music_waiting (s : Sound) (wait_length : Z) : result bool :=
  l0 ← queue_length s 0;
  if wait_length <? l0 then mret true else
  l1 ← queue_length s 1;
  if wait_length <? l1 then mret true else
  l2 ← queue_length s 2;
  mret (wait_length <? l2).

(** [self.events.wait()] *)
Definition wait (s : Sound) : Sound :=
  let '(ev, tq) := events_wait (events s) (tone_queue s) in
  set_tone_queue (set_events s ev) tq.

(** [Sound.wait_music]: Wait until a given number of notes are left on
    the queue. *)
Fixpoint wait_music (fuel : nat) (s : Sound) (wait_length : Z) : result Sound :=
  b ← music_waiting s wait_length;
  if b : bool then
    match fuel with
    | O => Hang
    | S fuel => wait_music fuel (wait s) wait_length
    end
  else mret s.

(** [Sound.play_sound]: Play a sound on the tone generator; wait if the
    tone queue is full. *)
Definition play_sound (fuel : nat) (s : Sound) (frequency duration fill : F)
    (loop : bool) (voice : nat) (volume : Z) : result Sound :=
  s ← play_sound_no_wait s frequency duration fill loop voice volume;
  wait_music fuel s 15.

(** [Sound.beep] *)
Definition beep (fuel : nat) (s : Sound) : result Sound :=
  play_sound fuel s (fz 800) (fz 1 / fz 4)%fl (fz 1) false 0 15.

(** [Sound.is_playing]: A note is playing or queued at the given voice.
    The value is an integer used as a truth value. *)
Definition is_playing (s : Sound) (voice : nat) : result Z :=
  l ← queue_length s voice;
  if l =? 0 then q ← index (tone_queue s) voice; mret (unfinished_tasks q)
  else mret l.

Definition music_playing (s : Sound) : result bool :=
  p0 ← is_playing s 0;
  if negb (p0 =? 0) then mret true else
  p1 ← is_playing s 1;
  if negb (p1 =? 0) then mret true else
  p2 ← is_playing s 2;
  mret (negb (p2 =? 0)).

(** [Sound.wait_all_music]: Wait until all music (not noise) has
    finished playing. *)
Fixpoint wait_all_music (fuel : nat) (s : Sound) : result Sound :=
  b ← music_playing s;
  if b : bool then
    match fuel with
    | O => Hang
    | S fuel => wait_all_music fuel (wait s)
    end
  else mret s.

(** [Sound.play_noise]: Play a sound on the noise generator. *)
Definition play_noise (s : Sound) (source : Z) (volume : Z) (duration : F)
    (loop : bool) : result Sound :=
  frequency ← getitem (noise_freq s) source;
  let noise := AUDIO_NOISE (3 <? source) frequency duration (fz 1) loop volume in
  q ← index (tone_queue s) 3;
  mret (set_tone_queue s (<[3%nat:=put q noise]> (tone_queue s))).

(** [Sound.persist]: Set mixer persistence flag (runmode). *)
Definition persist (s : Sound) (flag : bool) : Sound :=
  set_message_queue s (message_queue s ++ [AUDIO_PERSIST flag]).

(** A run of [play_sound_no_wait] calls on one voice, one per entry of
    [tones] (frequency, duration, fill, loop, volume), with no
    [events.wait()] in between. *)
Fixpoint enqueue (s : Sound) (voice : nat) (tones : list (F * F * F * bool * Z))
    : result Sound :=
  match tones with
  | [] => Ok s
  | (frequency, duration, fill, loop, volume) :: tones =>
      s ← play_sound_no_wait s frequency duration fill loop voice volume;
      enqueue s voice tones
  end.

(** The object after [k] calls of [events.wait()]. *)
Definition waits (k : nat) (s : Sound) : Sound := Nat.iter k wait s.

End tone_engine.

(** ** sound.py: the PLAY statement *)

(** [StringIO]: a buffer and a read/write position. *)
Record StringIO : Type := mkStringIO {
  buf : string;
  pos : nat
}.

(** [gmls = StringIO(); gmls.write(str(mml)); gmls.seek(0)] *)
Definition StringIO_of (mml : string) : StringIO := {| buf := mml; pos := 0 |}.

(** [gmls.read(1)], for its effect on the position. *)
Definition read1 (g : StringIO) : StringIO :=
  {| buf := buf g; pos := Nat.min (pos g + 1) (String.length (buf g)) |}.

(** [gmls.read()] *)
Definition read_rest (g : StringIO) : string * StringIO :=
  (str_from (pos g) (buf g), {| buf := buf g; pos := String.length (buf g) |}).

(** [gmls.truncate(size)] *)
Definition truncate (size : nat) (g : StringIO) : StringIO :=
  {| buf := str_upto size (buf g); pos := Nat.min size (pos g) |}.

Fixpoint zeros (n : nat) : string :=
  match n with
  | O => EmptyString
  | S n => String zero (zeros n)
  end.

(** [gmls.write(s)]: overwrites from the position on, and extends. *)
Definition write (s : string) (g : StringIO) : StringIO :=
  match s with
  | EmptyString => g
  | _ =>
    let head := str_upto (pos g) (buf g) +:+ zeros (pos g - String.length (buf g)) in
    {| buf := head +:+ s +:+ str_from (pos g + String.length s) (buf g);
       pos := pos g + String.length s |}
  end.

(** [gmls.seek(p)] *)
Definition seek (p : nat) (g : StringIO) : StringIO :=
  {| buf := buf g; pos := p |}.

(** What [play] uses of [draw_and_play.MLParser] and of [util], neither
    of which is in these two files.  All of them read from the voice's
    [gmls] and move its position.
    - [skip_read g] is [util.skip_read(gmls, ml_parser.whitepace)],
    - [skip g] is [util.skip(gmls, ml_parser.whitepace)],
    - [parse_number], [ml_parse_number], [parse_string] are the methods
      of the voice's parser, which may raise. *)
Class MLParser : Type := {
  skip_read : StringIO → string * StringIO;
  skip : StringIO → string * StringIO;
  parse_number : StringIO → result (Z * StringIO);
  ml_parse_number : StringIO → result (Z * StringIO);
  parse_string : StringIO → result (string * StringIO)
}.

(** The local variables of [Sound.play]. *)
Record Locals `{Float} : Type := mkLocals {
  gmls_list : list StringIO;
  next_oct : Z;
  total_time : list F;
  voices : list nat
}.

Section play.
Context `{Float} `{!Scheduler} `{!MLParser}.

Definition set_gmls (l : Locals) (voice : nat) (g : StringIO) : Locals :=
  {| gmls_list := <[voice:=g]> (gmls_list l); next_oct := next_oct l;
     total_time := total_time l; voices := voices l |}.

Definition set_next_oct (l : Locals) (n : Z) : Locals :=
  {| gmls_list := gmls_list l; next_oct := n;
     total_time := total_time l; voices := voices l |}.

Definition set_total_time (l : Locals) (tt : list F) : Locals :=
  {| gmls_list := gmls_list l; next_oct := next_oct l;
     total_time := tt; voices := voices l |}.

Definition set_voices (l : Locals) (vs : list nat) : Locals :=
  {| gmls_list := gmls_list l; next_oct := next_oct l;
     total_time := total_time l; voices := vs |}.

(** [total_time[voice] += d] *)
Definition add_time (l : Locals) (voice : nat) (d : F) : result Locals :=
  t ← index (total_time l) voice;
  mret (set_total_time l (<[voice:=(t + d)%fl]> (total_time l))).

(** Assignments to the attributes of [vstate], which is the object
    [self.play_state[voice]]. *)
Definition set_vstate (s : Sound) (voice : nat) (v : PlayState) : Sound :=
  set_play_state s (<[voice:=v]> (play_state s)).

Definition with_octave (v : PlayState) (o : Z) : PlayState :=
  {| octave := o; speed := speed v; tempo := tempo v; length := length v;
     volume := volume v |}.
Definition with_speed (v : PlayState) (x : F) : PlayState :=
  {| octave := octave v; speed := x; tempo := tempo v; length := length v;
     volume := volume v |}.
Definition with_tempo (v : PlayState) (x : F) : PlayState :=
  {| octave := octave v; speed := speed v; tempo := x; length := length v;
     volume := volume v |}.
Definition with_length (v : PlayState) (x : F) : PlayState :=
  {| octave := octave v; speed := speed v; tempo := tempo v; length := x;
     volume := volume v |}.
Definition with_volume (v : PlayState) (x : Z) : PlayState :=
  {| octave := octave v; speed := speed v; tempo := tempo v; length := length v;
     volume := x |}.

(** [x / n] for a float [x] and an integer [n] read from the string. *)
Definition fdiv_int (x : F) (n : Z) : result F :=
  if n =? 0 then Raise ZeroDivisionError else Ok (x / fz n)%fl.

(** [try: ... except KeyError: raise error.RunError(error.IFC)] *)
Definition except_KeyError {A} (r : result A) : result A :=
  match r with
  | Raise KeyError => Raise (RunError IFC)
  | _ => r
  end.

(** The loop [while c and c in string.digits] that collects an explicit
    note length. *)
Fixpoint read_numstr (fuel : nat) (g : StringIO) (c numstr : string)
    : result (string * StringIO) :=
  if negb (String.eqb c "") && str_in c digits then
    match fuel with
    | O => Hang
    | S fuel =>
        let g := read1 g in
        let numstr := numstr +:+ c in
        let '(c, g) := skip g in
        read_numstr fuel g c numstr
    end
  else mret (numstr, g).

(** The loop [while True] after a note letter: dots, an explicit length,
    sharps and flats. *)
Fixpoint note_suffix (fuel : nat) (g : StringIO) (note : string) (dur : F)
    : result (string * F * StringIO) :=
  let '(c, g) := skip g in
  let c := upper c in
  if String.eqb c "" then mret (note, dur, g)
  else if String.eqb c "." then
    match fuel with
    | O => Hang
    | S fuel => note_suffix fuel (read1 g) note (dur * (fz 3 / fz 2))%fl
    end
  else if str_in c digits then
    match fuel with
    | O => Hang
    | S fuel =>
        '(numstr, g) ← read_numstr fuel g c "";
        (* NOT ml_parse_number, only literals allowed here! *)
        length ← int_of_str numstr;
        dur ← fdiv_int (fz 1) length;
        note_suffix fuel g note dur
    end
  else if String.eqb c "#" || String.eqb c "+" then
    match fuel with
    | O => Hang
    | S fuel => note_suffix fuel (read1 g) (note +:+ "#") dur
    end
  else if String.eqb c "-" then
    match fuel with
    | O => Hang
    | S fuel => note_suffix fuel (read1 g) (note +:+ "-") dur
    end
  else mret (note, dur, g).

Definition is_note_letter (c : string) : bool :=
  bool_decide (c ∈ ["A"; "B"; "C"; "D"; "E"; "F"; "G"; "P"]).

(** The body of [for voice in voices]: one command of one voice. *)
Definition play_voice (fuel : nat) (s : Sound) (l : Locals) (voice : nat)
    : result (Sound * Locals) :=
  vstate ← index (play_state s) voice;
  gmls ← index (gmls_list l) voice;
  let '(c, gmls) := skip_read gmls in
  let c := upper c in
  let l := set_gmls l voice gmls in
  if String.eqb c "" then
    mret (s, set_voices l (list_remove voice (voices l)))
  else if String.eqb c ";" then
    mret (s, l)
  else if String.eqb c "X" then
    (* execute substring *)
    '(sub, gmls) ← parse_string gmls;
    let p := pos gmls in
    let '(rest, gmls) := read_rest gmls in
    let gmls := truncate p gmls in
    let gmls := write sub gmls in
    let gmls := write rest gmls in
    let gmls := seek p gmls in
    mret (s, set_gmls l voice gmls)
  else if String.eqb c "N" then
    '(note, gmls) ← ml_parse_number gmls;
    let dur := length vstate in
    let '(c, gmls) := skip gmls in
    let c := upper c in
    let '(gmls, dur) :=
      if String.eqb c "." then (read1 gmls, (dur * (fz 3 / fz 2))%fl)
      else (gmls, dur) in
    let l := set_gmls l voice gmls in
    if (0 <? note) && (note <=? 84) then
      f ← getitem note_freq (note - 1);
      s ← play_sound fuel s f (dur * tempo vstate)%fl (speed vstate) false
            voice (volume vstate);
      l ← add_time l voice (dur * tempo vstate)%fl;
      mret (s, l)
    else if note =? 0 then
      s ← play_sound fuel s (fz 0) (dur * tempo vstate)%fl (speed vstate) false
            voice 0;
      l ← add_time l voice (dur * tempo vstate)%fl;
      mret (s, l)
    else mret (s, l)
  else if String.eqb c "L" then
    '(n, gmls) ← parse_number gmls;
    x ← fdiv_int (fz 1) n;
    mret (set_vstate s voice (with_length vstate x), set_gmls l voice gmls)
  else if String.eqb c "T" then
    '(n, gmls) ← parse_number gmls;
    x ← fdiv_int (fz 240) n;
    mret (set_vstate s voice (with_tempo vstate x), set_gmls l voice gmls)
  else if String.eqb c "O" then
    '(n, gmls) ← parse_number gmls;
    mret (set_vstate s voice (with_octave vstate (Z.min 6 (Z.max 0 n))),
          set_gmls l voice gmls)
  else if String.eqb c ">" then
    let o := octave vstate + 1 in
    let o := if 6 <? o then 6 else o in
    mret (set_vstate s voice (with_octave vstate o), l)
  else if String.eqb c "<" then
    let o := octave vstate - 1 in
    let o := if o <? 0 then 0 else o in
    mret (set_vstate s voice (with_octave vstate o), l)
  else if is_note_letter c then
    '(note, dur, gmls) ← note_suffix fuel gmls c (length vstate);
    let l := set_gmls l voice gmls in
    '(s, l) ←
      (if String.eqb note "P" then
         s ← play_sound fuel s (fz 0) (dur * tempo vstate)%fl (speed vstate)
               false voice (volume vstate);
         l ← add_time l voice (dur * tempo vstate)%fl;
         mret (s, l)
       else
         except_KeyError (
           k ← dict_get notes note;
           f ← getitem note_freq ((octave vstate + next_oct l) * 12 + k);
           s ← play_sound fuel s f (dur * tempo vstate)%fl (speed vstate)
                 false voice (volume vstate);
           l ← add_time l voice (dur * tempo vstate)%fl;
           mret (s, l)));
    mret (s, set_next_oct l 0)
  else if String.eqb c "M" then
    let '(c, gmls) := skip_read gmls in
    let c := upper c in
    let l := set_gmls l voice gmls in
    if String.eqb c "N" then
      mret (set_vstate s voice (with_speed vstate (fz 7 / fz 8)%fl), l)
    else if String.eqb c "L" then
      mret (set_vstate s voice (with_speed vstate (fz 1)), l)
    else if String.eqb c "S" then
      mret (set_vstate s voice (with_speed vstate (fz 3 / fz 4)%fl), l)
    else if String.eqb c "F" then
      mret (set_foreground s true, l)
    else if String.eqb c "B" then
      mret (set_foreground s false, l)
    else Raise (RunError IFC)
  else if String.eqb c "V" && has_volume s then
    '(n, gmls) ← parse_number gmls;
    mret (set_vstate s voice (with_volume vstate (Z.min 15 (Z.max 0 n))),
          set_gmls l voice gmls)
  else Raise (RunError IFC).

(** [for voice in voices]: the list iterator keeps an index [i] into the
    list object, and [voices.remove] shortens that same object.  The
    count [n] bounds the number of iterations. *)
Fixpoint play_for (fuel n i : nat) (s : Sound) (l : Locals)
    : result (Sound * Locals) :=
  match voices l !! i with
  | None => mret (s, l)
  | Some voice =>
      match n with
      | O => Hang
      | S n =>
          '(s, l) ← play_voice fuel s l voice;
          play_for fuel n (S i) s l
      end
  end.

(** One pass of the [while True] loop. *)
Definition play_pass (fuel : nat) (s : Sound) (l : Locals)
    : result (Sound * Locals) :=
  play_for fuel (List.length (voices l)) 0 s l.

(** [while True: if not voices: break ...] *)
Fixpoint play_while (fuel n : nat) (s : Sound) (l : Locals)
    : result (Sound * Locals) :=
  match voices l with
  | [] => mret (s, l)
  | _ =>
      match n with
      | O => Hang
      | S n =>
          '(s, l) ← play_pass fuel s l;
          play_while fuel n s l
      end
  end.

(** The closing loop that pads the shorter voices with silence. *)
Fixpoint play_pad (fuel : nat) (s : Sound) (total_time : list F) (max_time : F)
    (vs : list nat) : result Sound :=
  match vs with
  | [] => mret s
  | voice :: vs =>
      t ← index total_time voice;
      s ← (if (t <? max_time)%fl
           then play_sound fuel s (fz 0) (max_time - t)%fl (fz 1) false voice 15
           else mret s);
      play_pad fuel s total_time max_time vs
  end.

Definition play_init (mml_list : list string) : Locals :=
  {| gmls_list := StringIO_of <$> mml_list; next_oct := 0;
     total_time := [fz 0; fz 0; fz 0; fz 0]; voices := [0; 1; 2]%nat |}.

(** [Sound.play]: Parse a list of Music Macro Language strings.  The
    parsers are built from [data_segment] and the strings; here they are
    the [MLParser] in scope. *)
Definition play (fuel : nat) (s : Sound) (mml_list : list string)
    : result (Sound * Locals) :=
  '(s, l) ← play_while fuel fuel s (play_init mml_list);
  max_time ← py_fmax (total_time l);
  s ← play_pad fuel s (total_time l) max_time [0; 1; 2]%nat;
  s ← (if foreground s then wait_all_music fuel s else mret s);
  mret (s, l).

End play.

(** ** sound.py: stopping, and what PLAY keeps *)

Section stop.
Context `{Float} `{!Scheduler}.

(** [Queue.task_done]: one item less is unfinished; reporting more
    items done than were put raises [ValueError]. *)
Definition task_done (q : Queue) : result Queue :=
  let unfinished := unfinished_tasks q - 1 in
  if unfinished <? 0 then Raise ValueError
  else Ok {| items := items q; unfinished_tasks := unfinished |}.

(** [while not q.empty(): q.get(False); q.task_done()], with no other
    thread taking items meanwhile. *)
Fixpoint drain (its : list Event) (unfinished : Z) : result Queue :=
  match its with
  | [] => Ok {| items := []; unfinished_tasks := unfinished |}
  | _ :: rest =>
      q ← task_done {| items := rest; unfinished_tasks := unfinished |};
      drain rest (unfinished_tasks q)
  end.

Fixpoint drain_all (qs : list Queue) : result (list Queue) :=
  match qs with
  | [] => Ok []
  | q :: qs =>
      q ← drain (items q) (unfinished_tasks q);
      qs ← drain_all qs;
      mret (q :: qs)
  end.

(** [Sound.stop_all_sound]: Terminate all sounds immediately. *)
Definition stop_all_sound (s : Sound) : result Sound :=
  qs ← drain_all (tone_queue s);
  mret (set_message_queue (set_tone_queue s qs) (message_queue s ++ [AUDIO_STOP])).

(** Every queue has at least as many unfinished tasks as items: what
    [put], and a consumer that reports an item done after taking it,
    maintain. *)
Definition queues_counted (s : Sound) : Prop :=
  Forall (λ q, qsize q ≤ unfinished_tasks q) (tone_queue s).

(** The octave of every voice is within 0..6 and its volume within 0..15. *)
Definition play_state_in_range (s : Sound) : Prop :=
  Forall (λ v, 0 ≤ octave v ≤ 6 ∧ 0 ≤ volume v ≤ 15) (play_state s).

End stop.

(** A reference for one round: one command for each voice of [vs], in
    the order of the list. *)
Fixpoint play_each `{Float} `{!Scheduler} `{!MLParser} (fuel : nat)
    (vs : list nat) (s : Sound) (l : Locals) : result (Sound * Locals) :=
  match vs with
  | [] => Ok (s, l)
  | voice :: vs =>
      '(s, l) ← play_voice fuel s l voice;
      play_each fuel vs s l
  end.

End sound.

(** ** machine.py: memory model *)

Module machine.

(** A computation on a mutable object: it ends with a value or with an
    exception, and in both cases leaves the object in some state. *)
Definition M (St A : Type) : Type := St → result A * St.

#[export] Instance M_ret {St} : MRet (M St) := λ A a s, (Ok a, s).
#[export] Instance M_bind {St} : MBind (M St) := λ A B f m s,
  match m s with
  | (Ok a, s') => f a s'
  | (Raise e, s') => (Raise e, s')
  | (Hang, s') => (Hang, s')
  end.

Definition raise {St A} (e : exn) : M St A := λ s, (Raise e, s).
Definition lift {St A} (r : result A) : M St A := λ s, (r, s).
Definition get {St} : M St St := λ s, (Ok s, s).
Definition modify {St} (f : St → St) : M St unit := λ s, (Ok (), f s).

(** What a caller that only looks at the object after a normal return
    sees of a computation. *)
Definition outcome {St A} (r : result A * St) : result St :=
  match r with
  | (Ok _, s) => Ok s
  | (Raise e, _) => Raise e
  | (Hang, _) => Hang
  end.

(** Unicode strings, as lists of code points. *)
Abbreviation ustring := (list Z).

(** [chr(v)]: the byte [v], or [ValueError]. *)
Definition chr (v : Z) : result Z :=
  if (0 <=? v) && (v <? 256) then Ok v else Raise ValueError.

(** [bytearray(l)] of a list of integers. *)
Fixpoint bytearray (l : list Z) : result (list Z) :=
  match l with
  | [] => Ok []
  | v :: l => b ← chr v; bs ← bytearray l; mret (b :: bs)
  end.

(** [buf[:n]] and [buf[n:]] with Python's reading of a negative [n]. *)
Definition slice_bound {A} (n : Z) (l : list A) : nat :=
  let n := if n <? 0 then n + Z.of_nat (List.length l) else n in
  Z.to_nat (Z.max 0 n).
Definition slice_upto {A} (n : Z) (l : list A) : list A :=
  take (slice_bound n l) l.
Definition slice_from {A} (n : Z) (l : list A) : list A :=
  drop (slice_bound n l) l.

(** [struct.pack('<H', x)] *)
Definition pack_H (x : Z) : result (list Z) :=
  if (0 <=? x) && (x <? 65536) then Ok [x mod 256; x / 256]
  else Raise StructError.

(** [error.range_check(lower, upper, v)].
    Modelled from the spec: [error.range_check] is not in the two
    files; by section 4.1 a value outside the bounds "fails with an
    out-of-range error". *)
Definition range_check (lower upper v : Z) : result unit :=
  if (v <? lower) || (upper <? v) then Raise (RunError OUT_OF_RANGE) else Ok ().

(** The objects [Memory] is handed at construction and the helpers of
    other modules it calls. *)
Class Machine : Type := {
  (** BASIC values as the statements receive them *)
  Value : Type;
  (** [values.to_int(v, unsigned)] *)
  to_int : bool → Value → result Z;
  (** [data_memory]: [data_segment], [program.protected], [get_memory],
      [set_memory] *)
  DataMemory : Type;
  data_segment : DataMemory → Z;
  protected : DataMemory → bool;
  data_get_memory : DataMemory → Z → Z;
  data_set_memory : DataMemory → Z → Z → DataMemory;
  (** [screen.mode]: the video mode object with its memory *)
  VideoMode : Type;
  mode_get_memory : VideoMode → Z → Z → list Z;
  mode_set_memory : VideoMode → Z → list Z → VideoMode;
  is_text_mode : VideoMode → bool;
  width : VideoMode → Z;
  name : VideoMode → string;
  page_size : VideoMode → Z;
  (** [screen.codepage.to_unicode(chr(c), replace)] *)
  to_unicode : Z → ustring → ustring;
  (** [keyboard.buf]: the typeahead ring buffer *)
  RingBuffer : Type;
  start : RingBuffer → Z;
  stop : RingBuffer → Z;
  ring_read : RingBuffer → Z → string * Z;
  ring_set_boundaries : RingBuffer → Z → Z → RingBuffer;
  ring_write : RingBuffer → Z → string → Z → RingBuffer;
  (** [int(keyboard.keypad_ascii or 0)] *)
  keypad_int : string → result Z;
  (** [files.open(0, name, filetype='M', mode='I')] with what is read
      of the file: [g.seg], [g.offset], [g.read()] *)
  Files : Type;
  open_I : Files → Value → result (Z * Z * list Z);
  (** [files.open(0, name, filetype='M', mode='O', seg, offset, length)],
      [g.write], and leaving the [with] block *)
  OutFile : Type;
  open_O : Files → Value → Z → Z → Z → result OutFile;
  file_write : OutFile → list Z → OutFile;
  file_close : Files → OutFile → Files;
  (** [devices.type_to_magic['M']] *)
  type_to_magic_M : list Z;
  (** device streams: only their presence matters here *)
  Stream : Type
}.

Record Keyboard `{Machine} : Type := mkKeyboard {
  mod_ : Z;
  keypad_ascii : string;
  kbuf : RingBuffer
}.

Record Screen `{Machine} : Type := mkScreen {
  mode : VideoMode;
  monitor : string;
  colorswitch : Z;
  capabilities : string;
  current_col : Z;
  current_row : Z;
  cursor_to_line : Z;
  cursor_from_line : Z;
  vpagenum : Z;
  palette_get_entry : Z → Z;
  cga4_palette_num : Z;
  border_attr : Z;
  (** characters for which [rebuild_glyph] was called, oldest first *)
  rebuilt_glyphs : list Z
}.

Record Memory `{Machine} : Type := mkMemory {
  data : DataMemory;
  (** [devices.devices]: device name to its [stream], which may be [None] *)
  devices : gmap string (option Stream);
  files : Files;
  screen : Screen;
  keyboard : Keyboard;
  (** [interpreter.run_mode] *)
  run_mode : bool;
  (** [font_8.fontdict] *)
  fontdict : gmap ustring (list Z);
  segment : Z;
  _peek_values : gmap Z Z;
  tandy_syntax : bool
}.

Section memory.
Context `{Machine}.

(** lowest (EGA) video memory address; max 128k reserved for video *)
Definition video_segment : Z := 0xa000.
(** read only memory *)
Definition rom_segment : Z := 0xf000.
(** segment that holds ram font *)
Definition ram_font_segment : Z := 0xc000.
(** where to find the rom font (chars 0-127) *)
Definition rom_font_addr : Z := 0xfa6e.
(** where to find the ram font (chars 128-254) *)
Definition ram_font_addr : Z := 0x500.
Definition key_buffer_offset : Z := 30.
Definition blink_enabled : bool := true.

(** [Memory.__init__] *)
Definition Memory_init (data_memory : DataMemory)
    (devs : gmap string (option Stream)) (fs : Files) (scr : Screen)
    (kbd : Keyboard) (font_8 : gmap ustring (list Z)) (interpreter_run_mode : bool)
    (peek_values : gmap Z Z) (syntax : string) : Memory :=
  {| data := data_memory; devices := devs; files := fs; screen := scr;
     keyboard := kbd; run_mode := interpreter_run_mode; fontdict := font_8;
     segment := data_segment data_memory; _peek_values := ∅;
     tandy_syntax := String.eqb syntax "tandy" |}.

Definition set_data (m : Memory) (d : DataMemory) : Memory :=
  {| data := d; devices := devices m; files := files m; screen := screen m;
     keyboard := keyboard m; run_mode := run_mode m; fontdict := fontdict m;
     segment := segment m; _peek_values := _peek_values m;
     tandy_syntax := tandy_syntax m |}.
Definition set_files (m : Memory) (fs : Files) : Memory :=
  {| data := data m; devices := devices m; files := fs; screen := screen m;
     keyboard := keyboard m; run_mode := run_mode m; fontdict := fontdict m;
     segment := segment m; _peek_values := _peek_values m;
     tandy_syntax := tandy_syntax m |}.
Definition set_screen (m : Memory) (scr : Screen) : Memory :=
  {| data := data m; devices := devices m; files := files m; screen := scr;
     keyboard := keyboard m; run_mode := run_mode m; fontdict := fontdict m;
     segment := segment m; _peek_values := _peek_values m;
     tandy_syntax := tandy_syntax m |}.
Definition set_keyboard (m : Memory) (kbd : Keyboard) : Memory :=
  {| data := data m; devices := devices m; files := files m; screen := screen m;
     keyboard := kbd; run_mode := run_mode m; fontdict := fontdict m;
     segment := segment m; _peek_values := _peek_values m;
     tandy_syntax := tandy_syntax m |}.
Definition set_fontdict (m : Memory) (fd : gmap ustring (list Z)) : Memory :=
  {| data := data m; devices := devices m; files := files m; screen := screen m;
     keyboard := keyboard m; run_mode := run_mode m; fontdict := fd;
     segment := segment m; _peek_values := _peek_values m;
     tandy_syntax := tandy_syntax m |}.
Definition set_segment (m : Memory) (seg : Z) : Memory :=
  {| data := data m; devices := devices m; files := files m; screen := screen m;
     keyboard := keyboard m; run_mode := run_mode m; fontdict := fontdict m;
     segment := seg; _peek_values := _peek_values m;
     tandy_syntax := tandy_syntax m |}.

Definition set_mode (scr : Screen) (md : VideoMode) : Screen :=
  {| mode := md; monitor := monitor scr; colorswitch := colorswitch scr;
     capabilities := capabilities scr; current_col := current_col scr;
     current_row := current_row scr; cursor_to_line := cursor_to_line scr;
     cursor_from_line := cursor_from_line scr; vpagenum := vpagenum scr;
     palette_get_entry := palette_get_entry scr;
     cga4_palette_num := cga4_palette_num scr; border_attr := border_attr scr;
     rebuilt_glyphs := rebuilt_glyphs scr |}.

(** [screen.rebuild_glyph(char)] *)
Definition rebuild_glyph (scr : Screen) (char : Z) : Screen :=
  {| mode := mode scr; monitor := monitor scr; colorswitch := colorswitch scr;
     capabilities := capabilities scr; current_col := current_col scr;
     current_row := current_row scr; cursor_to_line := cursor_to_line scr;
     cursor_from_line := cursor_from_line scr; vpagenum := vpagenum scr;
     palette_get_entry := palette_get_entry scr;
     cga4_palette_num := cga4_palette_num scr; border_attr := border_attr scr;
     rebuilt_glyphs := rebuilt_glyphs scr ++ [char] |}.

Definition set_mod (kbd : Keyboard) (v : Z) : Keyboard :=
  {| mod_ := v; keypad_ascii := keypad_ascii kbd; kbuf := kbuf kbd |}.
Definition set_kbuf (kbd : Keyboard) (b : RingBuffer) : Keyboard :=
  {| mod_ := mod_ kbd; keypad_ascii := keypad_ascii kbd; kbuf := b |}.

(** The protection test shared by PEEK, POKE, BLOAD and BSAVE:
    [self.data.program.protected and not self.interpreter.run_mode]. *)
Definition locked (m : Memory) : bool :=
  protected (data m) && negb (run_mode m).

(** *** video memory model *)

(** [_get_video_memory]: Retrieve a byte from video memory. *)
Definition _get_video_memory (m : Memory) (addr : Z) : result Z :=
  getitem (mode_get_memory (mode (screen m)) addr 1) 0.

(** [_set_video_memory]: Set a byte in video memory. *)
Definition _set_video_memory (m : Memory) (addr val : Z) : Memory :=
  set_screen m (set_mode (screen m) (mode_set_memory (mode (screen m)) addr [val])).

(** [_get_video_memory_block] *)
Definition _get_video_memory_block (m : Memory) (addr length : Z)
    : result (list Z) :=
  bytearray (mode_get_memory (mode (screen m)) addr length).

(** [_set_video_memory_block] *)
Definition _set_video_memory_block (m : Memory) (addr : Z) (some_bytes : list Z)
    : Memory :=
  set_screen m (set_mode (screen m) (mode_set_memory (mode (screen m)) addr some_bytes)).

(** *** font memory *)

(** [ord(fontdict[to_unicode(chr(char), u'\0')][k])] *)
Definition glyph_byte (m : Memory) (char k : Z) : result Z :=
  c ← chr char;
  glyph ← dict_get (fontdict m) (to_unicode c [0]);
  getitem glyph k.

(** [_get_rom_memory]: Retrieve data from ROM. *)
Definition _get_rom_memory (m : Memory) (addr : Z) : result Z :=
  let addr := addr - (rom_segment * 0x10 + rom_font_addr) in
  let char := addr / 8 in
  if (127 <? char) || (char <? 0) then Ok (-1)
  else glyph_byte m char (addr mod 8).

(** [_get_font_memory]: Retrieve RAM font data. *)
Definition _get_font_memory (m : Memory) (addr : Z) : result Z :=
  let addr := addr - (ram_font_segment * 0x10 + ram_font_addr) in
  let char := addr / 8 + 128 in
  if (char <? 128) || (254 <? char) then Ok (-1)
  else glyph_byte m char (addr mod 8).

(** [_set_font_memory]: set RAM font data. *)
Definition _set_font_memory (addr value : Z) : M Memory unit := λ m,
  let addr := addr - (ram_font_segment * 0x10 + ram_font_addr) in
  let char := addr / 8 + 128 in
  if (char <? 128) || (254 <? char) then (Ok (), m)
  else
    match chr char with
    | Ok c =>
        let uc := to_unicode c [] in
        match uc with
        | [] => (Ok (), m)
        | _ =>
            match dict_get (fontdict m) uc, chr value with
            | Ok old, Ok v =>
                let k := addr mod 8 in
                let new := slice_upto k old ++ [v] ++ slice_from (k + 1) old in
                let m := set_fontdict m (<[uc:=new]> (fontdict m)) in
                (Ok (), set_screen m (rebuild_glyph (screen m) char))
            | Ok _, Raise e => (Raise e, m)
            | Raise e, _ => (Raise e, m)
            | _, _ => (Hang, m)
            end
        end
    | Raise e => (Raise e, m)
    | Hang => (Hang, m)
    end.

(** *** low memory *)

(** [devices.devices[name].stream is not None], as an integer *)
Definition has_stream (m : Memory) (name : string) : result Z :=
  st ← dict_get (devices m) name;
  mret (Z.b2z (bool_decide (is_Some st))).

(** The low-level mode numbers used by the mode switching interrupt. *)
Definition mode_num : gmap string Z :=
  list_to_map
    [("640x200x2", 6); ("160x200x16", 8); ("320x200x16pcjr", 9);
     ("640x200x4", 10); ("320x200x16", 13); ("640x200x16", 14);
     ("640x350x4", 15); ("640x350x16", 16); ("640x400x2", 0x40);
     ("320x200x4pcjr", 4)].

(** [ord(c[0])] for a non-empty string *)
Definition ord0 (c : string) : Z :=
  match c with
  | EmptyString => 0
  | String a _ => Z.of_nat (nat_of_ascii a)
  end.

(** [_get_low_memory]: Retrieve data from low memory. *)
Definition _get_low_memory (m : Memory) (addr : Z) : result Z :=
  let addr := addr - 0 in
  let scr := screen m in
  let kbd := keyboard m in
  if addr =? 124 then Ok (ram_font_addr mod 256)
  else if addr =? 125 then Ok (ram_font_addr / 256)
  else if addr =? 126 then Ok (ram_font_segment mod 256)
  else if addr =? 127 then Ok (ram_font_segment / 256)
  (* 1040 monitor type *)
  else if addr =? 1040 then
    if String.eqb (monitor scr) "mono" then Ok (48 + 6) else Ok (32 + 6)
  else if addr =? 1041 then
    com1 ← has_stream m "COM1:";
    com2 ← has_stream m "COM2:";
    lpt1 ← has_stream m "LPT1:";
    lpt2 ← has_stream m "LPT2:";
    lpt3 ← has_stream m "LPT3:";
    mret (2 * (com1 + com2) + 16 + 64 * (lpt1 + lpt2 + lpt3))
  (* &h40:&h17 keyboard flag *)
  else if addr =? 1047 then Ok (mod_ kbd)
  else if addr =? 1048 then Ok 0
  else if addr =? 1049 then
    v ← (if String.eqb (keypad_ascii kbd) "" then Ok 0
         else keypad_int (keypad_ascii kbd));
    mret (v mod 256)
  else if addr =? 1050 then
    (* keyboard ring buffer starts at n+1024; lowest 1054 *)
    Ok ((start (kbuf kbd) * 2 + key_buffer_offset) mod 256)
  else if addr =? 1051 then
    Ok ((start (kbuf kbd) * 2 + key_buffer_offset) / 256)
  else if addr =? 1052 then
    (* ring buffer ends at n + 1023 *)
    Ok ((stop (kbuf kbd) * 2 + key_buffer_offset) mod 256)
  else if addr =? 1053 then
    Ok ((stop (kbuf kbd) * 2 + key_buffer_offset) / 256)
  else if in_range addr (1024 + key_buffer_offset) (1024 + key_buffer_offset + 32) 1 then
    let index := (addr - 1024 - key_buffer_offset) / 2 in
    let odd := (addr - 1024 - key_buffer_offset) mod 2 in
    let '(c, scan) := ring_read (kbuf kbd) index in
    if negb (odd =? 0) then Ok scan
    else if String.eqb c "" then Ok 0
    else Ok (ord0 c)
  (* 1097 screen mode number *)
  else if addr =? 1097 then
    let cval := colorswitch scr mod 2 in
    if is_text_mode (mode scr) then
      if (String.eqb (capabilities scr) "mda" || String.eqb (capabilities scr) "ega_mono")
         && (width (mode scr) =? 80)
      then Ok 7
      else Ok (Z.b2z (width (mode scr) =? 40) * 2 + cval)
    else if String.eqb (name (mode scr)) "320x200x4" then Ok (4 + cval)
    else
      match mode_num !! name (mode scr) with
      | Some n => Ok n
      | None => Ok 0xff
      end
  (* 1098, 1099 screen width *)
  else if addr =? 1098 then Ok (width (mode scr) mod 256)
  else if addr =? 1099 then Ok (width (mode scr) / 256)
  (* 1100, 1101 graphics page buffer size *)
  else if addr =? 1100 then Ok (page_size (mode scr) mod 256)
  else if addr =? 1101 then Ok (page_size (mode scr) / 256)
  (* 1104 + 2*n (cursor column of page n) - 1 *)
  else if in_range addr 1104 1120 2 then Ok (current_col scr - 1)
  (* 1105 + 2*n (cursor row of page n) - 1 *)
  else if in_range addr 1105 1120 2 then Ok (current_row scr - 1)
  (* 1120, 1121 cursor shape *)
  else if addr =? 1120 then Ok (cursor_to_line scr)
  else if addr =? 1121 then Ok (cursor_from_line scr)
  (* 1122 visual page number *)
  else if addr =? 1122 then Ok (vpagenum scr)
  (* 1125 screen mode info *)
  else if addr =? 1125 then
    Ok (Z.b2z (width (mode scr) =? 80) * 1 +
        Z.b2z (negb (is_text_mode (mode scr))) * 2 +
        colorswitch scr * 4 + 8 +
        Z.b2z (String.eqb (name (mode scr)) "640x200x2") * 16 +
        Z.b2z blink_enabled * 32)
  (* 1126 color *)
  else if addr =? 1126 then
    if String.eqb (name (mode scr)) "320x200x4" then
      Ok (palette_get_entry scr 0 + 32 * cga4_palette_num scr)
    else if is_text_mode (mode scr) then
      Ok (border_attr scr mod 16)
    else Ok (-1)
  (* 1296, 1297: zero (PCmag says data segment address) *)
  else Ok (-1).

(** [_set_low_memory]: Set data in low memory. *)
Definition _set_low_memory (m : Memory) (addr value : Z) : result Memory :=
  let addr := addr - 0 in
  let kbd := keyboard m in
  if addr =? 1047 then Ok (set_keyboard m (set_mod kbd value))
  else if addr =? 1050 then
    Ok (set_keyboard m (set_kbuf kbd
          (ring_set_boundaries (kbuf kbd)
             ((value - key_buffer_offset) / 2) (stop (kbuf kbd)))))
  else if addr =? 1052 then
    Ok (set_keyboard m (set_kbuf kbd
          (ring_set_boundaries (kbuf kbd)
             (start (kbuf kbd)) ((value - key_buffer_offset) / 2))))
  else if in_range addr (1024 + key_buffer_offset) (1024 + key_buffer_offset + 32) 1 then
    let index := (addr - 1024 - key_buffer_offset) / 2 in
    let odd := (addr - 1024 - key_buffer_offset) mod 2 in
    let '(c, scan) := ring_read (kbuf kbd) index in
    if negb (odd =? 0) then
      Ok (set_keyboard m (set_kbuf kbd (ring_write (kbuf kbd) index c value)))
    else if (value =? 0) || (value =? 0xe0) then
      Ok (set_keyboard m (set_kbuf kbd (ring_write (kbuf kbd) index "" scan)))
    else
      v ← chr value;
      mret (set_keyboard m (set_kbuf kbd
              (ring_write (kbuf kbd) index
                 (String (ascii_of_nat (Z.to_nat v)) EmptyString) scan)))
  else Ok m.

(** The addresses [_get_low_memory] has a branch for: the RAM font
    pointer and segment, monitor type, installed devices, the keyboard
    flags and keypad byte, the ring buffer pointers and its 16 slots,
    mode number, width, page size, cursor positions and shape, visible
    page, mode info and the CGA colour byte. *)
Definition low_memory_mapped (addr : Z) : bool :=
  ((124 <=? addr) && (addr <=? 127))
  || (addr =? 1040) || (addr =? 1041)
  || ((1047 <=? addr) && (addr <=? 1053))
  || ((1054 <=? addr) && (addr <? 1086))
  || ((1097 <=? addr) && (addr <=? 1101))
  || ((1104 <=? addr) && (addr <=? 1122))
  || (addr =? 1125) || (addr =? 1126).

(** *** the address space *)

(** [max(0, x)] on the value a region returns *)
Definition clamp (r : result Z) : result Z :=
  v ← r; mret (Z.max 0 v).

(** [_get_memory]: Retrieve the value at an emulated memory location. *)
Definition _get_memory (m : Memory) (addr : Z) : result Z :=
  match _peek_values m !! addr with
  | Some v =>
      (* try if there's a preset value *)
      Ok v
  | None =>
      if rom_segment * 0x10 <=? addr then
        (* ROM font *)
        clamp (_get_rom_memory m addr)
      else if ram_font_segment * 0x10 <=? addr then
        (* RAM font *)
        clamp (_get_font_memory m addr)
      else if video_segment * 0x10 <=? addr then
        (* graphics and text memory *)
        clamp (_get_video_memory m addr)
      else if data_segment (data m) * 0x10 <=? addr then
        clamp (Ok (data_get_memory (data m) addr))
      else if 0 <=? addr then
        clamp (_get_low_memory m addr)
      else Ok 0
  end.

(** [_set_memory]: Set the value at an emulated memory location. *)
Definition _set_memory (addr val : Z) : M Memory unit := λ m,
  if rom_segment * 0x10 <=? addr then
    (* ROM includes font memory *)
    (Ok (), m)
  else if ram_font_segment * 0x10 <=? addr then
    (* RAM font memory *)
    _set_font_memory addr val m
  else if video_segment * 0x10 <=? addr then
    (* graphics and text memory *)
    (Ok (), _set_video_memory m addr val)
  else if data_segment (data m) * 0x10 <=? addr then
    (Ok (), set_data m (data_set_memory (data m) addr val))
  else if 0 <=? addr then
    match _set_low_memory m addr val with
    | Ok m' => (Ok (), m')
    | Raise e => (Raise e, m)
    | Hang => (Hang, m)
    end
  else (Ok (), m).

(** [for a in range(addr, addr+length): block += chr(max(0, _get_memory(a)))] *)
Fixpoint get_bytes (m : Memory) (addrs : list Z) : result (list Z) :=
  match addrs with
  | [] => Ok []
  | a :: addrs =>
      v ← _get_memory m a;
      b ← chr (Z.max 0 v);
      bs ← get_bytes m addrs;
      mret (b :: bs)
  end.

(** [_get_memory_block]: Retrieve a contiguous block of bytes from memory. *)
Definition _get_memory_block (m : Memory) (addr length : Z) : result (list Z) :=
  '(block, addr, length) ←
    (if video_segment * 0x10 <=? addr then
       let video_len := 0x20000 - (addr - video_segment * 0x10) in
       (* graphics and text memory - specialised call *)
       block ← _get_video_memory_block m addr (Z.min length video_len);
       mret (block, addr + video_len, length - video_len)
     else mret ([], addr, length));
  rest ← get_bytes m (range addr (addr + length));
  mret (block ++ rest).

(** [for a in range(len(buf)): self._set_memory(addr + a, buf[a])] *)
Fixpoint set_bytes (addr : Z) (buf : list Z) : M Memory unit :=
  match buf with
  | [] => mret ()
  | b :: buf => _set_memory addr b ;; set_bytes (addr + 1) buf
  end.

(** [_set_memory_block]: Set a contiguous block of bytes in memory. *)
Definition _set_memory_block (addr : Z) (buf : list Z) : M Memory unit :=
  if video_segment * 0x10 <=? addr then
    let video_len := 0x20000 - (addr - video_segment * 0x10) in
    (* graphics and text memory - specialised call *)
    modify (λ m, _set_video_memory_block m addr (slice_upto video_len buf)) ;;
    set_bytes (addr + video_len) (slice_from video_len buf)
  else set_bytes addr buf.

(** What no statement but DEF SEG is meant to change: the segment, the
    preset table, the run mode, the syntax flag and the device table. *)
Definition settings (m : Memory) : Z * gmap Z Z * bool * bool * gmap string (option Stream) :=
  (segment m, _peek_values m, run_mode m, tandy_syntax m, devices m).

(** *** statements *)

(** What [peek_] does once the protection test has passed. *)
Definition peek_unlocked (m : Memory) (addr : Value) : result Z :=
  addr ← to_int true addr;
  let addr := addr + segment m * 0x10 in
  _get_memory m addr.

(** [peek_]: PEEK: Retrieve the value at an emulated memory location. *)
Definition peek_ (m : Memory) (addr : Value) : result Z :=
  (* no peeking the program code (or anywhere) in protected mode *)
  if locked m then Raise (RunError IFC)
  else peek_unlocked m addr.

(** What [poke_] does once the protection test has passed. *)
Definition poke_unlocked (addr : Z) (val : Value) : M Memory unit :=
  val ← lift (to_int false val);
  lift (range_check 0 255 val) ;;
  let addr := if addr <? 0 then addr + 0x10000 else addr in
  m ← get;
  let addr := addr + segment m * 0x10 in
  _set_memory addr val.

(** [poke_]: POKE: Set the value at an emulated memory location.  The
    address is converted before the protection test. *)
Definition poke_ (args : Value * Value) : M Memory unit :=
  addr ← lift (to_int true args.1);
  m ← get;
  if locked m then raise (RunError IFC)
  else poke_unlocked addr args.2.

(** What [bload_] does once the protection test has passed. *)
Definition bload_unlocked (args : Value * option Value) : M Memory unit :=
  let name := args.1 in
  offset ← lift (match args.2 with
                 | Some v => o ← to_int true v; mret (Some o)
                 | None => mret None
                 end);
  m ← get;
  '(seg, g_offset, content) ← lift (open_I (files m) name);
  (* size gets ignored *)
  let offset := default g_offset offset in
  buf ← lift (bytearray content);
  (* remove any EOF marker at end *)
  let buf := match last buf with
             | Some 0x1a => slice_upto (-1) buf
             | _ => buf
             end in
  (* Tandys repeat the header at the end of the file *)
  let buf := if tandy_syntax m then slice_upto (-7) buf else buf in
  let addr := seg * 0x10 + offset in
  _set_memory_block addr buf.

(** [bload_]: BLOAD: Load a file into a block of memory. *)
Definition bload_ (args : Value * option Value) : M Memory unit :=
  m ← get;
  if locked m then raise (RunError IFC)
  else bload_unlocked args.

(** The body of the [with] block of [bsave_]; leaving the block closes
    the file, also on an exception. *)
Definition bsave_write (g : OutFile) (offset length : Z) : M Memory unit := λ m,
  let addr := segment m * 0x10 + offset in
  match _get_memory_block m addr length with
  | Ok block =>
      let g := file_write g block in
      (* Tandys repeat the header at the end of the file *)
      if tandy_syntax m then
        match (s ← pack_H (segment m); o ← pack_H offset;
               l ← pack_H length; mret (s ++ o ++ l)) with
        | Ok header =>
            (Ok (), set_files m (file_close (files m)
                                   (file_write g (type_to_magic_M ++ header))))
        | Raise e => (Raise e, set_files m (file_close (files m) g))
        | Hang => (Hang, m)
        end
      else (Ok (), set_files m (file_close (files m) g))
  | Raise e => (Raise e, set_files m (file_close (files m) g))
  | Hang => (Hang, m)
  end.

(** What [bsave_] does once the protection test has passed. *)
Definition bsave_unlocked (args : Value * Value * Value) : M Memory unit :=
  let '(name, offset, length) := args in
  offset ← lift (to_int true offset);
  length ← lift (to_int true length);
  m ← get;
  g ← lift (open_O (files m) name (segment m) offset length);
  bsave_write g offset length.

(** [bsave_]: BSAVE: Save a block of memory into a file. *)
Definition bsave_ (args : Value * Value * Value) : M Memory unit :=
  m ← get;
  if locked m then raise (RunError IFC)
  else bsave_unlocked args.

(** [def_seg_]: DEF SEG: Set segment. *)
Definition def_seg_ (m : Memory) (seg : option Z) : Memory :=
  match seg with
  | None => set_segment m (data_segment (data m))
  | Some v => set_segment m (if v <? 0 then v + 0x10000 else v)
  end.

End memory.

(** ** machine.py: machine ports *)

(** The objects of the session that [MachinePorts] drives. *)
Class PortDevices : Type := {
  (** [session.stick] *)
  Stick : Type;
  reset_decay : Stick → Stick;
  (** [session.screen], with [mode.set_plane_mask], [mode.set_plane] and
      [set_colorburst] *)
  PortScreen : Type;
  set_plane_mask : PortScreen → Z → PortScreen;
  set_plane : PortScreen → Z → PortScreen;
  set_colorburst : PortScreen → bool → PortScreen;
  (** the stream of a parallel port: [write(chr(val))] and
      [set_control(select, init, lf, strobe)] *)
  Parallel : Type;
  lpt_write : Parallel → Z → Parallel;
  set_control : Parallel → Z → Z → Z → Z → Parallel;
  (** the stream of a serial port: [get_params()],
      [set_params(baudrate, parity, bytesize, stopbits)],
      [set_pins(brk=...)] and [set_pins(rts=..., dtr=...)] *)
  Serial : Type;
  get_params : Serial → Z * string * Z * Z;
  set_params : Serial → Z → string → Z → Z → Serial;
  set_pins_brk : Serial → bool → Serial;
  set_pins_rts_dtr : Serial → Z → Z → Serial
}.

Record MachinePorts `{PortDevices} : Type := mkMachinePorts {
  session_stick : Stick;
  session_screen : PortScreen;
  (** the [stream] of each device, which may be [None] *)
  lpt_device : list (option Parallel);
  (** the dict [com_base], in the order [iteritems] yields it *)
  com_base : list (Z * nat);
  com_device : list (option Serial);
  com_enable_baud_write : list bool;
  com_baud_divisor : list Z;
  com_break : list bool
}.

Section ports.
Context `{PortDevices}.

(** [MachinePorts.__init__] *)
Definition MachinePorts_init (stick : Stick) (scr : PortScreen)
    (lpt1 lpt2 : option Parallel) (com1 com2 : option Serial) : MachinePorts :=
  {| session_stick := stick; session_screen := scr;
     lpt_device := [lpt1; lpt2];
     com_base := [(0x3f8, 0%nat); (0x2f8, 1%nat)];
     com_device := [com1; com2];
     com_enable_baud_write := [false; false];
     com_baud_divisor := [0; 0];
     com_break := [false; false] |}.

Definition set_session_stick (p : MachinePorts) (x : Stick) : MachinePorts :=
  {| session_stick := x; session_screen := session_screen p;
     lpt_device := lpt_device p; com_base := com_base p;
     com_device := com_device p;
     com_enable_baud_write := com_enable_baud_write p;
     com_baud_divisor := com_baud_divisor p; com_break := com_break p |}.
Definition set_session_screen (p : MachinePorts) (x : PortScreen) : MachinePorts :=
  {| session_stick := session_stick p; session_screen := x;
     lpt_device := lpt_device p; com_base := com_base p;
     com_device := com_device p;
     com_enable_baud_write := com_enable_baud_write p;
     com_baud_divisor := com_baud_divisor p; com_break := com_break p |}.
Definition set_lpt_device (p : MachinePorts) (x : list (option Parallel)) : MachinePorts :=
  {| session_stick := session_stick p; session_screen := session_screen p;
     lpt_device := x; com_base := com_base p;
     com_device := com_device p;
     com_enable_baud_write := com_enable_baud_write p;
     com_baud_divisor := com_baud_divisor p; com_break := com_break p |}.
Definition set_com_device (p : MachinePorts) (x : list (option Serial)) : MachinePorts :=
  {| session_stick := session_stick p; session_screen := session_screen p;
     lpt_device := lpt_device p; com_base := com_base p;
     com_device := x;
     com_enable_baud_write := com_enable_baud_write p;
     com_baud_divisor := com_baud_divisor p; com_break := com_break p |}.
Definition set_com_enable_baud_write (p : MachinePorts) (x : list bool) : MachinePorts :=
  {| session_stick := session_stick p; session_screen := session_screen p;
     lpt_device := lpt_device p; com_base := com_base p;
     com_device := com_device p;
     com_enable_baud_write := x;
     com_baud_divisor := com_baud_divisor p; com_break := com_break p |}.
Definition set_com_baud_divisor (p : MachinePorts) (x : list Z) : MachinePorts :=
  {| session_stick := session_stick p; session_screen := session_screen p;
     lpt_device := lpt_device p; com_base := com_base p;
     com_device := com_device p;
     com_enable_baud_write := com_enable_baud_write p;
     com_baud_divisor := x; com_break := com_break p |}.
Definition set_com_break (p : MachinePorts) (x : list bool) : MachinePorts :=
  {| session_stick := session_stick p; session_screen := session_screen p;
     lpt_device := lpt_device p; com_base := com_base p;
     com_device := com_device p;
     com_enable_baud_write := com_enable_baud_write p;
     com_baud_divisor := com_baud_divisor p; com_break := x |}.

(** The parity named by bits 3 to 5 of the line control register. *)
Definition lcr_parity : gmap Z string :=
  list_to_map [(0x38, "S"); (0x28, "M"); (0x18, "E"); (0x8, "O"); (0, "N")].

(** The body of [for base_addr, com_port_nr in self.com_base.iteritems()]
    in [out_], as a caller sees it: the object after a normal return, or
    the exception.  What the object holds when an exception ends the
    call is kept by [out_com_st] below. *)
Definition out_com (addr val : Z) (p : MachinePorts) (entry : Z * nat)
    : result MachinePorts :=
  let '(base_addr, com_port_nr) := entry in
  com_port ← index (com_device p) com_port_nr;
  match com_port with
  | None => Ok p
  | Some stream =>
      enable ← index (com_enable_baud_write p) com_port_nr;
      (* ports at base addr and the next one are used for writing baud rate *)
      if ((addr =? base_addr) || (addr =? base_addr + 1)) && enable then
        old ← index (com_baud_divisor p) com_port_nr;
        let divisor :=
          if addr =? base_addr then Z.land old 0xff00 + val
          else if addr =? base_addr + 1 then val * 0x100 + Z.land old 0xff
          else old in
        let p := set_com_baud_divisor p (<[com_port_nr:=divisor]> (com_baud_divisor p)) in
        if negb (divisor =? 0) then
          let '(baudrate, parity, bytesize, stopbits) := get_params stream in
          let baudrate := 115200 / divisor in
          let stream := set_params stream baudrate parity bytesize stopbits in
          Ok (set_com_device p (<[com_port_nr:=Some stream]> (com_device p)))
        else Ok p
      (* Line Control Register: base_address + 3 (r/w) *)
      else if addr =? base_addr + 3 then
        let '(baudrate, parity, bytesize, stopbits) := get_params stream in
        let p :=
          if negb (Z.land val 0x80 =? 0)
          then set_com_enable_baud_write p
                 (<[com_port_nr:=true]> (com_enable_baud_write p))
          else p in
        (* break condition *)
        let brk := negb (Z.land val 0x40 =? 0) in
        _ ← index (com_break p) com_port_nr;
        let p := set_com_break p (<[com_port_nr:=brk]> (com_break p)) in
        (* parity *)
        parity ← dict_get lcr_parity (Z.land val 0x38);
        (* stopbits: 2 or 1.5 stop bits, or 1 stop bit *)
        let stopbits := if negb (Z.land val 0x4 =? 0) then 2 else 1 in
        (* set byte size to 5, 6, 7, 8 *)
        let bytesize := Z.land val 0x3 + 5 in
        let stream := set_params stream baudrate parity bytesize stopbits in
        let stream := set_pins_brk stream brk in
        Ok (set_com_device p (<[com_port_nr:=Some stream]> (com_device p)))
      (* Modem Control Register: base_address + 4 (r/w) *)
      else if addr =? base_addr + 4 then
        let stream := set_pins_rts_dtr stream (Z.land val 0x2) (Z.land val 0x1) in
        Ok (set_com_device p (<[com_port_nr:=Some stream]> (com_device p)))
      else Ok p
  end.

Fixpoint out_coms (addr val : Z) (p : MachinePorts) (entries : list (Z * nat))
    : result MachinePorts :=
  match entries with
  | [] => Ok p
  | entry :: entries =>
      p ← out_com addr val p entry;
      out_coms addr val p entries
  end.

(** [out_]: Send a value to an emulated machine port. *)
Definition out_ (p : MachinePorts) (addr val : Z) : result MachinePorts :=
  if addr =? 0x201 then
    (* game port reset *)
    Ok (set_session_stick p (reset_decay (session_stick p)))
  else if addr =? 0x3c5 then
    Ok (set_session_screen p (set_plane_mask (session_screen p) val))
  else if addr =? 0x3cf then
    Ok (set_session_screen p (set_plane (session_screen p) val))
  else if addr =? 0x3d8 then
    Ok (set_session_screen p (set_colorburst (session_screen p) (Z.land val 4 =? 0)))
  else if bool_decide (addr ∈ [0x378; 0x37A; 0x278; 0x27A]) then
    (* parallel port output ports *)
    let lpt_port_nr := if 0x378 <=? addr then 0%nat else 1%nat in
    let base_addr := if Nat.eqb lpt_port_nr 0 then 0x378 else 0x278 in
    dev ← index (lpt_device p) lpt_port_nr;
    match dev with
    | None => Ok p
    | Some stream =>
        if addr - base_addr =? 0 then
          (* set data port *)
          c ← chr val;
          Ok (set_lpt_device p (<[lpt_port_nr:=Some (lpt_write stream c)]> (lpt_device p)))
        else
          (* set control port *)
          Ok (set_lpt_device p
                (<[lpt_port_nr:=Some (set_control stream (Z.land val 0x8)
                                        (Z.land val 0x4) (Z.land val 0x2)
                                        (Z.land val 0x1))]> (lpt_device p)))
    end
  else
    (* serial port machine ports *)
    out_coms addr val p (com_base p).

(** *** [out_] with the ports object as its state

    [out_] assigns to the fields of the object as it goes, so a write
    that ends in an exception has already changed whatever was assigned
    before the exception.  The definitions below follow the same
    statements as [out_com], [out_coms] and [out_] above and keep the
    object the call leaves behind in every case. *)

(** The body of [for base_addr, com_port_nr in self.com_base.iteritems()]. *)
Definition out_com_st (addr val : Z) (entry : Z * nat) : M MachinePorts unit :=
  let '(base_addr, com_port_nr) := entry in
  p ← get;
  com_port ← lift (index (com_device p) com_port_nr);
  match com_port with
  | None => mret ()
  | Some stream =>
      enable ← lift (index (com_enable_baud_write p) com_port_nr);
      (* ports at base addr and the next one are used for writing baud rate *)
      if ((addr =? base_addr) || (addr =? base_addr + 1)) && enable then
        old ← lift (index (com_baud_divisor p) com_port_nr);
        let divisor :=
          if addr =? base_addr then Z.land old 0xff00 + val
          else if addr =? base_addr + 1 then val * 0x100 + Z.land old 0xff
          else old in
        modify (λ p, set_com_baud_divisor p
                       (<[com_port_nr:=divisor]> (com_baud_divisor p))) ;;
        if negb (divisor =? 0) then
          let '(baudrate, parity, bytesize, stopbits) := get_params stream in
          let baudrate := 115200 / divisor in
          let stream := set_params stream baudrate parity bytesize stopbits in
          modify (λ p, set_com_device p (<[com_port_nr:=Some stream]> (com_device p)))
        else mret ()
      (* Line Control Register: base_address + 3 (r/w) *)
      else if addr =? base_addr + 3 then
        let '(baudrate, parity, bytesize, stopbits) := get_params stream in
        (if negb (Z.land val 0x80 =? 0)
         then modify (λ p, set_com_enable_baud_write p
                             (<[com_port_nr:=true]> (com_enable_baud_write p)))
         else mret ()) ;;
        (* break condition *)
        let brk := negb (Z.land val 0x40 =? 0) in
        p ← get;
        _ ← lift (index (com_break p) com_port_nr);
        modify (λ p, set_com_break p (<[com_port_nr:=brk]> (com_break p))) ;;
        (* parity *)
        parity ← lift (dict_get lcr_parity (Z.land val 0x38));
        (* stopbits: 2 or 1.5 stop bits, or 1 stop bit *)
        let stopbits := if negb (Z.land val 0x4 =? 0) then 2 else 1 in
        (* set byte size to 5, 6, 7, 8 *)
        let bytesize := Z.land val 0x3 + 5 in
        let stream := set_params stream baudrate parity bytesize stopbits in
        let stream := set_pins_brk stream brk in
        modify (λ p, set_com_device p (<[com_port_nr:=Some stream]> (com_device p)))
      (* Modem Control Register: base_address + 4 (r/w) *)
      else if addr =? base_addr + 4 then
        let stream := set_pins_rts_dtr stream (Z.land val 0x2) (Z.land val 0x1) in
        modify (λ p, set_com_device p (<[com_port_nr:=Some stream]> (com_device p)))
      else mret ()
  end.

Fixpoint out_coms_st (addr val : Z) (entries : list (Z * nat))
    : M MachinePorts unit :=
  match entries with
  | [] => mret ()
  | entry :: entries =>
      out_com_st addr val entry ;; out_coms_st addr val entries
  end.

(** [out_]: Send a value to an emulated machine port. *)
Definition out_st (addr val : Z) : M MachinePorts unit :=
  if addr =? 0x201 then
    (* game port reset *)
    modify (λ p, set_session_stick p (reset_decay (session_stick p)))
  else if addr =? 0x3c5 then
    modify (λ p, set_session_screen p (set_plane_mask (session_screen p) val))
  else if addr =? 0x3cf then
    modify (λ p, set_session_screen p (set_plane (session_screen p) val))
  else if addr =? 0x3d8 then
    modify (λ p, set_session_screen p
                   (set_colorburst (session_screen p) (Z.land val 4 =? 0)))
  else if bool_decide (addr ∈ [0x378; 0x37A; 0x278; 0x27A]) then
    (* parallel port output ports *)
    let lpt_port_nr := if 0x378 <=? addr then 0%nat else 1%nat in
    let base_addr := if Nat.eqb lpt_port_nr 0 then 0x378 else 0x278 in
    p ← get;
    dev ← lift (index (lpt_device p) lpt_port_nr);
    match dev with
    | None => mret ()
    | Some stream =>
        if addr - base_addr =? 0 then
          (* set data port *)
          c ← lift (chr val);
          modify (λ p, set_lpt_device p
                         (<[lpt_port_nr:=Some (lpt_write stream c)]> (lpt_device p)))
        else
          (* set control port *)
          modify (λ p, set_lpt_device p
                         (<[lpt_port_nr:=Some (set_control stream (Z.land val 0x8)
                                                 (Z.land val 0x4) (Z.land val 0x2)
                                                 (Z.land val 0x1))]> (lpt_device p)))
    end
  else
    (* serial port machine ports *)
    p ← get;
    out_coms_st addr val (com_base p).

(** The layout [MachinePorts.__init__] sets up: two parallel ports, and
    two serial ports at [0x3f8] and [0x2f8]. *)
Definition laid_out (p : MachinePorts) : Prop :=
  com_base p = [(0x3f8, 0%nat); (0x2f8, 1%nat)]
  ∧ List.length (lpt_device p) = 2%nat
  ∧ List.length (com_device p) = 2%nat
  ∧ List.length (com_enable_baud_write p) = 2%nat
  ∧ List.length (com_baud_divisor p) = 2%nat
  ∧ List.length (com_break p) = 2%nat.

End ports.

(** ** machine.py: reading ports, and WAIT *)

(** What [inp] reads of the session and of the device streams, and the
    scheduler behind [events.wait()] as it acts on the session. *)
Class PortInputs `{Float} `{PortDevices} : Type := {
  (** [session.stick]: [is_firing[i][j]], [decay()], [axis[i][j]] *)
  is_firing : Stick → nat → nat → bool;
  decay : Stick → F;
  axis : Stick → nat → nat → F;
  (** [stream.get_status()] of a parallel port: busy, ack, paper,
      select, err *)
  get_status : Parallel → Z * Z * Z * Z * Z;
  (** [stream.io_waiting()]: in_waiting, out_waiting *)
  io_waiting : Serial → Z * Z;
  (** [stream.get_pins()]: cd, ri, dsr, cts *)
  get_pins : Serial → Z * Z * Z * Z
}.

(** The session as the port functions see it: the ports object and
    [session.keyboard.last_scancode]. *)
Record Session `{PortDevices} : Type := mkSession {
  ports : MachinePorts;
  last_scancode : Z
}.

Section inputs.
Context `{Float} `{PortDevices} `{!PortInputs}.

(** time delay for port value to drop to 0 on maximum reading. *)
Definition joystick_time_factor : F := (fz 75 / fz 255)%fl.

(** The register value of each parity. *)
Definition lcr_code : gmap string Z :=
  list_to_map [("S", 0x38); ("M", 0x28); ("E", 0x18); ("O", 0x8); ("N", 0)].

(** The body of [for base_addr, com_port_nr in self.com_base.iteritems()]
    in [inp]: [Some v] is [return v], [None] goes on with the loop. *)
Definition inp_com (port : Z) (p : MachinePorts) (entry : Z * nat)
    : result (option Z) :=
  let '(base_addr, com_port_nr) := entry in
  com_port ← index (com_device p) com_port_nr;
  match com_port with
  | None => Ok None
  | Some stream =>
      (* Line Control Register: base_address + 3 (r/w) *)
      if port =? base_addr + 3 then
        let '(_, parity, bytesize, stopbits) := get_params stream in
        enable ← index (com_enable_baud_write p) com_port_nr;
        let value := Z.b2z enable * 0x80 in
        brk ← index (com_break p) com_port_nr;
        let value := value + Z.b2z brk * 0x40 in
        code ← dict_get lcr_code parity;
        let value := value + code in
        let value := if 1 <? stopbits then value + 0x4 else value in
        let value := value + (bytesize - 5) in
        Ok (Some value)
      (* Line Status Register: base_address + 5 (read only) *)
      else if port =? base_addr + 5 then
        let '(in_waiting, out_waiting) := io_waiting stream in
        Ok (Some ((1 - out_waiting) * 0x60 + in_waiting))
      (* Modem Status Register: base_address + 6 (read only) *)
      else if port =? base_addr + 6 then
        let '(cd, ri, dsr, cts) := get_pins stream in
        (* delta bits not implemented *)
        Ok (Some (cd * 0x80 + ri * 0x40 + dsr * 0x20 + cts * 0x10))
      else Ok None
  end.

Fixpoint inp_coms (port : Z) (p : MachinePorts) (entries : list (Z * nat))
    : result Z :=
  match entries with
  | [] =>
      (* addr isn't one of the covered ports *)
      Ok 0
  | entry :: entries =>
      r ← inp_com port p entry;
      match r with
      | Some value => Ok value
      | None => inp_coms port p entries
      end
  end.

(** [inp]: Get the value in an emulated machine port. *)
Definition inp (sess : Session) (port : Z) : result Z :=
  let p := ports sess in
  let stick := session_stick p in
  (* keyboard *)
  if port =? 0x60 then Ok (last_scancode sess)
  (* game port (joystick) *)
  else if port =? 0x201 then
    let value :=
      Z.b2z (negb (is_firing stick 0 0)) * 0x40 +
      Z.b2z (negb (is_firing stick 0 1)) * 0x20 +
      Z.b2z (negb (is_firing stick 1 0)) * 0x10 +
      Z.b2z (negb (is_firing stick 1 1)) * 0x80 in
    let d := decay stick in
    let value := if (d <? axis stick 0 0 * joystick_time_factor)%fl
                 then value + 0x04 else value in
    let value := if (d <? axis stick 0 1 * joystick_time_factor)%fl
                 then value + 0x02 else value in
    let value := if (d <? axis stick 1 0 * joystick_time_factor)%fl
                 then value + 0x01 else value in
    let value := if (d <? axis stick 1 1 * joystick_time_factor)%fl
                 then value + 0x08 else value in
    Ok value
  else if (port =? 0x379) || (port =? 0x279) then
    (* parallel port input ports *)
    let lpt_port_nr := if 0x378 <=? port then 0%nat else 1%nat in
    dev ← index (lpt_device p) lpt_port_nr;
    match dev with
    | None => Ok 0
    | Some stream =>
        (* get status port *)
        let '(busy, ack, paper, select, err) := get_status stream in
        Ok (Z.lor (Z.lor (Z.lor (Z.lor (busy * 0x80) (ack * 0x40)) (paper * 0x20))
                     (select * 0x10)) (err * 0x8))
    end
  else
    (* serial port machine ports *)
    inp_coms port p (com_base p).

(** [OUT] followed by nothing else: the session after [out_]. *)
Definition out_session (sess : Session) (addr val : Z) : result Session :=
  p ← out_ (ports sess) addr val;
  mret {| ports := p; last_scancode := last_scancode sess |}.

(** [wait_]: Wait until an emulated machine port has a specified value.
    [events_wait] is what [session.events.wait()] does to the session. *)
Fixpoint wait_ (events_wait : Session → Session) (fuel : nat) (sess : Session)
    (addr ander xorer : Z) : result Session :=
  v ← inp sess addr;
  if Z.land (Z.lxor v xorer) ander =? 0 then
    match fuel with
    | O => Hang
    | S fuel => wait_ events_wait fuel (events_wait sess) addr ander xorer
    end
  else Ok sess.

End inputs.

(** [inp_]: INP: get value from machine port. *)
Definition inp_ `{Float} `{PortDevices} `{!PortInputs} `{Machine}
    (sess : Session) (num : Value) : result Z :=
  port ← to_int true num;
  v ← inp sess port;
  (* return as unsigned int *)
  mret (if v <? 0 then v + 0x10000 else v).

End machine.
(** ** Collaborators to run the model on

    Stand-ins for the objects that live outside the two files, so that
    the model can be evaluated on concrete inputs. *)

Module Ref.
Import sound machine.

(** Exact rationals as the float carrier; [b ** e] is exact at integer
    exponents and linear in between. *)
Definition Qpow (b e : Q) : Q :=
  let n := Qfloor e in
  Qred (Qpower b n * (1 + (b - 1) * (e - inject_Z n)))%Q.

#[export] Instance QFloat : Float := {|
  F := Q;
  f_of_Z := inject_Z;
  fadd := λ x y, Qred (x + y)%Q;
  fsub := λ x y, Qred (x - y)%Q;
  fmul := λ x y, Qred (x * y)%Q;
  fdiv := λ x y, Qred (x / y)%Q;
  fpow := Qpow;
  fltb := λ x y, negb (Qle_bool y x);
  feqb := Qeq_bool
|}.

(** An audio back end that, at every [events.wait()], takes the oldest
    item off every queue and reports it done; the scheduler state counts
    the waits. *)
Definition consume (q : Queue) : Queue :=
  match items q with
  | [] => q
  | _ :: rest => {| items := rest; unfinished_tasks := unfinished_tasks q - 1 |}
  end.

#[export] Instance draining : Scheduler := {|
  Events := nat;
  events_wait := λ n tq, (S n, consume <$> tq)
|}.

(** Modelled from the spec: [util.skip], [util.skip_read] and
    [draw_and_play.MLParser] are not in the two files.  Following the
    command grammar of the specification (section 4.4), a number is a
    run of decimal digits and blanks between tokens are passed over;
    this parser knows no variables, so [X] and an absent number fail
    with an illegal function call. *)
Definition peek (g : StringIO) : string :=
  String.substring (pos g) 1 (buf g).

Fixpoint skip_blank (n : nat) (g : StringIO) : StringIO :=
  match n with
  | O => g
  | S n => if String.eqb (peek g) " " then skip_blank n (read1 g) else g
  end.

Definition blank (g : StringIO) : StringIO :=
  skip_blank (String.length (buf g)) g.

Fixpoint read_digits (n : nat) (g : StringIO) (acc : string) : string * StringIO :=
  match n with
  | O => (acc, g)
  | S n =>
      let c := peek g in
      if negb (String.eqb c "") && str_in c digits
      then read_digits n (read1 g) (acc +:+ c)
      else (acc, g)
  end.

Definition number (g : StringIO) : result (Z * StringIO) :=
  let '(numstr, g) := read_digits (String.length (buf g)) (blank g) "" in
  match int_of_str numstr with
  | Ok n => Ok (n, g)
  | _ => Raise (RunError IFC)
  end.

#[export] Instance literal_parser : MLParser := {|
  skip_read := λ g, let g := blank g in (peek g, read1 g);
  skip := λ g, let g := blank g in (peek g, g);
  parse_number := number;
  ml_parse_number := number;
  parse_string := λ _, Raise (RunError IFC)
|}.

(** The same parser with one string variable: [X] followed by any name
    up to the next semicolon stands for [value]. *)
Fixpoint past_semicolon (n : nat) (g : StringIO) : StringIO :=
  match n with
  | O => g
  | S n => if String.eqb (peek g) ";" then read1 g
           else if String.eqb (peek g) "" then g
           else past_semicolon n (read1 g)
  end.

Definition parser_with (value : string) : MLParser := {|
  skip_read := λ g, let g := blank g in (peek g, read1 g);
  skip := λ g, let g := blank g in (peek g, g);
  parse_number := number;
  ml_parse_number := number;
  parse_string := λ g, Ok (value, past_semicolon (String.length (buf g)) g)
|}.

(** A sound object as [Sound.__init__] leaves it, on four empty queues. *)
Definition sound0 (syntax : string) : Sound :=
  Sound_init 0%nat [empty_queue; empty_queue; empty_queue; empty_queue] [] syntax.

(** The number of waits the scheduler has served. *)
Definition ticks (s : Sound) : nat := events s.

(** The same with twenty tones queued on voice 1. *)
Definition busy : Sound :=
  match enqueue (sound0 "") 1
          (replicate 20 (fz 440, (fz 1 / fz 4)%fl, fz 1, false, 15)) with
  | Ok s => s
  | _ => sound0 ""
  end.

(** Modelled from the spec: [values.to_int] is not in the two files.
    By section 3 an offset is "a signed-then-normalized 16-bit value":
    an unsigned conversion takes -32768..65535 and wraps negatives
    modulo 65536, a signed one takes -32768..32767; anything else
    overflows. *)
Definition to_int16 (unsigned : bool) (v : Z) : result Z :=
  if unsigned then
    if (-32768 <=? v) && (v <=? 65535) then Ok (v mod 65536)
    else Raise (RunError OVERFLOW)
  else
    if (-32768 <=? v) && (v <=? 32767) then Ok v
    else Raise (RunError OVERFLOW).

(** Flat stand-ins for data memory, the video mode, the keyboard ring
    and the file layer: byte maps that read 0 where nothing was written. *)
Record FlatData : Type := mkFlatData {
  fd_segment : Z;
  fd_protected : bool;
  fd_bytes : gmap Z Z
}.

Record FlatMode : Type := mkFlatMode {
  fm_text : bool;
  fm_width : Z;
  fm_name : string;
  fm_page_size : Z;
  fm_bytes : gmap Z Z
}.

Fixpoint store (a : Z) (bs : list Z) (mem : gmap Z Z) : gmap Z Z :=
  match bs with
  | [] => mem
  | b :: bs => store (a + 1) bs (<[a:=b]> mem)
  end.

Record FlatRing : Type := mkFlatRing {
  fr_start : Z;
  fr_stop : Z;
  fr_slots : gmap Z (string * Z)
}.

#[export] Instance flat : Machine := {|
  Value := Z;
  to_int := to_int16;
  DataMemory := FlatData;
  data_segment := fd_segment;
  protected := fd_protected;
  data_get_memory := λ d a, default 0 (fd_bytes d !! a);
  data_set_memory := λ d a v,
    {| fd_segment := fd_segment d; fd_protected := fd_protected d;
       fd_bytes := <[a:=v]> (fd_bytes d) |};
  VideoMode := FlatMode;
  mode_get_memory := λ v a n, (λ x, default 0 (fm_bytes v !! x)) <$> range a (a + n);
  mode_set_memory := λ v a bs,
    {| fm_text := fm_text v; fm_width := fm_width v; fm_name := fm_name v;
       fm_page_size := fm_page_size v; fm_bytes := store a bs (fm_bytes v) |};
  is_text_mode := fm_text;
  width := fm_width;
  name := fm_name;
  page_size := fm_page_size;
  to_unicode := λ c _, [c];
  RingBuffer := FlatRing;
  start := fr_start;
  stop := fr_stop;
  ring_read := λ b i, default (EmptyString, 0) (fr_slots b !! i);
  ring_set_boundaries := λ b x y,
    {| fr_start := x; fr_stop := y; fr_slots := fr_slots b |};
  ring_write := λ b i c scan,
    {| fr_start := fr_start b; fr_stop := fr_stop b;
       fr_slots := <[i:=(c, scan)]> (fr_slots b) |};
  keypad_int := int_of_str;
  Files := gmap Z (Z * Z * list Z);
  open_I := λ fs nm,
    match fs !! nm with
    | Some f => Ok f
    | None => Raise (RunError IFC)
    end;
  OutFile := Z * (Z * Z * list Z);
  open_O := λ fs nm seg off len, Ok (nm, (seg, off, []));
  file_write := λ g bs, (g.1, (g.2.1, g.2.2 ++ bs));
  file_close := λ fs g, <[g.1:=g.2]> fs;
  type_to_magic_M := [0xfd];
  Stream := unit
|}.

(** A text-mode machine as [Memory.__init__] leaves it, with the data
    segment at [0x13ad]. *)
Definition screen0 : Screen :=
  {| mode := {| fm_text := true; fm_width := 80; fm_name := "";
                fm_page_size := 4096; fm_bytes := ∅ |};
     monitor := "rgb"; colorswitch := 1; capabilities := "vga";
     current_col := 1; current_row := 1; cursor_to_line := 14;
     cursor_from_line := 13; vpagenum := 0; palette_get_entry := λ _, 0;
     cga4_palette_num := 1; border_attr := 0; rebuilt_glyphs := [] |}.

Definition keyboard0 : Keyboard :=
  {| mod_ := 0; keypad_ascii := "";
     kbuf := {| fr_start := 0; fr_stop := 0; fr_slots := ∅ |} |}.

Definition devices0 : gmap string (option unit) :=
  list_to_map [("COM1:", None); ("COM2:", None); ("LPT1:", Some ());
               ("LPT2:", None); ("LPT3:", None)].

Definition memory0 (is_protected running : bool) : Memory :=
  Memory_init
    {| fd_segment := 0x13ad; fd_protected := is_protected; fd_bytes := ∅ |}
    devices0 ∅ screen0 keyboard0 ∅ running ∅ "".

(** Streams that remember what was set on them. *)
Record FlatSerial : Type := mkFlatSerial {
  fs_params : Z * string * Z * Z;
  fs_brk : bool;
  fs_rts : Z;
  fs_dtr : Z
}.

#[export] Instance flat_ports : PortDevices := {|
  Stick := nat;
  reset_decay := λ _, 0%nat;
  PortScreen := list Z;
  set_plane_mask := λ scr v, scr ++ [v];
  set_plane := λ scr v, scr ++ [v];
  set_colorburst := λ scr b, scr ++ [Z.b2z b];
  Parallel := list Z;
  lpt_write := λ st c, st ++ [c];
  set_control := λ st _ _ _ _, st;
  Serial := FlatSerial;
  get_params := fs_params;
  set_params := λ st baud parity bytesize stopbits,
    {| fs_params := (baud, parity, bytesize, stopbits); fs_brk := fs_brk st;
       fs_rts := fs_rts st; fs_dtr := fs_dtr st |};
  set_pins_brk := λ st b,
    {| fs_params := fs_params st; fs_brk := b; fs_rts := fs_rts st;
       fs_dtr := fs_dtr st |};
  set_pins_rts_dtr := λ st r d,
    {| fs_params := fs_params st; fs_brk := fs_brk st; fs_rts := r;
       fs_dtr := d |}
|}.

Definition serial0 : FlatSerial :=
  {| fs_params := (9600, "N", 8, 1); fs_brk := false; fs_rts := 0; fs_dtr := 0 |}.

(** Ports as [MachinePorts.__init__] leaves them, with a stream on COM1. *)
Definition ports0 : MachinePorts :=
  MachinePorts_init 0%nat [] None None (Some serial0) None.

(** A joystick at rest, a printer that is selected and not busy, and a
    serial line with carrier and nothing waiting. *)
#[export] Instance flat_inputs : PortInputs := {|
  is_firing := λ _ _ _, false;
  decay := λ st, inject_Z (Z.of_nat st);
  axis := λ _ _ _, inject_Z 128;
  get_status := λ _, (0, 1, 0, 1, 1);
  io_waiting := λ _, (0, 0);
  get_pins := λ _, (1, 0, 1, 1)
|}.

Definition session0 : Session := {| ports := ports0; last_scancode := 0x1c |}.

End Ref.

(** * Properties *)

(** ** The tone queues *)

Module sound_spec.
Import sound.

Section tone_engine.
Context `{Float} `{!Scheduler}.

Lemma index_Some {A} (l : list A) (i : nat) (x : A) :
  l !! i = Some x → index l i = Ok x.
Proof. intros E. unfold index. by rewrite E. Qed.

Lemma setitem_lt {A} (l : list A) (i : nat) (x : A) :
  (i < List.length l)%nat → setitem l i x = Ok (<[i:=x]> l).
Proof.
  intros Hi. unfold setitem.
  destruct (lookup_lt_is_Some_2 l i Hi) as [y ->]. done.
Qed.

(** One call of [play_sound_no_wait] appends one event to the queue of
    its voice and leaves the length of the noise table alone. *)
Lemma play_sound_no_wait_put (s : Sound) frequency duration fill loop voice volume q :
  tone_queue s !! voice = Some q →
  List.length (noise_freq s) = 8%nat →
  ∃ s' e, play_sound_no_wait s frequency duration fill loop voice volume = Ok s'
    ∧ tone_queue s' = <[voice:=put q e]> (tone_queue s)
    ∧ List.length (noise_freq s') = 8%nat.
Proof.
  intros Hq Hn. unfold play_sound_no_wait.
  rewrite (index_Some _ _ _ Hq). cbn [mbind result_bind].
  match goal with |- context [if ?b then _ else _] => destruct b eqn:Eb end.
  2:{ eexists _, _. split; [reflexivity|]. by split. }
  cbn [tone_queue noise_freq set_tone_queue].
  rewrite setitem_lt by lia. cbn [mbind result_bind].
  rewrite setitem_lt by (rewrite length_insert; lia). cbn [mbind result_bind mret result_ret].
  eexists _, _. split; [reflexivity|]. split; [done|].
  cbn. by rewrite !length_insert.
Qed.

Lemma enqueue_length (tones : list (F * F * F * bool * Z)) :
  ∀ (s : Sound) voice q,
    tone_queue s !! voice = Some q →
    List.length (noise_freq s) = 8%nat →
    ∃ s' q', enqueue s voice tones = Ok s'
      ∧ tone_queue s' !! voice = Some q'
      ∧ List.length (items q') = (List.length (items q) + List.length tones)%nat.
Proof.
  induction tones as [|[[[[f d] fi] lo] vo] tones IH]; intros s voice q Hq Hn.
  - exists s, q. cbn. split; [done|]. split; [done|]. lia.
  - destruct (play_sound_no_wait_put s f d fi lo voice vo q Hq Hn)
      as (s1 & e & E1 & Etq & Hn1).
    assert (Hq1 : tone_queue s1 !! voice = Some (put q e)).
    { rewrite Etq. apply list_lookup_insert_eq. by eapply lookup_lt_Some. }
    destruct (IH s1 voice (put q e) Hq1 Hn1) as (s' & q' & E & Hq' & Hlen).
    exists s', q'. cbn [enqueue]. rewrite E1. cbn [mbind result_bind].
    split; [done|]. split; [done|].
    rewrite Hlen. cbn [put items]. rewrite length_app. cbn. lia.
Qed.

(** C4.  The adjusted queue length of a voice is [max(0, qsize - 1)];
    after [N] events are put on an empty voice queue by
    [play_sound_no_wait], with no wait in between, it reads [N - 1] for
    [N >= 1] and [0] for [N = 0]. *)
Theorem queue_length_after_enqueue (s : Sound) (voice : nat) (q : Queue)
    (tones : list (F * F * F * bool * Z)) :
  tone_queue s !! voice = Some q →
  List.length (noise_freq s) = 8%nat →
  queue_length s voice = Ok (Z.max 0 (qsize q - 1))
  ∧ (items q = [] →
     ∃ s', enqueue s voice tones = Ok s'
       ∧ queue_length s' voice = Ok (Z.max 0 (Z.of_nat (List.length tones) - 1))
       ∧ ((List.length tones ≥ 1)%nat →
          queue_length s' voice = Ok (Z.of_nat (List.length tones) - 1))
       ∧ (List.length tones = 0%nat → queue_length s' voice = Ok 0)).
Proof.
  intros Hq Hn. split.
  { unfold queue_length. by rewrite (index_Some _ _ _ Hq). }
  intros Hempty.
  destruct (enqueue_length tones s voice q Hq Hn) as (s' & q' & E & Hq' & Hlen).
  rewrite Hempty in Hlen. cbn in Hlen.
  assert (Hql : queue_length s' voice = Ok (Z.max 0 (Z.of_nat (List.length tones) - 1))).
  { unfold queue_length. rewrite (index_Some _ _ _ Hq').
    cbn. unfold qsize. by rewrite Hlen. }
  exists s'. split; [done|]. split; [done|]. split.
  - intros Hge. rewrite Hql. f_equal. lia.
  - intros Hz. rewrite Hql, Hz. done.
Qed.

Lemma waits_S (k : nat) (s : Sound) : waits (S k) s = waits k (wait s).
Proof. unfold waits. apply Nat.iter_succ_r. Qed.

(** [wait_music] stops exactly when none of the voices 0, 1, 2 is above
    the mark. *)
Lemma music_waiting_false (s : Sound) (w : Z) :
  music_waiting s w = Ok false ↔
  ∃ l0 l1 l2, queue_length s 0 = Ok l0 ∧ queue_length s 1 = Ok l1
    ∧ queue_length s 2 = Ok l2 ∧ l0 ≤ w ∧ l1 ≤ w ∧ l2 ≤ w.
Proof.
  unfold music_waiting. split.
  - destruct (queue_length s 0) as [l0| |]; cbn; try discriminate.
    destruct (Z.ltb_spec w l0); cbn; try discriminate.
    destruct (queue_length s 1) as [l1| |]; cbn; try discriminate.
    destruct (Z.ltb_spec w l1); cbn; try discriminate.
    destruct (queue_length s 2) as [l2| |]; cbn; try discriminate.
    destruct (Z.ltb_spec w l2); cbn; try discriminate.
    intros _. by exists l0, l1, l2.
  - intros (l0 & l1 & l2 & -> & -> & -> & H0' & H1' & H2'). cbn.
    destruct (Z.ltb_spec w l0); [lia|].
    destruct (Z.ltb_spec w l1); [lia|].
    destruct (Z.ltb_spec w l2); [lia|]. done.
Qed.

Lemma music_waiting_true (s : Sound) (w : Z) :
  music_waiting s w = Ok true →
  ∃ (voice : nat) l, (voice < 3)%nat ∧ queue_length s voice = Ok l ∧ w < l.
Proof.
  unfold music_waiting.
  destruct (queue_length s 0) as [l0| |] eqn:E0; cbn; try discriminate.
  destruct (Z.ltb_spec w l0); cbn.
  { intros _. exists 0%nat, l0. split_and!; [lia|done|done]. }
  destruct (queue_length s 1) as [l1| |] eqn:E1; cbn; try discriminate.
  destruct (Z.ltb_spec w l1); cbn.
  { intros _. exists 1%nat, l1. split_and!; [lia|done|done]. }
  destruct (queue_length s 2) as [l2| |] eqn:E2; cbn; try discriminate.
  destruct (Z.ltb_spec w l2); cbn; try discriminate.
  intros _. exists 2%nat, l2. split_and!; [lia|done|done].
Qed.

(** [wait_music] returns the object as it is after the first number of
    waits at which the loop condition is false. *)
Lemma wait_music_spec (fuel : nat) :
  ∀ (s s' : Sound) (w : Z),
    wait_music fuel s w = Ok s' ↔
    ∃ k, (k ≤ fuel)%nat ∧ s' = waits k s ∧ music_waiting s' w = Ok false
      ∧ ∀ j, (j < k)%nat → music_waiting (waits j s) w = Ok true.
Proof.
  induction fuel as [|fuel IH]; intros s s' w.
  - cbn [wait_music]. split.
    + destruct (music_waiting s w) as [[]| |] eqn:E; cbn; try discriminate.
      intros [= <-]. exists 0%nat. split_and!; [done..|]. intros j Hj. lia.
    + intros (k & Hk & -> & Hf & _). assert (k = 0%nat) as -> by lia.
      change (waits 0 s) with s in Hf. rewrite Hf. done.
  - cbn [wait_music]. split.
    + destruct (music_waiting s w) as [[]| |] eqn:E; cbn; try discriminate.
      * intros Hw. apply IH in Hw as (k & Hk & -> & Hf & Hb).
        exists (S k). rewrite waits_S. split_and!; [lia|done..|].
        intros [|j] Hj; [done|]. rewrite waits_S. apply Hb. lia.
      * intros [= <-]. exists 0%nat. split_and!; [lia|done..|]. intros j Hj. lia.
    + intros (k & Hk & -> & Hf & Hb). destruct k as [|k].
      * change (waits 0 s) with s in Hf. rewrite Hf. done.
      * pose proof (Hb 0%nat ltac:(lia)) as Hfst. change (waits 0 s) with s in Hfst.
        rewrite Hfst. cbn [mbind result_bind]. apply IH. exists k.
        rewrite waits_S in Hf. rewrite waits_S.
        split_and!; [lia|done..|].
        intros j Hj. rewrite <- waits_S. apply Hb. lia.
Qed.

(** C3 (as the code has it).  [play_sound] first puts the event on the
    queue of the given voice and then waits until the adjusted queue
    length of each of the voices 0, 1 and 2 is at most 15: it returns
    the object as it is after the first [k] waits at which all three
    are, and at every earlier wait some voice (not always the given
    one) was above 15. *)
Theorem play_sound_waits_on_all_voices (fuel : nat) (s s' : Sound)
    (frequency duration fill : F) (loop : bool) (voice : nat) (volume : Z) :
  play_sound fuel s frequency duration fill loop voice volume = Ok s' ↔
  ∃ s1 k,
    play_sound_no_wait s frequency duration fill loop voice volume = Ok s1
    ∧ (k ≤ fuel)%nat ∧ s' = waits k s1
    ∧ (∃ l0 l1 l2, queue_length s' 0 = Ok l0 ∧ queue_length s' 1 = Ok l1
         ∧ queue_length s' 2 = Ok l2 ∧ l0 ≤ 15 ∧ l1 ≤ 15 ∧ l2 ≤ 15)
    ∧ (∀ j, (j < k)%nat →
         music_waiting (waits j s1) 15 = Ok true
         ∧ ∃ (v : nat) l, (v < 3)%nat ∧ queue_length (waits j s1) v = Ok l ∧ 15 < l).
Proof.
  unfold play_sound. split.
  - destruct (play_sound_no_wait s frequency duration fill loop voice volume)
      as [s1| |] eqn:E; cbn; try discriminate.
    intros Hw. apply wait_music_spec in Hw as (k & Hk & -> & Hf & Hb).
    exists s1, k. split_and!; try done.
    + by apply music_waiting_false.
    + intros j Hj. split; [by apply Hb|].
      apply music_waiting_true. by apply Hb.
  - intros (s1 & k & -> & Hk & -> & Hf & Hb). cbn.
    apply wait_music_spec. exists k. split_and!; try done.
    + by apply music_waiting_false.
    + intros j Hj. by apply Hb.
Qed.

End tone_engine.

(** ** The PLAY interpreter *)

Section play.
Context `{Float} `{!Scheduler} `{!MLParser}.

Lemma set_gmls_twice (l : Locals) (voice : nat) (g g' : StringIO) :
  set_gmls (set_gmls l voice g) voice g' = set_gmls l voice g'.
Proof. unfold set_gmls. cbn. by rewrite list_insert_insert_eq. Qed.

Lemma wait_play_state (s : Sound) : play_state (wait s) = play_state s.
Proof. unfold wait. by destruct (events_wait (events s) (tone_queue s)). Qed.

Lemma wait_music_play_state (fuel : nat) :
  ∀ (s s' : Sound) w, wait_music fuel s w = Ok s' → play_state s' = play_state s.
Proof.
  induction fuel as [|fuel IH]; intros s s' w; cbn [wait_music];
    destruct (music_waiting s w) as [[]| |]; cbn; try discriminate;
    try (by intros [= <-]).
  intros Hw. apply IH in Hw. by rewrite Hw, wait_play_state.
Qed.

Lemma play_sound_no_wait_play_state (s s' : Sound) frequency duration fill loop voice volume :
  play_sound_no_wait s frequency duration fill loop voice volume = Ok s' →
  play_state s' = play_state s.
Proof.
  unfold play_sound_no_wait.
  destruct (index (tone_queue s) voice) as [q| |]; cbn; try discriminate.
  match goal with |- context [if ?b then _ else _] => destruct b end.
  2:{ by intros [= <-]. }
  match goal with |- context [setitem ?l 3 ?x] => destruct (setitem l 3 x) as [nf| |] end;
    cbn; try discriminate.
  match goal with |- context [setitem ?l 7 ?x] => destruct (setitem l 7 x) as [nf'| |] end;
    cbn; try discriminate.
  by intros [= <-].
Qed.

Lemma play_sound_play_state (fuel : nat) (s s' : Sound) frequency duration fill loop voice volume :
  play_sound fuel s frequency duration fill loop voice volume = Ok s' →
  play_state s' = play_state s.
Proof.
  unfold play_sound.
  destruct (play_sound_no_wait s frequency duration fill loop voice volume)
    as [s1| |] eqn:E; cbn; try discriminate.
  intros Hw. apply wait_music_play_state in Hw.
  apply play_sound_no_wait_play_state in E. congruence.
Qed.

(** C10.  A command [N<k>] with [k > 84] raises nothing, leaves the
    sound object (its queues included) and the accumulated times as
    they are, keeps the voice in the active set and leaves the cursor
    after the number and the dot that may follow it. *)
Theorem note_number_above_84_is_skipped (fuel : nat) (s : Sound) (l : Locals)
    (voice : nat) (vstate : PlayState) (g g1 g2 g3 : StringIO) (c c2 : string)
    (k : Z) :
  play_state s !! voice = Some vstate →
  gmls_list l !! voice = Some g →
  skip_read g = (c, g1) →
  upper c = "N" →
  ml_parse_number g1 = Ok (k, g2) →
  84 < k →
  skip g2 = (c2, g3) →
  ∃ l', play_voice fuel s l voice = Ok (s, l')
    ∧ total_time l' = total_time l
    ∧ voices l' = voices l
    ∧ next_oct l' = next_oct l
    ∧ gmls_list l' =
        <[voice:=if String.eqb (upper c2) "." then read1 g3 else g3]> (gmls_list l).
Proof.
  intros Hv Hg Hsr Hc Hk Hgt Hs.
  unfold play_voice.
  rewrite (index_Some _ _ _ Hv), (index_Some _ _ _ Hg). cbn [mbind result_bind].
  rewrite Hsr, Hc. cbn [String.eqb Ascii.eqb Bool.eqb].
  rewrite Hk. cbn [mbind result_bind]. rewrite Hs.
  assert (E1 : (0 <? k) && (k <=? 84) = false).
  { apply andb_false_iff. right. apply Z.leb_gt. lia. }
  assert (E2 : (k =? 0) = false) by (apply Z.eqb_neq; lia).
  destruct (String.eqb (upper c2) "."); rewrite E1, E2;
    eexists; (split; [reflexivity|]); cbn;
    by rewrite list_insert_insert_eq.
Qed.

Lemma add_time_next_oct (l l' : Locals) (voice : nat) (d : F) :
  add_time l voice d = Ok l' → next_oct l' = next_oct l.
Proof.
  unfold add_time. destruct (index (total_time l) voice); cbn; try discriminate.
  by intros [= <-].
Qed.



End play.

Import Ref.

(** C3 (as stated) fails.  Voice 1 holds twenty events and the back end
    takes one event per wait.  A beep on voice 0 leaves the adjusted
    length of voice 0 at 0 right after it is queued (voice 1 is at 19),
    yet the call does not return within three waits: it returns after
    the fourth, when voice 1 is down to 15. *)
Lemma play_sound_waits_for_other_voice :
  (s1 ← play_sound_no_wait Ref.busy (fz 800) (fz 1 / fz 4)%fl (fz 1) false 0 15;
   l0 ← queue_length s1 0; l1 ← queue_length s1 1; mret (l0, l1))
  = Ok (0, 19)
  ∧ hangs (play_sound 3 Ref.busy (fz 800) (fz 1 / fz 4)%fl (fz 1) false 0 15) = true
  ∧ (s' ← play_sound 4 Ref.busy (fz 800) (fz 1 / fz 4)%fl (fz 1) false 0 15;
     l1 ← queue_length s' 1; mret (Ref.ticks s', l1))
    = Ok (4%nat, 15).
Proof. split_and!; (vm_compute; reflexivity). Qed.


(** C2, evaluated on [PLAY "C", "", "DE"].  The first pass takes [C]
    from voice 0, removes the exhausted voice 1 and then ends: the
    iterator's index is past the shortened list, so voice 2, still
    active, is not visited.  The second pass removes voice 0 and again
    does not reach voice 2, whose cursor is still at 0. *)
Theorem pass_skips_voice_after_removal :
  (r1 ← play_pass 10 (Ref.sound0 "tandy") (play_init ["C"; ""; "DE"]);
   mret (voices r1.2, gmls_list r1.2))
  = Ok ([0; 2]%nat,
        [{| buf := "C"; pos := 1 |}; {| buf := ""; pos := 0 |};
         {| buf := "DE"; pos := 0 |}])
  ∧ (r1 ← play_pass 10 (Ref.sound0 "tandy") (play_init ["C"; ""; "DE"]);
     r2 ← play_pass 10 r1.1 r1.2;
     mret (voices r2.2, gmls_list r2.2))
    = Ok ([2]%nat,
          [{| buf := "C"; pos := 1 |}; {| buf := ""; pos := 0 |};
           {| buf := "DE"; pos := 0 |}]).
Proof. split_and!; (vm_compute; reflexivity). Qed.

(** An instance of C4: three beeps on the empty voice 0. *)
Lemma queue_length_after_enqueue_witness :
  let s := Ref.sound0 "" in
  let tones := replicate 3 (fz 800, (fz 1 / fz 4)%fl, fz 1, false, 15) in
  tone_queue s !! 0%nat = Some empty_queue
  ∧ List.length (noise_freq s) = 8%nat
  ∧ items empty_queue = []
  ∧ ∃ s', enqueue s 0 tones = Ok s' ∧ queue_length s' 0 = Ok 2.
Proof.
  intros s tones.
  split; [reflexivity|]. split; [reflexivity|]. split; [reflexivity|].
  destruct (queue_length_after_enqueue s 0 empty_queue tones eq_refl eq_refl)
    as [_ Hq].
  destruct (Hq eq_refl) as (s' & He & Hl & _).
  exists s'. split; [exact He | exact Hl].
Defined.

(** An instance of C10: [N85] ahead of a note. *)
Lemma note_number_above_84_is_skipped_witness :
  let s := Ref.sound0 "" in
  let l := play_init ["N85C"; ""; ""] in
  play_state s !! 0%nat = Some PlayState_init
  ∧ gmls_list l !! 0%nat = Some (StringIO_of "N85C")
  ∧ skip_read (StringIO_of "N85C") = ("N", {| buf := "N85C"; pos := 1 |})
  ∧ upper "N" = "N"
  ∧ ml_parse_number {| buf := "N85C"; pos := 1 |}
    = Ok (85, {| buf := "N85C"; pos := 3 |})
  ∧ 84 < 85
  ∧ skip {| buf := "N85C"; pos := 3 |} = ("C", {| buf := "N85C"; pos := 3 |})
  ∧ ∃ l', play_voice 5 s l 0 = Ok (s, l')
      ∧ total_time l' = total_time l
      ∧ voices l' = voices l
      ∧ next_oct l' = next_oct l
      ∧ gmls_list l' =
          <[0%nat:=if String.eqb (upper "C") "."
                   then read1 {| buf := "N85C"; pos := 3 |}
                   else {| buf := "N85C"; pos := 3 |}]> (gmls_list l).
Proof.
  intros s l. repeat (split; [reflexivity|]).
  exact (note_number_above_84_is_skipped 5 s l 0 PlayState_init
           (StringIO_of "N85C") {| buf := "N85C"; pos := 1 |}
           {| buf := "N85C"; pos := 3 |} {| buf := "N85C"; pos := 3 |}
           "N" "C" 85 eq_refl eq_refl eq_refl eq_refl eq_refl eq_refl eq_refl).
Defined.


End sound_spec.

(** ** The memory model *)

Module machine_spec.
Import machine.

Section memory.
Context `{Machine}.

Lemma chr_not_RunError (v : Z) (code : basic_error) : chr v ≠ Raise (RunError code).
Proof. unfold chr. by destruct ((0 <=? v) && (v <? 256)). Qed.

Lemma _set_font_memory_not_RunError (addr val : Z) (m : Memory) (code : basic_error) :
  (_set_font_memory addr val m).1 ≠ Raise (RunError code).
Proof.
  unfold _set_font_memory, dict_get, chr.
  repeat case_match; cbn; congruence.
Qed.

Lemma _set_low_memory_not_RunError (m : Memory) (addr val : Z) (code : basic_error) :
  _set_low_memory m addr val ≠ Raise (RunError code).
Proof.
  unfold _set_low_memory, chr.
  repeat case_match; cbn; try congruence; discriminate.
Qed.

(** The region setters raise no BASIC error; what they can raise are
    Python's own exceptions from a font table without the glyph. *)
Lemma _set_memory_not_RunError (addr val : Z) (m : Memory) (code : basic_error) :
  (_set_memory addr val m).1 ≠ Raise (RunError code).
Proof.
  unfold _set_memory.
  destruct (rom_segment * 16 <=? addr); [cbn; congruence|].
  destruct (ram_font_segment * 16 <=? addr); [apply _set_font_memory_not_RunError|].
  destruct (video_segment * 16 <=? addr); [cbn; congruence|].
  destruct (data_segment (data m) * 16 <=? addr); [cbn; congruence|].
  destruct (0 <=? addr); [|cbn; congruence].
  pose proof (_set_low_memory_not_RunError m addr val code).
  destruct (_set_low_memory m addr val); cbn; congruence.
Qed.

(** *** What the statements can raise once the test is passed

    Behind the protection test the two files raise no illegal function
    call of their own: what is left are Python's exceptions and the
    out-of-range error of the value check, and whatever the value
    conversion, the keypad number and the file layer raise. *)

Lemma getitem_not_RunError {A} (l : list A) (i : Z) (code : basic_error) :
  getitem l i ≠ Raise (RunError code).
Proof. unfold getitem. repeat case_match; congruence. Qed.

Lemma glyph_byte_not_RunError (m : Memory) (char k : Z) (code : basic_error) :
  glyph_byte m char k ≠ Raise (RunError code).
Proof.
  unfold glyph_byte, dict_get.
  pose proof (chr_not_RunError char code).
  destruct (chr char) as [c| |]; cbn [mbind result_bind]; try congruence.
  destruct (fontdict m !! to_unicode c [0]); cbn [mbind result_bind];
    [apply getitem_not_RunError|congruence].
Qed.

Lemma has_stream_not_RunError (m : Memory) (nm : string) (code : basic_error) :
  has_stream m nm ≠ Raise (RunError code).
Proof. unfold has_stream, dict_get. by destruct (devices m !! nm). Qed.

Lemma _get_low_memory_not_IFC (m : Memory) (addr : Z) :
  keypad_int (keypad_ascii (keyboard m)) ≠ Raise (RunError IFC) →
  _get_low_memory m addr ≠ Raise (RunError IFC).
Proof.
  intros Hk. unfold _get_low_memory.
  repeat match goal with
  | |- context [has_stream m ?nm] =>
      pose proof (has_stream_not_RunError m nm IFC);
      destruct (has_stream m nm); cbn [mbind result_bind]; try congruence
  | |- (if ?b then _ else _) ≠ _ => destruct b
  | |- (let '(_, _) := ?x in _) ≠ _ => destruct x
  | |- mbind _ (if ?b then _ else _) ≠ _ => destruct b
  | |- mbind _ (keypad_int ?k) ≠ _ =>
      destruct (keypad_int k); cbn [mbind result_bind]; try congruence
  | |- mbind _ (Ok _) ≠ _ => cbn [mbind result_bind]
  | |- match ?x with _ => _ end ≠ _ => destruct x
  end; try (cbn; congruence); try discriminate.
Qed.

Lemma _get_memory_not_IFC (m : Memory) (addr : Z) :
  keypad_int (keypad_ascii (keyboard m)) ≠ Raise (RunError IFC) →
  _get_memory m addr ≠ Raise (RunError IFC).
Proof.
  intros Hk. unfold _get_memory, clamp, _get_rom_memory, _get_font_memory,
    _get_video_memory.
  destruct (_peek_values m !! addr); [done|].
  destruct (rom_segment * 16 <=? addr).
  { destruct (_ || _); [done|].
    pose proof (glyph_byte_not_RunError m
      ((addr - (rom_segment * 16 + rom_font_addr)) / 8)
      ((addr - (rom_segment * 16 + rom_font_addr)) mod 8) IFC).
    by destruct (glyph_byte m _ _). }
  destruct (ram_font_segment * 16 <=? addr).
  { destruct (_ || _); [done|].
    pose proof (glyph_byte_not_RunError m
      ((addr - (ram_font_segment * 16 + ram_font_addr)) / 8 + 128)
      ((addr - (ram_font_segment * 16 + ram_font_addr)) mod 8) IFC).
    by destruct (glyph_byte m _ _). }
  destruct (video_segment * 16 <=? addr).
  { pose proof (getitem_not_RunError (mode_get_memory (mode (screen m)) addr 1) 0 IFC).
    by destruct (getitem _ _). }
  destruct (data_segment (data m) * 16 <=? addr); [done|].
  destruct (0 <=? addr); [|done].
  pose proof (_get_low_memory_not_IFC m addr Hk).
  by destruct (_get_low_memory m addr).
Qed.

Lemma bytearray_not_RunError (l : list Z) (code : basic_error) :
  bytearray l ≠ Raise (RunError code).
Proof.
  induction l as [|v l IH]; cbn [bytearray]; [done|].
  pose proof (chr_not_RunError v code).
  destruct (chr v); cbn [mbind result_bind]; try congruence.
  by destruct (bytearray l).
Qed.

Lemma get_bytes_not_IFC (m : Memory) (addrs : list Z) :
  keypad_int (keypad_ascii (keyboard m)) ≠ Raise (RunError IFC) →
  get_bytes m addrs ≠ Raise (RunError IFC).
Proof.
  intros Hk. induction addrs as [|a addrs IH]; cbn [get_bytes]; [done|].
  pose proof (_get_memory_not_IFC m a Hk).
  destruct (_get_memory m a) as [v| |]; cbn [mbind result_bind]; try congruence.
  pose proof (chr_not_RunError (Z.max 0 v) IFC).
  destruct (chr (Z.max 0 v)); cbn [mbind result_bind]; try congruence.
  by destruct (get_bytes m addrs).
Qed.

Lemma _get_memory_block_not_IFC (m : Memory) (addr length : Z) :
  keypad_int (keypad_ascii (keyboard m)) ≠ Raise (RunError IFC) →
  _get_memory_block m addr length ≠ Raise (RunError IFC).
Proof.
  intros Hk. unfold _get_memory_block, _get_video_memory_block.
  destruct (video_segment * 16 <=? addr).
  - match goal with |- context [bytearray ?l] =>
      pose proof (bytearray_not_RunError l IFC); destruct (bytearray l)
    end; cbn [mbind result_bind mret result_ret]; try congruence.
    match goal with |- context [get_bytes m ?l] =>
      pose proof (get_bytes_not_IFC m l Hk); destruct (get_bytes m l)
    end; cbn [mbind result_bind]; first [congruence | discriminate].
  - cbn [mbind result_bind mret result_ret].
    match goal with |- context [get_bytes m ?l] =>
      pose proof (get_bytes_not_IFC m l Hk); destruct (get_bytes m l)
    end; cbn [mbind result_bind]; first [congruence | discriminate].
Qed.

Lemma set_bytes_not_RunError (buf : list Z) (code : basic_error) :
  ∀ (addr : Z) (m : Memory), (set_bytes addr buf m).1 ≠ Raise (RunError code).
Proof.
  induction buf as [|b buf IH]; intros addr m; cbn [set_bytes]; [done|].
  unfold mbind, M_bind.
  pose proof (_set_memory_not_RunError addr b m code).
  destruct (_set_memory addr b m) as [[[]| |] m1]; cbn [fst] in *;
    [apply IH|congruence|done].
Qed.

Lemma _set_memory_block_not_RunError (addr : Z) (buf : list Z) (m : Memory)
    (code : basic_error) :
  (_set_memory_block addr buf m).1 ≠ Raise (RunError code).
Proof.
  unfold _set_memory_block.
  destruct (video_segment * 16 <=? addr); [|apply set_bytes_not_RunError].
  unfold mbind, M_bind, modify. apply set_bytes_not_RunError.
Qed.

Lemma pack_H_not_RunError (x : Z) (code : basic_error) :
  pack_H x ≠ Raise (RunError code).
Proof. unfold pack_H. by destruct (_ && _). Qed.

(** POKE converts its address before the protection test: an address
    that does not convert raises its own error, protected or not. *)
Lemma poke_converts_address_first (m : Memory) (pk : Value * Value) (e : exn) :
  to_int true pk.1 = Raise e → poke_ pk m = (Raise e, m).
Proof.
  intros Ha. unfold poke_, mbind, M_bind, lift. by rewrite Ha.
Qed.

(** C5, as amended.  When the program is protected and the interpreter
    is not in run mode, [peek_], [bload_] and [bsave_] raise the illegal
    function call before anything else, and leave memory as it is;
    [poke_] converts its address first, raises the illegal function call
    once the address has converted, and the error of the conversion
    otherwise.  When the condition does not hold the test is passed
    over: each does what its remaining statements do, and none raises
    an illegal function call unless the value conversion, the keypad
    number or the file layer raises one. *)
Theorem protection_check (m : Memory) (a : Value) (pk : Value * Value)
    (bl : Value * option Value) (bs : Value * Value * Value) :
  (protected (data m) = true ∧ run_mode m = false →
     peek_ m a = Raise (RunError IFC)
     ∧ bload_ bl m = (Raise (RunError IFC), m)
     ∧ bsave_ bs m = (Raise (RunError IFC), m)
     ∧ (∀ n, to_int true pk.1 = Ok n → poke_ pk m = (Raise (RunError IFC), m))
     ∧ (∀ e, to_int true pk.1 = Raise e → poke_ pk m = (Raise e, m)))
  ∧ (¬ (protected (data m) = true ∧ run_mode m = false) →
     (peek_ m a = peek_unlocked m a
      ∧ (∀ n, to_int true pk.1 = Ok n → poke_ pk m = poke_unlocked n pk.2 m)
      ∧ bload_ bl m = bload_unlocked bl m
      ∧ bsave_ bs m = bsave_unlocked bs m)
     ∧ ((∀ u v, to_int u v ≠ Raise (RunError IFC)) →
        keypad_int (keypad_ascii (keyboard m)) ≠ Raise (RunError IFC) →
        open_I (files m) bl.1 ≠ Raise (RunError IFC) →
        (∀ o l, open_O (files m) bs.1.1 (segment m) o l ≠ Raise (RunError IFC)) →
        peek_ m a ≠ Raise (RunError IFC)
        ∧ (poke_ pk m).1 ≠ Raise (RunError IFC)
        ∧ (bload_ bl m).1 ≠ Raise (RunError IFC)
        ∧ (bsave_ bs m).1 ≠ Raise (RunError IFC))).
Proof.
  split.
  - intros [Hp Hr].
    assert (Hl : locked m = true) by (unfold locked; by rewrite Hp, Hr).
    split_and!.
    + unfold peek_. by rewrite Hl.
    + unfold bload_, mbind, M_bind, get, raise. by rewrite Hl.
    + unfold bsave_, mbind, M_bind, get, raise. by rewrite Hl.
    + intros n Ha. unfold poke_, mbind, M_bind, lift, get, raise. by rewrite Ha, Hl.
    + intros e. apply poke_converts_address_first.
  - intros Hn.
    assert (Hl : locked m = false).
    { unfold locked. destruct (protected (data m)), (run_mode m); try done.
      destruct Hn. done. }
    split.
    { split_and!.
      - unfold peek_. by rewrite Hl.
      - intros n Ha. unfold poke_, mbind, M_bind, lift, get, raise. by rewrite Ha, Hl.
      - unfold bload_, mbind, M_bind, get, raise. by rewrite Hl.
      - unfold bsave_, mbind, M_bind, get, raise. by rewrite Hl. }
    intros Hint Hkey Hin Hout. split_and!.
    + unfold peek_, peek_unlocked. rewrite Hl.
      pose proof (Hint true a).
      destruct (to_int true a) as [addr| |]; cbn [mbind result_bind]; try congruence.
      by apply _get_memory_not_IFC.
    + unfold poke_, poke_unlocked, mbind, M_bind, lift, get, raise, range_check.
      pose proof (Hint true pk.1).
      destruct (to_int true pk.1) as [addr| |]; cbn [fst]; try congruence.
      rewrite Hl.
      pose proof (Hint false pk.2).
      destruct (to_int false pk.2) as [v| |]; cbn [fst]; try congruence.
      destruct (_ || _); cbn [fst]; [congruence|].
      apply _set_memory_not_RunError.
    + unfold bload_, bload_unlocked, mbind, M_bind, lift, get, raise. rewrite Hl.
      destruct bl.2 as [v|];
        [pose proof (Hint true v); destruct (to_int true v)|];
        cbn [result_bind mret result_ret fst]; try congruence;
        (destruct (open_I (files m) bl.1) as [[[seg g_offset] content]| |];
           cbn [fst]; try congruence);
        pose proof (bytearray_not_RunError content IFC);
        (destruct (bytearray content); cbn [fst]; try congruence);
        apply _set_memory_block_not_RunError.
    + unfold bsave_, bsave_unlocked, mbind, M_bind, lift, get, raise. rewrite Hl.
      destruct bs as [[nm off] len]. cbn [fst snd] in *.
      pose proof (Hint true off).
      destruct (to_int true off) as [o| |]; cbn [fst]; try congruence.
      pose proof (Hint true len).
      destruct (to_int true len) as [l| |]; cbn [fst]; try congruence.
      pose proof (Hout o l).
      destruct (open_O (files m) nm (segment m) o l) as [g| |]; cbn [fst];
        try congruence.
      unfold bsave_write.
      pose proof (_get_memory_block_not_IFC m (segment m * 16 + o) l Hkey).
      destruct (_get_memory_block m (segment m * 16 + o) l) as [block| |];
        cbn [fst]; try congruence.
      destruct (tandy_syntax m); cbn [fst]; [|done].
      pose proof (pack_H_not_RunError (segment m) IFC).
      destruct (pack_H (segment m)); cbn [mbind result_bind fst]; try congruence.
      pose proof (pack_H_not_RunError o IFC).
      destruct (pack_H o); cbn [mbind result_bind fst]; try congruence.
      pose proof (pack_H_not_RunError l IFC).
      destruct (pack_H l); cbn [mbind result_bind fst];
        first [congruence | discriminate].
Qed.

(** C6.  Once the protection test is passed, [poke_] fails with the
    out-of-range error exactly when the value is outside 0..255,
    whatever the address, and then memory is as it was. *)
Theorem poke_range_check (m : Memory) (pk : Value * Value) (a v : Z) :
  to_int true pk.1 = Ok a →
  locked m = false →
  to_int false pk.2 = Ok v →
  ((poke_ pk m).1 = Raise (RunError OUT_OF_RANGE) ↔ v < 0 ∨ 255 < v)
  ∧ (v < 0 ∨ 255 < v → poke_ pk m = (Raise (RunError OUT_OF_RANGE), m)).
Proof.
  intros Ha Hl Hv.
  assert (Hfail : v < 0 ∨ 255 < v → poke_ pk m = (Raise (RunError OUT_OF_RANGE), m)).
  { intros Hout.
    unfold poke_, poke_unlocked, mbind, M_bind, lift, get, raise, range_check.
    rewrite Ha, Hl, Hv.
    assert ((v <? 0) || (255 <? v) = true) as ->; [|done].
    apply orb_true_iff. rewrite Z.ltb_lt, Z.ltb_lt. done. }
  split; [|done]. split.
  - intros Hr.
    destruct (Z.ltb_spec v 0) as [|Hlo]; [by left|].
    destruct (Z.ltb_spec 255 v) as [|Hhi]; [by right|].
    exfalso. revert Hr.
    unfold poke_, poke_unlocked, mbind, M_bind, lift, get, raise, range_check.
    rewrite Ha, Hl, Hv.
    assert ((v <? 0) || (255 <? v) = false) as ->.
    { apply orb_false_iff. rewrite Z.ltb_ge, Z.ltb_ge. lia. }
    match goal with |- context [_set_memory ?x ?y ?z] =>
      pose proof (_set_memory_not_RunError x y z OUT_OF_RANGE) as Hs;
      destruct (_set_memory x y z) as [[[]| |] m'] end; cbn in *; congruence.
  - intros Hout. by rewrite (Hfail Hout).
Qed.

(** An address without a branch falls through to the closing [return -1]. *)
Lemma _get_low_memory_unmapped (m : Memory) (addr : Z) :
  low_memory_mapped addr = false → _get_low_memory m addr = Ok (-1).
Proof.
  unfold low_memory_mapped. rewrite !orb_false_iff, !andb_false_iff.
  rewrite !Z.leb_gt, !Z.ltb_ge, !Z.eqb_neq.
  intros Hun. unfold _get_low_memory, in_range, key_buffer_offset.
  rewrite Z.sub_0_r.
  repeat match goal with
  | |- context [?x =? ?k] =>
      destruct (Z.eqb_spec x k); [exfalso; lia|]
  end.
  repeat match goal with
  | |- context [?a <=? ?b] => destruct (Z.leb_spec a b)
  | |- context [?a <? ?b] => destruct (Z.ltb_spec a b)
  end; cbn [andb]; try reflexivity; exfalso; lia.
Qed.

(** C7.  Below the data segment (itself below the video segment) and
    with no preset value, an address that [_get_low_memory] has no
    branch for gives -1 there, 0 from the dispatcher, and 0 from PEEK. *)
Theorem peek_unmapped_low_memory (m : Memory) (a : Value) (off : Z) :
  locked m = false →
  to_int true a = Ok off →
  data_segment (data m) ≤ video_segment →
  off + segment m * 0x10 < data_segment (data m) * 0x10 →
  _peek_values m !! (off + segment m * 0x10) = None →
  low_memory_mapped (off + segment m * 0x10) = false →
  _get_low_memory m (off + segment m * 0x10) = Ok (-1)
  ∧ _get_memory m (off + segment m * 0x10) = Ok 0
  ∧ peek_ m a = Ok 0.
Proof.
  intros Hl Ha Hseg Hlow Hpv Hun.
  pose proof (_get_low_memory_unmapped m _ Hun) as Hlm.
  assert (Hgm : _get_memory m (off + segment m * 0x10) = Ok 0).
  { unfold _get_memory. rewrite Hpv.
    unfold rom_segment, ram_font_segment, video_segment in *.
    destruct (Z.leb_spec (0xf000 * 16) (off + segment m * 16)); [lia|].
    destruct (Z.leb_spec (0xc000 * 16) (off + segment m * 16)); [lia|].
    destruct (Z.leb_spec (0xa000 * 16) (off + segment m * 16)); [lia|].
    destruct (Z.leb_spec (data_segment (data m) * 16) (off + segment m * 16)); [lia|].
    destruct (0 <=? off + segment m * 16); [|done].
    by rewrite Hlm. }
  split_and!; [done..|].
  unfold peek_, peek_unlocked. rewrite Hl, Ha. cbn [mbind result_bind]. done.
Qed.

(** C8.  Once the protection test is passed, a POKE of a byte to an
    address at or above the ROM segment raises nothing and returns the
    memory object it was given: every later read finds what it found
    before. *)
Theorem poke_rom_is_ignored (m : Memory) (pk : Value * Value) (a v : Z) :
  to_int true pk.1 = Ok a →
  locked m = false →
  to_int false pk.2 = Ok v →
  0 ≤ v ≤ 255 →
  rom_segment * 0x10 ≤ (if a <? 0 then a + 0x10000 else a) + segment m * 0x10 →
  poke_ pk m = (Ok (), m)
  ∧ (∀ addr, _get_memory (poke_ pk m).2 addr = _get_memory m addr)
  ∧ (∀ x, peek_ (poke_ pk m).2 x = peek_ m x).
Proof.
  intros Ha Hl Hv Hr Hrom.
  assert (Hp : poke_ pk m = (Ok (), m)).
  { unfold poke_, poke_unlocked, mbind, M_bind, lift, get, raise, range_check.
    rewrite Ha, Hl, Hv.
    assert ((v <? 0) || (255 <? v) = false) as ->.
    { apply orb_false_iff. rewrite Z.ltb_ge, Z.ltb_ge. lia. }
    unfold _set_memory.
    destruct (Z.leb_spec (rom_segment * 16)
                ((if a <? 0 then a + 65536 else a) + segment m * 16)); [done|lia]. }
  rewrite Hp. done.
Qed.

End memory.

(** ** The machine ports *)

Lemma land_ff (x : Z) : Z.land x 0xff = x mod 256.
Proof. change 0xff with (Z.ones 8). by rewrite Z.land_ones. Qed.

Lemma land_ff00 (x : Z) : 0 ≤ x < 65536 → Z.land x 0xff00 = 256 * (x / 256).
Proof.
  intros Hx. change 0xff00 with (Z.ldiff (Z.ones 16) (Z.ones 8)).
  assert (E : Z.land x (Z.ldiff (Z.ones 16) (Z.ones 8))
              = Z.ldiff (Z.land x (Z.ones 16)) (Z.ones 8)).
  { apply Z.bits_inj'. intros k Hk.
    rewrite Z.land_spec, !Z.ldiff_spec, Z.land_spec. by rewrite andb_assoc. }
  rewrite E, Z.land_ones by lia.
  change (2 ^ 16) with 65536. rewrite Z.mod_small by lia.
  rewrite Z.ldiff_ones_r by lia.
  rewrite Z.shiftl_mul_pow2, Z.shiftr_div_pow2 by lia.
  change (2 ^ 8) with 256. lia.
Qed.

Section ports.
Context `{PortDevices}.

(** An address that is none of the registers of a serial port leaves
    the ports as they are when that port's turn comes in the loop. *)
Lemma out_com_other (addr val : Z) (p : MachinePorts) (base_addr : Z) (nr : nat) :
  (nr < List.length (com_device p))%nat →
  (nr < List.length (com_enable_baud_write p))%nat →
  addr ≠ base_addr → addr ≠ base_addr + 1 →
  addr ≠ base_addr + 3 → addr ≠ base_addr + 4 →
  out_com addr val p (base_addr, nr) = Ok p.
Proof.
  intros Hd He H0' H1' H3' H4'. unfold out_com.
  destruct (lookup_lt_is_Some_2 _ _ Hd) as [dev Edev].
  destruct (lookup_lt_is_Some_2 _ _ He) as [en Een].
  rewrite (sound_spec.index_Some _ _ _ Edev). cbn [mbind result_bind].
  destruct dev as [stream|]; [|done].
  rewrite (sound_spec.index_Some _ _ _ Een). cbn [mbind result_bind].
  destruct (Z.eqb_spec addr base_addr); [done|].
  destruct (Z.eqb_spec addr (base_addr + 1)); [done|].
  destruct (Z.eqb_spec addr (base_addr + 3)); [done|].
  destruct (Z.eqb_spec addr (base_addr + 4)); [done|].
  done.
Qed.

(** A write to the base address or the one after it, at the turn of the
    port it belongs to. *)
Lemma out_com_baud (val : Z) (p : MachinePorts) (base_addr : Z) (nr : nat)
    (stream : Serial) (enable hi : bool) (old : Z) :
  com_device p !! nr = Some (Some stream) →
  com_enable_baud_write p !! nr = Some enable →
  com_baud_divisor p !! nr = Some old →
  let addr := if hi then base_addr + 1 else base_addr in
  let divisor := if hi then val * 0x100 + Z.land old 0xff
                 else Z.land old 0xff00 + val in
  out_com addr val p (base_addr, nr)
  = Ok (if enable then
          let p' := set_com_baud_divisor p (<[nr:=divisor]> (com_baud_divisor p)) in
          if divisor =? 0 then p'
          else set_com_device p'
                 (<[nr:=Some (set_params stream (115200 / divisor)
                                (get_params stream).1.1.2
                                (get_params stream).1.2
                                (get_params stream).2)]> (com_device p))
        else p).
Proof.
  intros Hd He Ho addr divisor. unfold out_com.
  rewrite (sound_spec.index_Some _ _ _ Hd). cbn [mbind result_bind].
  rewrite (sound_spec.index_Some _ _ _ He). cbn [mbind result_bind].
  assert (Haddr : (addr =? base_addr) || (addr =? base_addr + 1) = true).
  { subst addr. destruct hi; rewrite Z.eqb_refl; [by rewrite orb_true_r|done]. }
  rewrite Haddr. destruct enable; cbn [andb].
  - rewrite (sound_spec.index_Some _ _ _ Ho). cbn [mbind result_bind].
    assert (Hdiv : (if addr =? base_addr then Z.land old 0xff00 + val
                    else if addr =? base_addr + 1 then val * 0x100 + Z.land old 0xff
                    else old) = divisor).
    { subst addr divisor. destruct hi.
      - destruct (Z.eqb_spec (base_addr + 1) base_addr); [lia|].
        by rewrite Z.eqb_refl.
      - by rewrite Z.eqb_refl. }
    rewrite Hdiv. destruct (divisor =? 0); cbn [negb]; [done|].
    by destruct (get_params stream) as [[[baud parity] bytesize] stopbits].
  - subst addr. destruct hi.
    + destruct (Z.eqb_spec (base_addr + 1) (base_addr + 3)); [lia|].
      destruct (Z.eqb_spec (base_addr + 1) (base_addr + 4)); [lia|]. done.
    + destruct (Z.eqb_spec base_addr (base_addr + 3)); [lia|].
      destruct (Z.eqb_spec base_addr (base_addr + 4)); [lia|]. done.
Qed.

(** C9.  On ports as [__init__] lays them out, with a stream attached to
    the serial port [nr]: a write of a byte to the port's base address
    ([hi = false]) or the next one ([hi = true]) changes nothing while
    baud-write-enable is not latched; once it is, the low or the high
    byte of the divisor is replaced and, when the new divisor is not
    zero, the stream's parameters are set to baud rate
    [115200 / divisor] with parity, byte size and stop bits as the
    stream reported them.  Nothing else changes. *)
Theorem baud_divisor_write (stick : Stick) (scr : PortScreen)
    (lpt : list (option Parallel)) (d0 d1 : option Serial) (e0 e1 : bool)
    (v0 v1 : Z) (b0 b1 : bool) (nr : nat) (stream : Serial) (enable hi : bool)
    (old val : Z) :
  let p := {| session_stick := stick; session_screen := scr; lpt_device := lpt;
              com_base := [(0x3f8, 0%nat); (0x2f8, 1%nat)];
              com_device := [d0; d1]; com_enable_baud_write := [e0; e1];
              com_baud_divisor := [v0; v1]; com_break := [b0; b1] |} in
  let base := if Nat.eqb nr 0 then 0x3f8 else 0x2f8 in
  let addr := if hi then base + 1 else base in
  let divisor := if hi then val * 0x100 + Z.land old 0xff
                 else Z.land old 0xff00 + val in
  com_device p !! nr = Some (Some stream) →
  com_enable_baud_write p !! nr = Some enable →
  com_baud_divisor p !! nr = Some old →
  0 ≤ old < 65536 →
  0 ≤ val ≤ 255 →
  (enable = false → out_ p addr val = Ok p)
  ∧ (enable = true →
     ∃ p', out_ p addr val = Ok p'
       ∧ com_baud_divisor p' = <[nr:=divisor]> (com_baud_divisor p)
       ∧ 0 ≤ divisor < 65536
       ∧ (if hi then divisor / 256 = val ∧ divisor mod 256 = old mod 256
          else divisor mod 256 = val ∧ divisor / 256 = old / 256)
       ∧ com_device p' =
           <[nr:=Some (if divisor =? 0 then stream
                       else set_params stream (115200 / divisor)
                              (get_params stream).1.1.2
                              (get_params stream).1.2
                              (get_params stream).2)]> (com_device p)
       ∧ com_enable_baud_write p' = com_enable_baud_write p
       ∧ com_break p' = com_break p
       ∧ com_base p' = com_base p
       ∧ lpt_device p' = lpt_device p
       ∧ session_stick p' = session_stick p
       ∧ session_screen p' = session_screen p).
Proof.
  intros p base addr divisor Hd He Ho Hold Hval.
  assert (Hnr : nr = 0%nat ∨ nr = 1%nat).
  { apply lookup_lt_Some in Hd. cbn in Hd. lia. }
  assert (Hbase : base = 0x3f8 ∨ base = 0x2f8).
  { subst base. destruct Hnr as [-> | ->]; cbn; tauto. }
  assert (Hbytes : 0 ≤ divisor < 65536
                   ∧ (if hi then divisor / 256 = val ∧ divisor mod 256 = old mod 256
                      else divisor mod 256 = val ∧ divisor / 256 = old / 256)).
  { subst divisor. destruct hi.
    - rewrite land_ff.
      pose proof (Z.mod_pos_bound old 256 ltac:(lia)).
      split; [lia|]. split.
      + rewrite Z.add_comm, Z.div_add by lia. rewrite Z.div_small by lia. lia.
      + rewrite Z.add_comm, Z.mod_add by lia. by rewrite Z.mod_mod.
    - rewrite land_ff00 by done.
      pose proof (Z.div_pos old 256 ltac:(lia) ltac:(lia)).
      assert (old / 256 < 256) by (apply Z.div_lt_upper_bound; lia).
      split; [lia|]. split.
      + rewrite Z.add_comm, Z.mul_comm, Z.mod_add by lia. apply Z.mod_small. lia.
      + rewrite Z.add_comm, Z.mul_comm, Z.div_add by lia.
        rewrite Z.div_small by lia. lia. }
  assert (Hout : out_ p addr val = out_coms addr val p (com_base p)).
  { unfold out_.
    assert (Hne : addr ≠ 0x201 ∧ addr ≠ 0x3c5 ∧ addr ≠ 0x3cf ∧ addr ≠ 0x3d8
                  ∧ addr ∉ [0x378; 0x37A; 0x278; 0x27A]).
    { subst addr. rewrite !not_elem_of_cons.
      destruct Hbase as [-> | ->], hi; split_and!; try lia; apply not_elem_of_nil. }
    destruct Hne as (N1 & N2 & N3 & N4 & N5).
    destruct (Z.eqb_spec addr 0x201); [done|].
    destruct (Z.eqb_spec addr 0x3c5); [done|].
    destruct (Z.eqb_spec addr 0x3cf); [done|].
    destruct (Z.eqb_spec addr 0x3d8); [done|].
    by rewrite bool_decide_eq_false_2. }
  assert (Hrun : out_ p addr val
                 = Ok (if enable then
                         let p' := set_com_baud_divisor p
                                     (<[nr:=divisor]> (com_baud_divisor p)) in
                         if divisor =? 0 then p'
                         else set_com_device p'
                                (<[nr:=Some (set_params stream (115200 / divisor)
                                               (get_params stream).1.1.2
                                               (get_params stream).1.2
                                               (get_params stream).2)]>
                                   (com_device p))
                       else p)).
  { rewrite Hout. cbn [com_base p out_coms].
    destruct Hnr as [-> | ->].
    - pose proof (out_com_baud val p 0x3f8 0 stream enable hi old Hd He Ho) as E1.
      cbn zeta in E1. fold divisor in E1.
      change (if hi then 1016 + 1 else 1016) with addr in E1.
      rewrite E1. cbn [mbind result_bind].
      rewrite out_com_other; [done| | | | | |].
      + destruct enable; [destruct (divisor =? 0)|]; cbn; rewrite ?length_insert; cbn; lia.
      + destruct enable; [destruct (divisor =? 0)|]; cbn; lia.
      + subst addr base. destruct hi; cbn; lia.
      + subst addr base. destruct hi; cbn; lia.
      + subst addr base. destruct hi; cbn; lia.
      + subst addr base. destruct hi; cbn; lia.
    - rewrite out_com_other; [| cbn; lia | cbn; lia | | | |];
        try (subst addr base; destruct hi; cbn; lia).
      cbn [mbind result_bind].
      pose proof (out_com_baud val p 0x2f8 1 stream enable hi old Hd He Ho) as E1.
      cbn zeta in E1. fold divisor in E1.
      change (if hi then 760 + 1 else 760) with addr in E1.
      rewrite E1. done. }
  split.
  - intros ->. exact Hrun.
  - intros ->. eexists. split; [exact Hrun|].
    destruct Hbytes as [[Hb1 Hb1'] Hb2].
    destruct (divisor =? 0) eqn:Ez; cbn.
    + split_and!; try done.
      symmetry. apply list_insert_id. exact Hd.
    + split_and!; done.
Qed.

End ports.

Import Ref.

(** POKE 70000, 0 on a protected program outside run mode, with a
    conversion that takes 16-bit values only: the error is the overflow
    of the conversion, not the illegal function call, which PEEK(70000)
    raises on the same memory. *)
Lemma protected_poke_converts_first :
  (protected (data (memory0 true false)) = true
   ∧ run_mode (memory0 true false) = false)
  ∧ to_int true 70000 = Raise (RunError OVERFLOW)
  ∧ poke_ (70000, 0) (memory0 true false)
    = (Raise (RunError OVERFLOW), memory0 true false)
  ∧ RunError OVERFLOW ≠ RunError IFC
  ∧ peek_ (memory0 true false) 70000 = Raise (RunError IFC).
Proof. split_and!; (reflexivity || discriminate). Qed.

(** An instance of C5: a protected program outside run mode, and the
    same program in run mode with a file to load. *)
Lemma protection_check_witness :
  let m := memory0 true false in
  let m2 := Memory_init
              {| fd_segment := 0x13ad; fd_protected := true; fd_bytes := ∅ |}
              devices0 {[ 0 := (0x13ad, 0, [1; 2; 3]) ]} screen0 keyboard0 ∅
              true ∅ "" in
  (protected (data m) = true ∧ run_mode m = false)
  ∧ peek_ m 0 = Raise (RunError IFC)
  ∧ bload_ (0, None) m = (Raise (RunError IFC), m)
  ∧ bsave_ (0, 0, 0) m = (Raise (RunError IFC), m)
  ∧ poke_ (0, 0) m = (Raise (RunError IFC), m)
  ∧ (protected (data m2) = true ∧ run_mode m2 = true)
  ∧ peek_ m2 0 ≠ Raise (RunError IFC)
  ∧ (poke_ (0, 0) m2).1 ≠ Raise (RunError IFC)
  ∧ (bload_ (0, None) m2).1 ≠ Raise (RunError IFC)
  ∧ (bsave_ (0, 0, 0) m2).1 ≠ Raise (RunError IFC).
Proof.
  intros m m2.
  destruct (proj1 (protection_check m 0 (0, 0) (0, None) (0, 0, 0))
              (conj eq_refl eq_refl)) as (E1 & E2 & E3 & E4 & _).
  split; [split; reflexivity|]. split; [exact E1|]. split; [exact E2|].
  split; [exact E3|]. split; [exact (E4 0 eq_refl)|].
  split; [split; reflexivity|].
  assert (Hn : ¬ (protected (data m2) = true ∧ run_mode m2 = false)).
  { intros [_ Hr]. discriminate Hr. }
  assert (Hint : ∀ u v, to_int u v ≠ Raise (RunError IFC)).
  { intros u v. cbn. unfold to_int16. repeat case_match; discriminate. }
  assert (Hkey : keypad_int (keypad_ascii (keyboard m2)) ≠ Raise (RunError IFC)).
  { intros E. vm_compute in E. discriminate E. }
  assert (Hin : open_I (files m2) (0, @None Z).1 ≠ Raise (RunError IFC)).
  { intros E. vm_compute in E. discriminate E. }
  assert (Hout : ∀ o l, open_O (files m2) (0, 0, 0).1.1 (segment m2) o l
                        ≠ Raise (RunError IFC)).
  { intros o l E. discriminate E. }
  exact (proj2 (proj2 (protection_check m2 0 (0, 0) (0, None) (0, 0, 0)) Hn)
           Hint Hkey Hin Hout).
Defined.

(** An instance of C6: POKE 1000, 256. *)
Lemma poke_range_check_witness :
  let m := memory0 false false in
  to_int true 1000 = Ok 1000
  ∧ locked m = false
  ∧ to_int false 256 = Ok 256
  ∧ ((poke_ (1000, 256) m).1 = Raise (RunError OUT_OF_RANGE) ↔ 256 < 0 ∨ 255 < 256)
  ∧ (256 < 0 ∨ 255 < 256 → poke_ (1000, 256) m = (Raise (RunError OUT_OF_RANGE), m)).
Proof.
  intros m. repeat (split; [reflexivity|]).
  exact (poke_range_check m (1000, 256) 1000 256 eq_refl eq_refl eq_refl).
Defined.

(** An instance of C7: PEEK(1000) with DEF SEG = 0. *)
Lemma peek_unmapped_low_memory_witness :
  let m := def_seg_ (memory0 false false) (Some 0) in
  locked m = false
  ∧ to_int true 1000 = Ok 1000
  ∧ data_segment (data m) ≤ video_segment
  ∧ 1000 + segment m * 0x10 < data_segment (data m) * 0x10
  ∧ _peek_values m !! (1000 + segment m * 0x10) = None
  ∧ low_memory_mapped (1000 + segment m * 0x10) = false
  ∧ _get_low_memory m (1000 + segment m * 0x10) = Ok (-1)
  ∧ _get_memory m (1000 + segment m * 0x10) = Ok 0
  ∧ peek_ m 1000 = Ok 0.
Proof.
  intros m.
  assert (H1 : data_segment (data m) ≤ video_segment) by (cbv; discriminate).
  assert (H2 : 1000 + segment m * 0x10 < data_segment (data m) * 0x10) by reflexivity.
  split; [reflexivity|]. split; [reflexivity|]. split; [exact H1|].
  split; [exact H2|]. split; [reflexivity|]. split; [reflexivity|].
  exact (peek_unmapped_low_memory m 1000 1000 eq_refl eq_refl H1 H2 eq_refl eq_refl).
Defined.

(** An instance of C8: POKE 0, 7 with DEF SEG = &HF000. *)
Lemma poke_rom_is_ignored_witness :
  let m := def_seg_ (memory0 false false) (Some 0xf000) in
  to_int true 0 = Ok 0
  ∧ locked m = false
  ∧ to_int false 7 = Ok 7
  ∧ 0 ≤ 7 ≤ 255
  ∧ rom_segment * 0x10 ≤ (if 0 <? 0 then 0 + 0x10000 else 0) + segment m * 0x10
  ∧ poke_ (0, 7) m = (Ok (), m)
  ∧ (∀ addr, _get_memory (poke_ (0, 7) m).2 addr = _get_memory m addr)
  ∧ (∀ x, peek_ (poke_ (0, 7) m).2 x = peek_ m x).
Proof.
  intros m.
  assert (H1 : 0 ≤ 7 ≤ 255) by (split; cbv; discriminate).
  assert (H2 : rom_segment * 0x10
               ≤ (if 0 <? 0 then 0 + 0x10000 else 0) + segment m * 0x10)
    by (cbv; discriminate).
  split; [reflexivity|]. split; [reflexivity|]. split; [reflexivity|].
  split; [exact H1|]. split; [exact H2|].
  exact (poke_rom_is_ignored m (0, 7) 0 7 eq_refl eq_refl eq_refl H1 H2).
Defined.

(** An instance of C9: with the latch set on COM1 and a divisor of 0,
    writing 12 to &H3F8 sets 9600 baud. *)
Lemma baud_divisor_write_witness :
  let p := {| session_stick := 0%nat; session_screen := []; lpt_device := [None; None];
              com_base := [(0x3f8, 0%nat); (0x2f8, 1%nat)];
              com_device := [Some serial0; None];
              com_enable_baud_write := [true; false];
              com_baud_divisor := [0; 0]; com_break := [false; false] |} in
  com_device p !! 0%nat = Some (Some serial0)
  ∧ com_enable_baud_write p !! 0%nat = Some true
  ∧ com_baud_divisor p !! 0%nat = Some 0
  ∧ 0 ≤ 0 < 65536
  ∧ 0 ≤ 12 ≤ 255
  ∧ ∃ p', out_ p 0x3f8 12 = Ok p'
      ∧ com_baud_divisor p' = [12; 0]
      ∧ com_device p' =
          [Some {| fs_params := (9600, "N", 8, 1); fs_brk := false;
                   fs_rts := 0; fs_dtr := 0 |}; None].
Proof.
  intros p.
  assert (H1 : 0 ≤ 0 < 65536) by (split; cbv; [discriminate|reflexivity]).
  assert (H2 : 0 ≤ 12 ≤ 255) by (split; cbv; discriminate).
  split; [reflexivity|]. split; [reflexivity|]. split; [reflexivity|].
  split; [exact H1|]. split; [exact H2|].
  destruct (proj2 (baud_divisor_write (H:=flat_ports) 0%nat [] [None; None] (Some serial0) None
                     true false 0 0 false false 0 serial0 true false 0 12
                     eq_refl eq_refl eq_refl H1 H2) eq_refl)
    as (p' & Hout & Hdiv & _ & _ & Hdev & _).
  exists p'. split; [exact Hout|]. split; [exact Hdiv | exact Hdev].
Defined.

End machine_spec.

(** ** More on the tone queues and the PLAY interpreter *)

Module sound_extra.
Import sound sound_spec.

Section tone_engine.
Context `{Float} `{!Scheduler}.

Lemma drain_counted (its : list Event) :
  ∀ u, Z.of_nat (List.length its) ≤ u →
    drain its u = Ok {| items := []; unfinished_tasks := u - Z.of_nat (List.length its) |}.
Proof.
  induction its as [|e its IH]; intros u Hu; cbn [drain List.length] in *.
  - do 2 f_equal. lia.
  - unfold task_done. cbn [unfinished_tasks items].
    destruct (Z.ltb_spec (u - 1) 0); [lia|]. cbn [mbind result_bind unfinished_tasks].
    rewrite IH by lia. do 2 f_equal. lia.
Qed.

Lemma drain_all_counted (qs : list Queue) :
  Forall (λ q, qsize q ≤ unfinished_tasks q) qs →
  drain_all qs
  = Ok ((λ q, {| items := []; unfinished_tasks := unfinished_tasks q - qsize q |}) <$> qs).
Proof.
  induction 1 as [|q qs Hq _ IH]; [done|].
  cbn [drain_all fmap list_fmap]. unfold qsize in Hq.
  rewrite drain_counted by done. cbn [mbind result_bind].
  rewrite IH. done.
Qed.

(** [stop_all_sound] on queues whose unfinished-task counts cover their
    items: every queue is emptied without waiting, each count goes down
    by the number of items dropped, the stop event is appended to the
    message queue, the play state is untouched, and the adjusted queue
    length of every voice reads 0. *)
Theorem stop_all_sound_empties_queues (s : Sound) :
  queues_counted s →
  ∃ s', stop_all_sound s = Ok s'
    ∧ tone_queue s'
      = (λ q, {| items := []; unfinished_tasks := unfinished_tasks q - qsize q |})
          <$> tone_queue s
    ∧ message_queue s' = message_queue s ++ [AUDIO_STOP]
    ∧ play_state s' = play_state s
    ∧ ∀ voice, (voice < List.length (tone_queue s))%nat → queue_length s' voice = Ok 0.
Proof.
  intros Hc. unfold stop_all_sound. rewrite (drain_all_counted _ Hc).
  cbn [mbind result_bind mret result_ret].
  eexists. split; [reflexivity|]. split_and!; try reflexivity.
  intros voice Hv. unfold queue_length. cbn [tone_queue set_message_queue set_tone_queue].
  destruct (lookup_lt_is_Some_2 _ _ Hv) as [q Eq].
  erewrite index_Some; [|by rewrite list_lookup_fmap, Eq]. done.
Qed.

(** A queue with more items than unfinished tasks makes [task_done]
    fail while it is drained. *)
Lemma drain_uncounted (its : list Event) :
  ∀ u, 0 ≤ u < Z.of_nat (List.length its) → drain its u = Raise ValueError.
Proof.
  induction its as [|e its IH]; intros u Hu; cbn [drain List.length] in *; [lia|].
  unfold task_done. cbn [unfinished_tasks items].
  destruct (Z.ltb_spec (u - 1) 0); [done|]. cbn [mbind result_bind unfinished_tasks].
  apply IH. lia.
Qed.

(** The loop condition of [wait_all_music] is false exactly when each of
    the voices 0, 1, 2 has at most one item queued and no unfinished
    task. *)
Lemma music_playing_false (s : Sound) :
  music_playing s = Ok false ↔
  ∃ q0 q1 q2, tone_queue s !! 0%nat = Some q0 ∧ tone_queue s !! 1%nat = Some q1
    ∧ tone_queue s !! 2%nat = Some q2
    ∧ qsize q0 ≤ 1 ∧ unfinished_tasks q0 = 0
    ∧ qsize q1 ≤ 1 ∧ unfinished_tasks q1 = 0
    ∧ qsize q2 ≤ 1 ∧ unfinished_tasks q2 = 0.
Proof.
  assert (Hone : ∀ voice,
    (is_playing s voice = Ok 0 ↔
     ∃ q, tone_queue s !! voice = Some q ∧ qsize q ≤ 1 ∧ unfinished_tasks q = 0)
    ∧ (∀ q, tone_queue s !! voice = Some q →
       ∃ v, is_playing s voice = Ok v)).
  { intros voice. unfold is_playing, queue_length, index.
    destruct (tone_queue s !! voice) as [q|] eqn:E; cbn.
    - split.
      + split.
        * destruct (Z.eqb_spec (0 `max` (qsize q - 1)) 0) as [Hz|Hz]; cbn.
          -- intros [= Hu]. exists q. split_and!; [done|lia|done].
          -- intros [= Hu]. lia.
        * intros (q' & [= <-] & Hs & Hu).
          destruct (Z.eqb_spec (0 `max` (qsize q - 1)) 0) as [Hz|Hz]; cbn; [by rewrite Hu|lia].
      + intros q' _. destruct (0 `max` (qsize q - 1) =? 0); cbn; eauto.
    - split; [|intros q' [=]]. split; [discriminate|]. by intros (q' & [=] & _). }
  unfold music_playing. split.
  - destruct (is_playing s 0) as [p0| |] eqn:E0; cbn; try discriminate.
    destruct (Z.eqb_spec p0 0) as [->|]; cbn; try discriminate.
    destruct (is_playing s 1) as [p1| |] eqn:E1; cbn; try discriminate.
    destruct (Z.eqb_spec p1 0) as [->|]; cbn; try discriminate.
    destruct (is_playing s 2) as [p2| |] eqn:E2; cbn; try discriminate.
    destruct (Z.eqb_spec p2 0) as [->|]; cbn; try discriminate.
    intros _.
    apply (proj1 (Hone 0%nat)) in E0 as (q0 & ? & ? & ?).
    apply (proj1 (Hone 1%nat)) in E1 as (q1 & ? & ? & ?).
    apply (proj1 (Hone 2%nat)) in E2 as (q2 & ? & ? & ?).
    exists q0, q1, q2. split_and!; done.
  - intros (q0 & q1 & q2 & E0 & E1 & E2 & ? & ? & ? & ? & ? & ?).
    rewrite (proj2 (proj1 (Hone 0%nat))) by eauto. cbn.
    rewrite (proj2 (proj1 (Hone 1%nat))) by eauto. cbn.
    rewrite (proj2 (proj1 (Hone 2%nat))) by eauto. done.
Qed.

(** [wait_all_music] returns the object as it is after the first
    number of waits at which none of the voices 0, 1, 2 is playing: each
    has at most one item queued and no unfinished task.  With less fuel
    than that number of waits it does not return. *)
Theorem wait_all_music_returns_when_idle (fuel : nat) :
  ∀ (s s' : Sound),
    wait_all_music fuel s = Ok s' ↔
    ∃ k, (k ≤ fuel)%nat ∧ s' = waits k s
      ∧ (∃ q0 q1 q2, tone_queue s' !! 0%nat = Some q0
           ∧ tone_queue s' !! 1%nat = Some q1 ∧ tone_queue s' !! 2%nat = Some q2
           ∧ qsize q0 ≤ 1 ∧ unfinished_tasks q0 = 0
           ∧ qsize q1 ≤ 1 ∧ unfinished_tasks q1 = 0
           ∧ qsize q2 ≤ 1 ∧ unfinished_tasks q2 = 0)
      ∧ ∀ j, (j < k)%nat → music_playing (waits j s) = Ok true.
Proof.
  induction fuel as [|fuel IH]; intros s s'.
  - cbn [wait_all_music]. split.
    + destruct (music_playing s) as [[]| |] eqn:E; cbn; try discriminate.
      intros [= <-]. exists 0%nat. split_and!; [done|done| |].
      * by apply music_playing_false.
      * intros j Hj. lia.
    + intros (k & Hk & -> & Hf & _). assert (k = 0%nat) as -> by lia.
      change (waits 0 s) with s in Hf. apply music_playing_false in Hf.
      by rewrite Hf.
  - cbn [wait_all_music]. split.
    + destruct (music_playing s) as [[]| |] eqn:E; cbn; try discriminate.
      * intros Hw. apply IH in Hw as (k & Hk & -> & Hf & Hb).
        exists (S k). rewrite waits_S. split_and!; [lia|done|done|].
        intros [|j] Hj; [done|]. rewrite waits_S. apply Hb. lia.
      * intros [= <-]. exists 0%nat. split_and!; [lia|done| |].
        -- by apply music_playing_false.
        -- intros j Hj. lia.
    + intros (k & Hk & -> & Hf & Hb). destruct k as [|k].
      * change (waits 0 s) with s in Hf. apply music_playing_false in Hf.
        by rewrite Hf.
      * pose proof (Hb 0%nat ltac:(lia)) as Hfst. change (waits 0 s) with s in Hfst.
        rewrite Hfst. cbn [mbind result_bind]. apply IH. exists k.
        split_and!; [lia|by rewrite waits_S|exact Hf|].
        intros j Hj. rewrite <- waits_S. apply Hb. lia.
Qed.

(** [play_sound_no_wait] never waits and touches one queue only: the
    queue of its voice gains one tone with the duration, fill, loop flag
    and volume it was given, every other queue, the play state, the
    message queue and the scheduler are as before, and the noise table
    changes only for voice 2. *)
Theorem play_sound_no_wait_touches_one_queue (s : Sound)
    (frequency duration fill : F) (loop : bool) (voice : nat) (volume : Z)
    (q : Queue) :
  tone_queue s !! voice = Some q →
  List.length (noise_freq s) = 8%nat →
  ∃ s' f', play_sound_no_wait s frequency duration fill loop voice volume = Ok s'
    ∧ tone_queue s' !! voice = Some (put q (AUDIO_TONE f' duration fill loop volume))
    ∧ (∀ v, v ≠ voice → tone_queue s' !! v = tone_queue s !! v)
    ∧ List.length (tone_queue s') = List.length (tone_queue s)
    ∧ play_state s' = play_state s
    ∧ message_queue s' = message_queue s
    ∧ events s' = events s
    ∧ foreground s' = foreground s
    ∧ (voice ≠ 2%nat → noise_freq s' = noise_freq s).
Proof.
  intros Hq Hn. unfold play_sound_no_wait.
  rewrite (index_Some _ _ _ Hq). cbn [mbind result_bind].
  set (f0 := if (frequency <? fz 0)%fl then fz 0 else frequency).
  set (f' := if has_volume s && (f0 <? fz 110)%fl && negb (f0 =? fz 0)%fl
             then fz 110 else f0).
  assert (Hframe : ∀ s1 : Sound,
    tone_queue s1 = <[voice:=put q (AUDIO_TONE f' duration fill loop volume)]> (tone_queue s) →
    tone_queue s1 !! voice = Some (put q (AUDIO_TONE f' duration fill loop volume))
    ∧ (∀ v, v ≠ voice → tone_queue s1 !! v = tone_queue s !! v)
    ∧ List.length (tone_queue s1) = List.length (tone_queue s)).
  { intros s1 ->. split_and!.
    - apply list_lookup_insert_eq. by eapply lookup_lt_Some.
    - intros v Hv. by apply list_lookup_insert_ne.
    - apply length_insert. }
  destruct (Nat.eqb_spec voice 2) as [->|Hne]; cbn [andb].
  - destruct (negb (f' =? fz 0)%fl).
    + cbn [tone_queue noise_freq set_tone_queue].
      rewrite setitem_lt by lia. cbn [mbind result_bind].
      rewrite setitem_lt by (rewrite length_insert; lia).
      cbn [mbind result_bind mret result_ret].
      eexists _, f'. split; [reflexivity|].
      destruct (Hframe (set_tone_queue s (<[2%nat:=put q (AUDIO_TONE f' duration fill loop volume)]> (tone_queue s))) eq_refl)
        as (F1 & F2 & F3).
      split_and!; try done.
    + eexists _, f'. split; [reflexivity|].
      destruct (Hframe (set_tone_queue s (<[2%nat:=put q (AUDIO_TONE f' duration fill loop volume)]> (tone_queue s))) eq_refl)
        as (F1 & F2 & F3).
      split_and!; done.
  - eexists _, f'. split; [reflexivity|].
    destruct (Hframe (set_tone_queue s (<[voice:=put q (AUDIO_TONE f' duration fill loop volume)]> (tone_queue s))) eq_refl)
      as (F1 & F2 & F3).
    split_and!; done.
Qed.

(** The noise sources 3 and 7 are tied to voice 2: a tone put on voice
    2 that is not silent sets both to half its frequency, and a noise
    then played from source 3 or 7 is queued on queue 3 at that
    frequency; a silent tone leaves the noise table as it was. *)
Theorem noise_follows_voice_two (s s' : Sound) (frequency duration fill : F)
    (loop : bool) (volume : Z) :
  play_sound_no_wait s frequency duration fill loop 2 volume = Ok s' →
  ∃ q f', tone_queue s !! 2%nat = Some q
    ∧ tone_queue s' !! 2%nat = Some (put q (AUDIO_TONE f' duration fill loop volume))
    ∧ ((f' =? fz 0)%fl = true → noise_freq s' = noise_freq s)
    ∧ ((f' =? fz 0)%fl = false →
       noise_freq s' = <[7%nat:=(f' / fz 2)%fl]> (<[3%nat:=(f' / fz 2)%fl]> (noise_freq s))
       ∧ ∀ (source : Z) (q3 : Queue) (vol : Z) (dur : F) (lp : bool),
           source = 3 ∨ source = 7 →
           tone_queue s' !! 3%nat = Some q3 →
           play_noise s' source vol dur lp =
             Ok (set_tone_queue s'
                   (<[3%nat:=put q3 (AUDIO_NOISE (3 <? source) (f' / fz 2)%fl dur
                                         (fz 1) lp vol)]> (tone_queue s')))).
Proof.
  unfold play_sound_no_wait.
  set (f0 := if (frequency <? fz 0)%fl then fz 0 else frequency).
  set (f' := if has_volume s && (f0 <? fz 110)%fl && negb (f0 =? fz 0)%fl
             then fz 110 else f0).
  destruct (tone_queue s !! 2%nat) as [q|] eqn:Eq; [|by unfold index; rewrite Eq].
  rewrite (index_Some _ _ _ Eq). cbn [mbind result_bind Nat.eqb andb].
  assert (Hq' : ∀ nf, tone_queue (set_noise_freq (set_tone_queue s
                  (<[2%nat:=put q (AUDIO_TONE f' duration fill loop volume)]>
                     (tone_queue s))) nf) !! 2%nat
                = Some (put q (AUDIO_TONE f' duration fill loop volume))).
  { intros nf. cbn. apply list_lookup_insert_eq. by eapply lookup_lt_Some. }
  destruct (f' =? fz 0)%fl eqn:Ez; cbn [negb].
  - intros [= <-]. exists q, f'. split; [done|]. split.
    + cbn. apply list_lookup_insert_eq. by eapply lookup_lt_Some.
    + rewrite Ez. split; [done|discriminate].
  - cbn [noise_freq set_tone_queue]. unfold setitem.
    destruct (noise_freq s !! 3%nat) as [x3|] eqn:E3; cbn [mbind result_bind];
      [|discriminate].
    destruct (<[3%nat:=(f' / fz 2)%fl]> (noise_freq s) !! 7%nat) as [x7|] eqn:E7;
      cbn [mbind result_bind mret result_ret]; [|discriminate].
    intros [= <-]. exists q, f'. split; [done|]. split; [apply Hq'|].
    rewrite Ez. split; [discriminate|]. intros _. split; [done|].
    intros source q3 vol dur lp Hsrc Hq3. unfold play_noise.
    assert (Hlen : (7 < List.length (noise_freq s))%nat).
    { apply lookup_lt_Some in E7. by rewrite length_insert in E7. }
    assert (Hget : getitem (noise_freq (set_noise_freq (set_tone_queue s
                      (<[2%nat:=put q (AUDIO_TONE f' duration fill loop volume)]>
                         (tone_queue s)))
                      (<[7%nat:=(f' / fz 2)%fl]>
                         (<[3%nat:=(f' / fz 2)%fl]> (noise_freq s))))) source
                   = Ok (f' / fz 2)%fl).
    { cbn [noise_freq set_noise_freq]. unfold getitem.
      destruct Hsrc as [-> | ->]; cbn.
      - rewrite list_lookup_insert_ne by lia.
        rewrite list_lookup_insert_eq by lia. done.
      - rewrite list_lookup_insert_eq by (rewrite length_insert; lia). done. }
    rewrite Hget. cbn [mbind result_bind].
    rewrite (index_Some _ _ _ Hq3). done.
Qed.

End tone_engine.

(** *** Strings and [StringIO] *)

Lemma append_cons (x : ascii) (a b : string) :
  String x a +:+ b = String x (a +:+ b).
Proof. reflexivity. Qed.

Lemma append_nil_r (a : string) : a +:+ "" = a.
Proof. induction a as [|c a IH]; [done|]. by rewrite append_cons, IH. Qed.

Lemma append_assoc (a b c : string) : (a +:+ b) +:+ c = a +:+ b +:+ c.
Proof. induction a as [|x a IH]; [done|]. by rewrite !append_cons, IH. Qed.

Lemma length_append (a b : string) :
  String.length (a +:+ b) = (String.length a + String.length b)%nat.
Proof.
  induction a as [|x a IH]; [done|]. rewrite append_cons. cbn [String.length].
  by rewrite IH.
Qed.

Lemma substring_all (a : string) : String.substring 0 (String.length a) a = a.
Proof. induction a as [|x a IH]; [done|]. cbn. f_equal. exact IH. Qed.

Lemma substring_none (n : nat) (a : string) :
  (String.length a ≤ n)%nat → ∀ m, String.substring n m a = "".
Proof.
  revert n. induction a as [|x a IH]; intros n Hn m.
  - by destruct n, m.
  - destruct n as [|n]; cbn in *; [lia|]. apply IH. lia.
Qed.

Lemma str_upto_append (a b : string) : str_upto (String.length a) (a +:+ b) = a.
Proof.
  unfold str_upto. induction a as [|x a IH].
  - by destruct b.
  - rewrite append_cons. cbn [String.length String.substring]. by rewrite IH.
Qed.

Lemma str_from_append (a b : string) : str_from (String.length a) (a +:+ b) = b.
Proof.
  unfold str_from. rewrite length_append.
  replace (String.length a + String.length b - String.length a)%nat
    with (String.length b) by lia.
  induction a as [|x a IH]; [apply substring_all|].
  rewrite append_cons. cbn [String.length String.substring]. exact IH.
Qed.

Lemma str_upto_from (n : nat) (a : string) : str_upto n a +:+ str_from n a = a.
Proof.
  unfold str_upto, str_from. revert n. induction a as [|x a IH]; intros n.
  - by destruct n.
  - destruct n as [|n]; cbn [String.length String.substring Nat.sub].
    + change (String x (String.substring 0 (String.length a) a) = String x a).
      f_equal. apply substring_all.
    + rewrite append_cons. f_equal. apply IH.
Qed.

Lemma length_str_upto (n : nat) (a : string) :
  (n ≤ String.length a)%nat → String.length (str_upto n a) = n.
Proof.
  unfold str_upto. revert n. induction a as [|x a IH]; intros n Hn.
  - cbn in Hn. by assert (n = 0%nat) as -> by lia.
  - destruct n as [|n]; cbn in *; [done|]. f_equal. apply IH. lia.
Qed.

(** Writing at the end of the buffer appends. *)
Lemma write_at_end (x : string) (g : StringIO) :
  pos g = String.length (buf g) →
  write x g = {| buf := buf g +:+ x; pos := pos g + String.length x |}.
Proof.
  intros Hp. destruct g as [b p]. cbn in *. subst p. unfold write.
  destruct x as [|c x].
  - rewrite append_nil_r. cbn [String.length buf pos]. f_equal. lia.
  - cbn [buf pos]. f_equal.
    unfold str_upto. rewrite substring_all, Nat.sub_diag. cbn [zeros].
    rewrite append_nil_r. f_equal.
    unfold str_from. rewrite substring_none by lia. by rewrite append_nil_r.
Qed.

Section play.
Context `{Float} `{!Scheduler} `{!MLParser}.

Lemma wait_all_music_play_state (fuel : nat) :
  ∀ (s s' : Sound), wait_all_music fuel s = Ok s' → play_state s' = play_state s.
Proof.
  induction fuel as [|fuel IH]; intros s s'; cbn [wait_all_music];
    destruct (music_playing s) as [[]| |]; cbn; try discriminate;
    try (by intros [= <-]).
  intros Hw. apply IH in Hw. by rewrite Hw, wait_play_state.
Qed.

Lemma wait_foreground (s : Sound) : foreground (wait s) = foreground s.
Proof. unfold wait. by destruct (events_wait (events s) (tone_queue s)). Qed.

Lemma wait_all_music_idle (fuel : nat) :
  ∀ (s s' : Sound), wait_all_music fuel s = Ok s' →
    music_playing s' = Ok false ∧ foreground s' = foreground s.
Proof.
  induction fuel as [|fuel IH]; intros s s'; cbn [wait_all_music];
    destruct (music_playing s) as [[]| |] eqn:E; cbn; try discriminate;
    try (by intros [= <-]).
  intros Hw. apply IH in Hw as [Hw1 Hw2]. by rewrite Hw2, wait_foreground.
Qed.

(** A PLAY statement that ends in foreground mode (MF) has returned
    only once the music is over: each of the voices 0, 1, 2 has at most
    one item left in its queue and no unfinished task. *)
Theorem foreground_play_returns_when_music_is_over (fuel : nat) (s s' : Sound)
    (mml_list : list string) (l' : Locals) :
  play fuel s mml_list = Ok (s', l') →
  foreground s' = true →
  ∃ q0 q1 q2, tone_queue s' !! 0%nat = Some q0 ∧ tone_queue s' !! 1%nat = Some q1
    ∧ tone_queue s' !! 2%nat = Some q2
    ∧ qsize q0 ≤ 1 ∧ unfinished_tasks q0 = 0
    ∧ qsize q1 ≤ 1 ∧ unfinished_tasks q1 = 0
    ∧ qsize q2 ≤ 1 ∧ unfinished_tasks q2 = 0.
Proof.
  unfold play.
  destruct (play_while fuel fuel s (play_init mml_list)) as [[s1 l1]| |];
    cbn [mbind result_bind]; try discriminate.
  destruct (py_fmax (total_time l1)) as [mx| |]; cbn [mbind result_bind];
    try discriminate.
  destruct (play_pad fuel s1 (total_time l1) mx [0; 1; 2]%nat) as [s2| |];
    cbn [mbind result_bind]; try discriminate.
  destruct (foreground s2) eqn:Ef.
  - destruct (wait_all_music fuel s2) as [s3| |] eqn:Ew;
      cbn [mbind result_bind mret result_ret]; try discriminate.
    intros [= <- <-] _. apply wait_all_music_idle in Ew as [Ew _].
    by apply music_playing_false.
  - cbn [mbind result_bind mret result_ret]. intros [= <- <-] Hf. congruence.
Qed.

Lemma play_pad_play_state (fuel : nat) (tt : list F) (mx : F) (vs : list nat) :
  ∀ (s s' : Sound), play_pad fuel s tt mx vs = Ok s' → play_state s' = play_state s.
Proof.
  induction vs as [|v vs IH]; intros s s'; cbn [play_pad].
  - by intros [= <-].
  - destruct (index tt v) as [t| |]; cbn [mbind result_bind]; try discriminate.
    destruct (t <? mx)%fl.
    + destruct (play_sound fuel s (fz 0) (mx - t)%fl (fz 1) false v 15) as [s1| |] eqn:E;
        cbn [mbind result_bind]; try discriminate.
      intros Hp. apply IH in Hp. apply play_sound_play_state in E. congruence.
    + cbn [mbind result_bind mret result_ret]. apply IH.
Qed.

Lemma in_range_set_vstate (s : Sound) (voice : nat) (v : PlayState) :
  play_state_in_range s →
  0 ≤ octave v ≤ 6 ∧ 0 ≤ volume v ≤ 15 →
  play_state_in_range (set_vstate s voice v).
Proof. intros Hs Hv. unfold play_state_in_range, set_vstate. cbn. by apply Forall_insert. Qed.

Lemma in_range_same (s s' : Sound) :
  play_state s' = play_state s → play_state_in_range s → play_state_in_range s'.
Proof. unfold play_state_in_range. by intros ->. Qed.

(** One command of one voice keeps every octave within 0..6 and every
    volume within 0..15. *)
Lemma play_voice_in_range (fuel : nat) (s s' : Sound) (l l' : Locals) (voice : nat) :
  play_state_in_range s →
  play_voice fuel s l voice = Ok (s', l') →
  play_state_in_range s'.
Proof.
  intros Hs. unfold play_voice.
  destruct (index (play_state s) voice) as [vstate| |] eqn:Ev;
    cbn [mbind result_bind]; try discriminate.
  assert (Hv : 0 ≤ octave vstate ≤ 6 ∧ 0 ≤ volume vstate ≤ 15).
  { unfold index in Ev. destruct (play_state s !! voice) as [v|] eqn:E; [|discriminate].
    injection Ev as <-. unfold play_state_in_range in Hs.
    by eapply (proj1 (Forall_lookup _ _) Hs). }
  destruct (index (gmls_list l) voice) as [g| |];
    cbn [mbind result_bind]; try discriminate.
  destruct (skip_read g) as [c g1].
  repeat match goal with
  | |- (if ?b then _ else _) = _ → _ => destruct b eqn:?
  | |- (let '(_, _) := ?x in _) = _ → _ => destruct x as [? ?] eqn:?
  | |- mbind _ ?x = _ → _ =>
      destruct x as [?| |] eqn:?; cbn [mbind result_bind mret result_ret];
        try discriminate
  | |- (?x ≫= _) = _ → _ =>
      destruct x as [?| |] eqn:?; cbn [mbind result_bind mret result_ret];
        try discriminate
  | |- Raise _ = _ → _ => discriminate
  | |- Hang = _ → _ => discriminate
  end.
  all: try (intros [= <- <-]; first
    [ exact Hs
    | apply in_range_set_vstate; [exact Hs|cbn; lia]
    | apply in_range_set_vstate; [exact Hs|cbn; repeat case_match; lia]
    | eapply in_range_same; [|exact Hs];
      first [ by eapply play_sound_play_state | reflexivity ] ]).
  intros [= <- <-]. eapply in_range_same; [|exact Hs].
  revert Heqr0. destruct (String.eqb s1 "P").
  - destruct (play_sound fuel s _ _ _ _ _ _) as [s3| |] eqn:Eps;
      cbn [mbind result_bind]; try discriminate.
    destruct (add_time _ _ _) as [l3| |]; cbn [mbind result_bind mret result_ret];
      try discriminate.
    intros [= <- <-]. by eapply play_sound_play_state.
  - destruct (dict_get notes s1) as [k|[]|]; cbn [mbind result_bind except_KeyError];
      try discriminate.
    destruct (getitem note_freq _) as [f0|[]|]; cbn [mbind result_bind except_KeyError];
      try discriminate.
    destruct (play_sound fuel s _ _ _ _ _ _) as [s3|[]|] eqn:Eps;
      cbn [mbind result_bind except_KeyError]; try discriminate.
    destruct (add_time _ _ _) as [l3|[]|];
      cbn [mbind result_bind mret result_ret except_KeyError]; try discriminate.
    intros [= <- <-]. by eapply play_sound_play_state.
Qed.

Lemma play_for_in_range (fuel : nat) (n : nat) :
  ∀ (i : nat) (s s' : Sound) (l l' : Locals),
    play_state_in_range s →
    play_for fuel n i s l = Ok (s', l') →
    play_state_in_range s'.
Proof.
  induction n as [|n IH]; intros i s s' l l' Hs; cbn [play_for];
    destruct (voices l !! i) as [voice|]; cbn [mret result_ret];
    try discriminate; try (by intros [= <- <-]).
  destruct (play_voice fuel s l voice) as [[s1 l1]| |] eqn:E;
    cbn [mbind result_bind]; try discriminate.
  apply IH. by eapply play_voice_in_range.
Qed.

Lemma play_while_in_range (fuel : nat) (n : nat) :
  ∀ (s s' : Sound) (l l' : Locals),
    play_state_in_range s →
    play_while fuel n s l = Ok (s', l') →
    play_state_in_range s'.
Proof.
  induction n as [|n IH]; intros s s' l l' Hs; cbn [play_while];
    destruct (voices l) as [|v vs] eqn:Evs; cbn [mret result_ret];
    try discriminate; try (by intros [= <- <-]).
  destruct (play_pass fuel s l) as [[s1 l1]| |] eqn:E;
    cbn [mbind result_bind]; try discriminate.
  apply IH. unfold play_pass in E. by eapply play_for_in_range.
Qed.

(** Whatever the strings, a PLAY statement that returns leaves the
    octave of every voice within 0..6 and its volume within 0..15, if
    they were so before (as they are after a reset). *)
Theorem play_keeps_octave_and_volume_in_range (fuel : nat) (s s' : Sound)
    (mml_list : list string) (l' : Locals) :
  play_state_in_range s →
  play fuel s mml_list = Ok (s', l') →
  play_state_in_range (reset s) ∧ play_state_in_range s'.
Proof.
  intros Hs Hplay. split.
  { unfold play_state_in_range, reset. cbn. repeat constructor; cbn; lia. }
  revert Hplay. unfold play.
  destruct (play_while fuel fuel s (play_init mml_list)) as [[s1 l1]| |] eqn:E;
    cbn [mbind result_bind]; try discriminate.
  apply play_while_in_range in E; [|done].
  destruct (py_fmax (total_time l1)) as [mx| |]; cbn [mbind result_bind];
    try discriminate.
  destruct (play_pad fuel s1 (total_time l1) mx [0; 1; 2]%nat) as [s2| |] eqn:Ep;
    cbn [mbind result_bind]; try discriminate.
  apply play_pad_play_state in Ep.
  destruct (foreground s2).
  - destruct (wait_all_music fuel s2) as [s3| |] eqn:Ew;
      cbn [mbind result_bind mret result_ret]; try discriminate.
    intros [= <- <-]. apply wait_all_music_play_state in Ew.
    eapply in_range_same; [|exact E]. congruence.
  - cbn [mbind result_bind mret result_ret]. intros [= <- <-].
    eapply in_range_same; [|exact E]. congruence.
Qed.

(** A character that opens no command, [V] on a machine without
    per-voice volume, and [M] followed by anything but N, L, S, F, B
    all end the statement with an illegal function call. *)
Theorem unknown_command_is_illegal (fuel : nat) (s : Sound) (l : Locals)
    (voice : nat) (vstate : PlayState) (g g1 : StringIO) (c : string) :
  play_state s !! voice = Some vstate →
  gmls_list l !! voice = Some g →
  skip_read g = (c, g1) →
  (upper c ∉ [""; ";"; "X"; "N"; "L"; "T"; "O"; ">"; "<"; "A"; "B"; "C"; "D";
              "E"; "F"; "G"; "P"; "M"; "V"] →
     play_voice fuel s l voice = Raise (RunError IFC))
  ∧ (upper c = "V" → has_volume s = false →
     play_voice fuel s l voice = Raise (RunError IFC))
  ∧ (upper c = "M" → ∀ c2 g2, skip_read g1 = (c2, g2) →
     upper c2 ∉ ["N"; "L"; "S"; "F"; "B"] →
     play_voice fuel s l voice = Raise (RunError IFC)).
Proof.
  intros Hv Hg Hsr. split_and!.
  - intros Hc. rewrite !not_elem_of_cons in Hc.
    destruct Hc as (N0 & N1 & N2 & N3 & N4 & N5 & N6 & N7 & N8 & N9 & N10 & N11
                    & N12 & N13 & N14 & N15 & N16 & N17 & N18 & _).
    assert (Hnl : is_note_letter (upper c) = false).
    { unfold is_note_letter. apply bool_decide_eq_false.
      rewrite !not_elem_of_cons. split_and!; try done. apply not_elem_of_nil. }
    unfold play_voice.
    rewrite (index_Some _ _ _ Hv), (index_Some _ _ _ Hg). cbn [mbind result_bind].
    rewrite Hsr, Hnl.
    repeat match goal with
    | |- context [String.eqb (upper c) ?k] =>
        destruct (String.eqb_spec (upper c) k); [done|]
    end.
    done.
  - intros Hc Hvol. unfold play_voice.
    rewrite (index_Some _ _ _ Hv), (index_Some _ _ _ Hg). cbn [mbind result_bind].
    rewrite Hsr, Hc, Hvol. reflexivity.
  - intros Hc c2 g2 Hsr2 Hc2. rewrite !not_elem_of_cons in Hc2.
    destruct Hc2 as (N0 & N1 & N2 & N3 & N4 & _).
    unfold play_voice.
    rewrite (index_Some _ _ _ Hv), (index_Some _ _ _ Hg). cbn [mbind result_bind].
    rewrite Hsr, Hc. cbn [String.eqb Ascii.eqb Bool.eqb]. 
    change (is_note_letter "M") with false. cbn [andb orb]. rewrite Hsr2.
    repeat match goal with
    | |- context [String.eqb (upper c2) ?k] =>
        destruct (String.eqb_spec (upper c2) k); [done|]
    end.
    done.
Qed.

(** [L0] and [T0] end the statement with Python's [ZeroDivisionError],
    not with a BASIC error. *)
Theorem zero_length_or_tempo_divides_by_zero (fuel : nat) (s : Sound) (l : Locals)
    (voice : nat) (vstate : PlayState) (g g1 g2 : StringIO) (c : string) :
  play_state s !! voice = Some vstate →
  gmls_list l !! voice = Some g →
  skip_read g = (c, g1) →
  upper c = "L" ∨ upper c = "T" →
  parse_number g1 = Ok (0, g2) →
  play_voice fuel s l voice = Raise ZeroDivisionError.
Proof.
  intros Hv Hg Hsr Hc Hn. unfold play_voice.
  rewrite (index_Some _ _ _ Hv), (index_Some _ _ _ Hg). cbn [mbind result_bind].
  rewrite Hsr. destruct Hc as [-> | ->]; cbn [String.eqb Ascii.eqb Bool.eqb];
    rewrite Hn; reflexivity.
Qed.

(** The [X] command splices the string it names into the buffer at the
    cursor: what is already read stays, the spliced text comes next and
    the text that was still unread follows it, with the cursor at the
    start of the spliced text.  Nothing else changes. *)
Theorem substring_is_scanned_next (fuel : nat) (s : Sound) (l : Locals)
    (voice : nat) (vstate : PlayState) (g g1 g2 : StringIO) (c sub : string) :
  play_state s !! voice = Some vstate →
  gmls_list l !! voice = Some g →
  skip_read g = (c, g1) →
  upper c = "X" →
  parse_string g1 = Ok (sub, g2) →
  (pos g2 ≤ String.length (buf g2))%nat →
  ∃ g3, play_voice fuel s l voice = Ok (s, set_gmls l voice g3)
    ∧ pos g3 = pos g2
    ∧ buf g3 = str_upto (pos g2) (buf g2) +:+ sub +:+ str_from (pos g2) (buf g2)
    ∧ str_upto (pos g3) (buf g3) = str_upto (pos g2) (buf g2)
    ∧ str_from (pos g3) (buf g3) = sub +:+ str_from (pos g2) (buf g2).
Proof.
  intros Hv Hg Hsr Hc Hps Hpos.
  pose proof (length_str_upto _ _ Hpos) as Hlen.
  eexists. split.
  { unfold play_voice.
    rewrite (index_Some _ _ _ Hv), (index_Some _ _ _ Hg). cbn [mbind result_bind].
    rewrite Hsr, Hc. cbn [String.eqb Ascii.eqb Bool.eqb].
    rewrite Hps. cbn [mbind result_bind mret result_ret].
    unfold read_rest, truncate. cbn [buf pos].
    rewrite Nat.min_l by done.
    rewrite (write_at_end sub) by (cbn [buf pos]; by rewrite Hlen).
    cbn [buf pos].
    rewrite write_at_end
      by (cbn [buf pos]; by rewrite length_append, Hlen).
    cbn [buf pos seek]. by rewrite set_gmls_twice. }
  cbn [buf pos]. split; [done|]. split; [by rewrite append_assoc|].
  rewrite append_assoc.
  set (t := str_upto (pos g2) (buf g2)) in *. rewrite <- Hlen. split.
  - apply str_upto_append.
  - apply str_from_append.
Qed.

Lemma add_time_voices (l l' : Locals) (voice : nat) (d : F) :
  add_time l voice d = Ok l' → voices l' = voices l.
Proof.
  unfold add_time. destruct (index (total_time l) voice); cbn; try discriminate.
  by intros [= <-].
Qed.

Lemma play_voice_active_set (fuel : nat) (s s' : Sound) (l l' : Locals)
    (voice : nat) (g g1 : StringIO) (c : string) :
  gmls_list l !! voice = Some g →
  skip_read g = (c, g1) →
  play_voice fuel s l voice = Ok (s', l') →
  voices l' = (if String.eqb (upper c) "" then list_remove voice (voices l)
               else voices l)
  ∧ (String.eqb (upper c) "" = true → s' = s ∧ total_time l' = total_time l).
Proof.
  intros Hg Hsr. unfold play_voice.
  destruct (index (play_state s) voice) as [vstate| |] eqn:Ev;
    cbn [mbind result_bind]; try discriminate.
  rewrite (index_Some _ _ _ Hg). cbn [mbind result_bind]. rewrite Hsr.
  destruct (String.eqb (upper c) "") eqn:E0.
  { intros [= <- <-]. done. }
  repeat match goal with
  | |- (if ?b then _ else _) = _ → _ => destruct b eqn:?
  | |- (let '(_, _) := ?x in _) = _ → _ => destruct x as [? ?] eqn:?
  | |- mbind _ ?x = _ → _ =>
      destruct x as [?| |] eqn:?; cbn [mbind result_bind mret result_ret];
        try discriminate
  | |- (?x ≫= _) = _ → _ =>
      destruct x as [?| |] eqn:?; cbn [mbind result_bind mret result_ret];
        try discriminate
  | |- Raise _ = _ → _ => discriminate
  | |- Hang = _ → _ => discriminate
  end.
  all: try (intros [= <- <-]; split; [|discriminate]; cbn;
            first [ reflexivity
                  | by erewrite add_time_voices by eassumption ]).
  intros [= <- <-]. split; [|discriminate]. cbn.
  revert Heqr0. destruct (String.eqb s1 "P").
  - destruct (play_sound fuel s _ _ _ _ _ _) as [s3| |];
      cbn [mbind result_bind]; try discriminate.
    destruct (add_time _ _ _) as [l3| |] eqn:Eat;
      cbn [mbind result_bind mret result_ret]; try discriminate.
    intros [= <- <-]. by apply add_time_voices in Eat.
  - destruct (dict_get notes s1) as [k|[]|]; cbn [mbind result_bind except_KeyError];
      try discriminate.
    destruct (getitem note_freq _) as [f0|[]|]; cbn [mbind result_bind except_KeyError];
      try discriminate.
    destruct (play_sound fuel s _ _ _ _ _ _) as [s3|[]|];
      cbn [mbind result_bind except_KeyError]; try discriminate.
    destruct (add_time _ _ _) as [l3|[]|] eqn:Eat;
      cbn [mbind result_bind mret result_ret except_KeyError]; try discriminate.
    intros [= <- <-]. by apply add_time_voices in Eat.
Qed.

(** A voice leaves the active set exactly when [skip_read] finds its
    string exhausted, and then nothing is queued or timed; every other
    command leaves the set as it is. *)
Theorem voice_removed_iff_exhausted (fuel : nat) (s s' : Sound) (l l' : Locals)
    (voice : nat) (g g1 : StringIO) (c : string) :
  gmls_list l !! voice = Some g →
  skip_read g = (c, g1) →
  play_voice fuel s l voice = Ok (s', l') →
  voices l' = (if String.eqb (upper c) "" then list_remove voice (voices l)
               else voices l)
  ∧ (String.eqb (upper c) "" = true → s' = s ∧ total_time l' = total_time l).
Proof. apply play_voice_active_set. Qed.

Lemma length_list_remove (x : nat) (vs : list nat) :
  (List.length (list_remove x vs) ≤ List.length vs)%nat
  ∧ (x ∈ vs → S (List.length (list_remove x vs)) = List.length vs).
Proof.
  induction vs as [|y vs [IH1 IH2]]; cbn [list_remove List.length].
  - split; [done|]. by intros ?%elem_of_nil.
  - destruct (Nat.eqb_spec x y) as [->|Hne]; cbn [List.length].
    + split; [lia|done].
    + split; [lia|]. intros [?|Hin]%elem_of_cons; [done|]. by rewrite IH2.
Qed.

(** The active set after one command: the same, or one shorter. *)
Lemma play_voice_voices (fuel : nat) (s s' : Sound) (l l' : Locals) (voice : nat) :
  voice ∈ voices l →
  play_voice fuel s l voice = Ok (s', l') →
  voices l' = voices l ∨ S (List.length (voices l')) = List.length (voices l).
Proof.
  intros Hin Hp.
  assert (∃ g, gmls_list l !! voice = Some g) as [g Hg].
  { revert Hp. unfold play_voice, index.
    destruct (play_state s !! voice); cbn [mbind result_bind]; try discriminate.
    destruct (gmls_list l !! voice) as [g|]; [eauto|discriminate]. }
  destruct (skip_read g) as [c g1] eqn:Hsr.
  destruct (play_voice_active_set fuel s s' l l' voice g g1 c Hg Hsr Hp)
    as [Hvs _].
  rewrite Hvs. destruct (String.eqb (upper c) ""); [right|by left].
  by apply length_list_remove.
Qed.

Lemma play_for_length (fuel : nat) (n : nat) :
  ∀ (i : nat) (s s' : Sound) (l l' : Locals),
    play_for fuel n i s l = Ok (s', l') →
    (List.length (voices l') ≤ List.length (voices l))%nat.
Proof.
  induction n as [|n IH]; intros i s s' l l'; cbn [play_for];
    destruct (voices l !! i) as [voice|] eqn:Ei; cbn [mret result_ret];
    try discriminate; try (by intros [= <- <-]).
  destruct (play_voice fuel s l voice) as [[s1 l1]| |] eqn:E;
    cbn [mbind result_bind]; try discriminate.
  intros Hf. apply IH in Hf.
  apply play_voice_voices in E; [|by eapply list_elem_of_lookup_2].
  destruct E as [E|E]; [by rewrite <- E|lia].
Qed.

Lemma play_for_round (fuel : nat) (n : nat) :
  ∀ (i : nat) (s s' : Sound) (l l' : Locals),
    play_for fuel n i s l = Ok (s', l') →
    List.length (voices l') = List.length (voices l) →
    play_each fuel (drop i (voices l)) s l = Ok (s', l') ∧ voices l' = voices l.
Proof.
  induction n as [|n IH]; intros i s s' l l'; cbn [play_for];
    destruct (voices l !! i) as [voice|] eqn:Ei; cbn [mret result_ret];
    try discriminate.
  - intros [= <- <-] _. apply lookup_ge_None in Ei. by rewrite drop_ge.
  - destruct (play_voice fuel s l voice) as [[s1 l1]| |] eqn:E;
      cbn [mbind result_bind]; try discriminate.
    intros Hf Hlen.
    pose proof (play_for_length _ _ _ _ _ _ _ Hf) as Hle.
    pose proof E as Hvs.
    apply play_voice_voices in Hvs; [|by eapply list_elem_of_lookup_2].
    destruct Hvs as [Hvs|Hvs]; [|lia].
    destruct (IH _ _ _ _ _ Hf ltac:(congruence)) as [Heach Hsame].
    split; [|congruence].
    rewrite (drop_S _ _ _ Ei). cbn [play_each]. rewrite E. cbn [mbind result_bind].
    by rewrite <- Hvs.
  - intros [= <- <-] _. apply lookup_ge_None in Ei. by rewrite drop_ge.
Qed.

(** A pass in which no voice runs out executes one command for each
    active voice, in the order of the list: the round robin the loop
    means to do. *)
Theorem pass_without_removal_is_one_round (fuel : nat) (s s' : Sound)
    (l l' : Locals) :
  play_pass fuel s l = Ok (s', l') →
  List.length (voices l') = List.length (voices l) →
  play_each fuel (voices l) s l = Ok (s', l') ∧ voices l' = voices l.
Proof.
  intros Hp Hlen. unfold play_pass in Hp.
  by apply (play_for_round _ _ 0 _ _ _ _ Hp Hlen).
Qed.

End play.

Import Ref.

(** An instance: stopping with twenty tones on voice 1. *)
Lemma stop_all_sound_empties_queues_witness :
  queues_counted busy
  ∧ ∃ s', stop_all_sound busy = Ok s'
      ∧ message_queue s' = message_queue busy ++ [AUDIO_STOP]
      ∧ queue_length s' 1 = Ok 0.
Proof.
  assert (Hc : queues_counted busy).
  { unfold queues_counted.
    assert (Hb : forallb (λ q, qsize q <=? unfinished_tasks q) (tone_queue busy) = true)
      by (vm_compute; reflexivity).
    apply Forall_forall. intros q Hq.
    apply Z.leb_le. rewrite forallb_forall in Hb. apply Hb.
    apply (proj1 (list_elem_of_In _ _)). exact Hq. }
  split; [exact Hc|].
  destruct (stop_all_sound_empties_queues busy Hc) as (s' & Hs & _ & Hm & _ & Hl).
  exists s'. split; [exact Hs|]. split; [exact Hm|].
  apply Hl. vm_compute. lia.
Defined.

(** An instance: [">>>C"] on a reset sound object. *)
Lemma play_keeps_octave_and_volume_in_range_witness :
  play_state_in_range (sound0 "")
  ∧ ∃ s' l', play 10 (sound0 "") [">>>C"; ""; ""] = Ok (s', l')
      ∧ play_state_in_range s'.
Proof.
  assert (Hin : play_state_in_range (sound0 "")).
  { unfold play_state_in_range. cbn. repeat constructor; cbn; lia. }
  split; [exact Hin|].
  destruct (play 10 (sound0 "") [">>>C"; ""; ""]) as [[s' l']| |] eqn:E.
  - exists s', l'. split; [reflexivity|].
    exact (proj2 (play_keeps_octave_and_volume_in_range 10 _ s' _ l' Hin E)).
  - exfalso.
    assert (Hok : is_ok (play 10 (sound0 "") [">>>C"; ""; ""]) = true)
      by (vm_compute; reflexivity).
    rewrite E in Hok. discriminate.
  - exfalso.
    assert (Hok : is_ok (play 10 (sound0 "") [">>>C"; ""; ""]) = true)
      by (vm_compute; reflexivity).
    rewrite E in Hok. discriminate.
Defined.

(** An instance: the letter Z. *)
Lemma unknown_command_is_illegal_witness :
  let s := sound0 "" in
  let l := play_init ["Z"; ""; ""] in
  play_state s !! 0%nat = Some PlayState_init
  ∧ gmls_list l !! 0%nat = Some (StringIO_of "Z")
  ∧ skip_read (StringIO_of "Z") = ("Z", {| buf := "Z"; pos := 1 |})
  ∧ (upper "Z" ∉ [""; ";"; "X"; "N"; "L"; "T"; "O"; ">"; "<"; "A"; "B"; "C"; "D";
                  "E"; "F"; "G"; "P"; "M"; "V"])
  ∧ play_voice 5 s l 0 = Raise (RunError IFC).
Proof.
  intros s l.
  assert (Hz : upper "Z" ∉ [""; ";"; "X"; "N"; "L"; "T"; "O"; ">"; "<"; "A"; "B";
                            "C"; "D"; "E"; "F"; "G"; "P"; "M"; "V"]).
  { rewrite !not_elem_of_cons. split_and!; try discriminate. apply not_elem_of_nil. }
  split; [reflexivity|]. split; [reflexivity|]. split; [reflexivity|].
  split; [exact Hz|].
  exact (proj1 (unknown_command_is_illegal 5 s l 0 PlayState_init (StringIO_of "Z")
                  {| buf := "Z"; pos := 1 |} "Z" eq_refl eq_refl eq_refl) Hz).
Defined.

(** An instance: [L0]. *)
Lemma zero_length_or_tempo_divides_by_zero_witness :
  let s := sound0 "" in
  let l := play_init ["L0"; ""; ""] in
  play_state s !! 0%nat = Some PlayState_init
  ∧ gmls_list l !! 0%nat = Some (StringIO_of "L0")
  ∧ skip_read (StringIO_of "L0") = ("L", {| buf := "L0"; pos := 1 |})
  ∧ (upper "L" = "L" ∨ upper "L" = "T")
  ∧ parse_number {| buf := "L0"; pos := 1 |} = Ok (0, {| buf := "L0"; pos := 2 |})
  ∧ play_voice 5 s l 0 = Raise ZeroDivisionError.
Proof.
  intros s l.
  split; [reflexivity|]. split; [reflexivity|]. split; [reflexivity|].
  split; [left; reflexivity|]. split; [reflexivity|].
  exact (zero_length_or_tempo_divides_by_zero 5 s l 0 PlayState_init
           (StringIO_of "L0") {| buf := "L0"; pos := 1 |}
           {| buf := "L0"; pos := 2 |} "L" eq_refl eq_refl eq_refl
           (or_introl eq_refl) eq_refl).
Defined.

(** An instance: [XA$;E] where the variable holds [CD]. *)
Lemma substring_is_scanned_next_witness :
  let s := sound0 "" in
  let l := play_init ["XA$;E"; ""; ""] in
  let g1 := {| buf := "XA$;E"; pos := 1 |} in
  let g2 := {| buf := "XA$;E"; pos := 4 |} in
  play_state s !! 0%nat = Some PlayState_init
  ∧ gmls_list l !! 0%nat = Some (StringIO_of "XA$;E")
  ∧ (@skip_read (parser_with "CD") (StringIO_of "XA$;E")) = ("X", g1)
  ∧ upper "X" = "X"
  ∧ (@parse_string (parser_with "CD") g1) = Ok ("CD", g2)
  ∧ (pos g2 ≤ String.length (buf g2))%nat
  ∧ ∃ g3, (@play_voice _ _ (parser_with "CD") 5 s l 0) = Ok (s, set_gmls l 0 g3)
      ∧ pos g3 = 4%nat
      ∧ buf g3 = "XA$;CDE"
      ∧ str_from (pos g3) (buf g3) = "CDE".
Proof.
  intros s l g1 g2.
  assert (Hp : (pos g2 ≤ String.length (buf g2))%nat) by (cbn; lia).
  split; [reflexivity|]. split; [reflexivity|]. split; [reflexivity|].
  split; [reflexivity|]. split; [reflexivity|]. split; [exact Hp|].
  destruct (substring_is_scanned_next (H1:=parser_with "CD") 5 s l 0 PlayState_init
              (StringIO_of "XA$;E") g1 g2 "X" "CD" eq_refl eq_refl eq_refl eq_refl
              eq_refl Hp) as (g3 & Hv & Hpos & Hbuf & _ & Hfrom).
  exists g3. split; [exact Hv|]. split; [exact Hpos|]. split; [exact Hbuf|exact Hfrom].
Defined.

(** An instance: an empty string on voice 0. *)
Lemma voice_removed_iff_exhausted_witness :
  let s := sound0 "" in
  let l := play_init [""; "C"; ""] in
  gmls_list l !! 0%nat = Some (StringIO_of "")
  ∧ skip_read (StringIO_of "") = ("", {| buf := ""; pos := 0 |})
  ∧ ∃ s' l', play_voice 5 s l 0 = Ok (s', l')
      ∧ voices l' = [1; 2]%nat ∧ s' = s.
Proof.
  intros s l. split; [reflexivity|]. split; [reflexivity|].
  destruct (play_voice 5 s l 0) as [[s' l']| |] eqn:E.
  - exists s', l'. split; [reflexivity|].
    destruct (voice_removed_iff_exhausted (H1:=literal_parser) 5 s s' l l' 0 (StringIO_of "")
                {| buf := ""; pos := 0 |} "" eq_refl eq_refl E) as [Hvs Hs].
    split; [exact Hvs|]. exact (proj1 (Hs eq_refl)).
  - exfalso.
    assert (Hok : is_ok (play_voice 5 s l 0) = true) by (vm_compute; reflexivity).
    rewrite E in Hok. discriminate.
  - exfalso.
    assert (Hok : is_ok (play_voice 5 s l 0) = true) by (vm_compute; reflexivity).
    rewrite E in Hok. discriminate.
Defined.

(** An instance: the first pass over ["C", "D", "E"] in background mode. *)
Lemma pass_without_removal_is_one_round_witness :
  let s := set_foreground (sound0 "tandy") false in
  let l := play_init ["C"; "D"; "E"] in
  ∃ s' l', play_pass 5 s l = Ok (s', l')
    ∧ List.length (voices l') = List.length (voices l)
    ∧ play_each 5 (voices l) s l = Ok (s', l')
    ∧ voices l' = voices l.
Proof.
  intros s l.
  assert (Hn : (r ← play_pass 5 s l; mret (List.length (voices r.2))) = Ok 3%nat)
    by (vm_compute; reflexivity).
  destruct (play_pass 5 s l) as [[s' l']| |] eqn:E; try discriminate.
  cbn in Hn. injection Hn as Hn.
  exists s', l'. split; [reflexivity|]. split; [exact Hn|].
  exact (pass_without_removal_is_one_round 5 s s' l l' E Hn).
Defined.

(** An instance: a beep on voice 0 of a fresh sound object. *)
Lemma play_sound_no_wait_touches_one_queue_witness :
  let s := sound0 "" in
  tone_queue s !! 0%nat = Some empty_queue
  ∧ List.length (noise_freq s) = 8%nat
  ∧ ∃ s' f', play_sound_no_wait s (fz 800) (fz 1 / fz 4)%fl (fz 1) false 0 15 = Ok s'
      ∧ tone_queue s' !! 0%nat
        = Some (put empty_queue (AUDIO_TONE f' (fz 1 / fz 4)%fl (fz 1) false 15))
      ∧ play_state s' = play_state s.
Proof.
  intros s. split; [reflexivity|]. split; [reflexivity|].
  destruct (play_sound_no_wait_touches_one_queue s (fz 800) (fz 1 / fz 4)%fl (fz 1)
              false 0 15 empty_queue eq_refl eq_refl)
    as (s' & f' & Hs & Hq & _ & _ & Hp & _).
  exists s', f'. split; [exact Hs|]. split; [exact Hq|exact Hp].
Defined.

(** An instance: 440 Hz on voice 2 of a fresh sound object. *)
Lemma noise_follows_voice_two_witness :
  let s := sound0 "" in
  ∃ s' q f',
    play_sound_no_wait s (fz 440) (fz 1 / fz 4)%fl (fz 1) false 2 15 = Ok s'
    ∧ tone_queue s' !! 2%nat
      = Some (put q (AUDIO_TONE f' (fz 1 / fz 4)%fl (fz 1) false 15))
    ∧ ((f' =? fz 0)%fl = true → noise_freq s' = noise_freq s).
Proof.
  intros s.
  destruct (play_sound_no_wait s (fz 440) (fz 1 / fz 4)%fl (fz 1) false 2 15)
    as [s'| |] eqn:E.
  - destruct (noise_follows_voice_two s s' _ _ _ _ _ E) as (q & f' & _ & Hq & Hz & _).
    exists s', q, f'. split; [reflexivity|]. split; [exact Hq|exact Hz].
  - exfalso.
    assert (Hok : is_ok (play_sound_no_wait s (fz 440) (fz 1 / fz 4)%fl (fz 1)
                           false 2 15) = true) by (vm_compute; reflexivity).
    rewrite E in Hok. discriminate.
  - exfalso.
    assert (Hok : is_ok (play_sound_no_wait s (fz 440) (fz 1 / fz 4)%fl (fz 1)
                           false 2 15) = true) by (vm_compute; reflexivity).
    rewrite E in Hok. discriminate.
Defined.

(** An instance: ["CDE"] on voice 0, in the foreground. *)
Lemma foreground_play_returns_when_music_is_over_witness :
  ∃ s' l', play 10 (sound0 "") ["CDE"; ""; ""] = Ok (s', l')
    ∧ foreground s' = true
    ∧ ∃ q0, tone_queue s' !! 0%nat = Some q0 ∧ qsize q0 ≤ 1 ∧ unfinished_tasks q0 = 0.
Proof.
  assert (Hf : (r ← play 10 (sound0 "") ["CDE"; ""; ""]; mret (foreground r.1))
               = Ok true) by (vm_compute; reflexivity).
  destruct (play 10 (sound0 "") ["CDE"; ""; ""]) as [[s' l']| |] eqn:E;
    try discriminate.
  cbn in Hf. injection Hf as Hf.
  exists s', l'. split; [reflexivity|]. split; [exact Hf|].
  destruct (foreground_play_returns_when_music_is_over 10 _ s' _ l' E Hf)
    as (q0 & q1 & q2 & H0 & _ & _ & Hs & Hu & _).
  exists q0. split; [exact H0|]. split; [exact Hs|exact Hu].
Defined.

End sound_extra.

(** ** More on the memory model and the ports *)

Module machine_extra.
Import machine machine_spec.

Section memory.
Context `{Machine}.

(** Without a preset value, the dispatcher never hands out a negative
    byte: every region's answer goes through [max(0, .)]. *)
Theorem get_memory_is_not_negative (m : Memory) (addr v : Z) :
  _peek_values m !! addr = None →
  _get_memory m addr = Ok v →
  0 ≤ v.
Proof.
  intros Hpv. unfold _get_memory, clamp. rewrite Hpv.
  repeat match goal with
  | |- (if ?b then _ else _) = _ → _ => destruct b
  end;
  try (match goal with |- mbind _ ?r = _ → _ => destruct r as [x| |] end;
       cbn [mbind result_bind mret result_ret]; try discriminate);
  intros [= <-]; lia.
Qed.

(** The font regions read 0 outside the glyph tables: in ROM below
    [rom_font_addr] and from 128 glyphs on, in the RAM font segment
    below [ram_font_addr] and from 127 glyphs (characters 128..254) on. *)
Theorem font_regions_read_zero_outside_tables (m : Memory) (addr : Z) :
  _peek_values m !! addr = None →
  rom_segment * 0x10 ≤ addr < rom_segment * 0x10 + rom_font_addr
  ∨ rom_segment * 0x10 + rom_font_addr + 128 * 8 ≤ addr
  ∨ ram_font_segment * 0x10 ≤ addr < ram_font_segment * 0x10 + ram_font_addr
  ∨ ram_font_segment * 0x10 + ram_font_addr + 127 * 8 ≤ addr < rom_segment * 0x10 →
  _get_memory m addr = Ok 0.
Proof.
  intros Hpv Hr. unfold _get_memory, clamp, _get_rom_memory, _get_font_memory.
  rewrite Hpv.
  unfold rom_segment, rom_font_addr, ram_font_segment, ram_font_addr in *.
  destruct (Z.leb_spec (0xf000 * 16) addr).
  - assert (E : (127 <? (addr - (0xf000 * 16 + 0xfa6e)) / 8)
                || ((addr - (0xf000 * 16 + 0xfa6e)) / 8 <? 0) = true).
    { apply orb_true_iff. rewrite !Z.ltb_lt.
      destruct Hr as [Hr|[Hr|[Hr|Hr]]]; try lia.
      - right. apply Z.div_lt_upper_bound; lia.
      - left. apply Z.lt_le_trans with 128; [lia|]. apply Z.div_le_lower_bound; lia. }
    rewrite E. reflexivity.
  - destruct (Z.leb_spec (0xc000 * 16) addr); [|lia].
    assert (E : ((addr - (0xc000 * 16 + 0x500)) / 8 + 128 <? 128)
                || (254 <? (addr - (0xc000 * 16 + 0x500)) / 8 + 128) = true).
    { apply orb_true_iff. rewrite !Z.ltb_lt.
      destruct Hr as [Hr|[Hr|[Hr|Hr]]]; try lia.
      - left. assert ((addr - (0xc000 * 16 + 0x500)) / 8 < 0); [|lia].
        apply Z.div_lt_upper_bound; lia.
      - right. assert (127 ≤ (addr - (0xc000 * 16 + 0x500)) / 8); [|lia].
        apply Z.div_le_lower_bound; lia. }
    rewrite E. reflexivity.
Qed.

Lemma slice_insert (k v : Z) (old : list Z) :
  0 ≤ k → (Z.to_nat k < List.length old)%nat →
  slice_upto k old ++ [v] ++ slice_from (k + 1) old = <[Z.to_nat k:=v]> old.
Proof.
  intros Hk Hlen. unfold slice_upto, slice_from, slice_bound.
  destruct (Z.ltb_spec k 0); [lia|]. destruct (Z.ltb_spec (k + 1) 0); [lia|].
  rewrite Z.max_r, Z.max_r by lia.
  replace (Z.to_nat (k + 1)) with (S (Z.to_nat k)) by lia.
  symmetry. by apply insert_take_drop.
Qed.

Lemma getitem_nat {A} (l : list A) (k : Z) (x : A) :
  0 ≤ k → l !! Z.to_nat k = Some x → getitem l k = Ok x.
Proof.
  intros Hk Hx. unfold getitem. destruct (Z.ltb_spec k 0); [lia|].
  destruct (Z.ltb_spec k 0); [lia|]. by rewrite Hx.
Qed.

(** A byte written into a glyph of the RAM font is the byte read back
    at that address; the write replaces that one byte of the glyph,
    asks for the glyph to be rebuilt and leaves everything else alone.
    The character must have a code point in the codepage and a glyph of
    eight bytes in the font. *)
Theorem ram_font_poke_then_peek (m : Memory) (addr v : Z) (uc : ustring)
    (glyph : list Z) :
  let a := addr - (ram_font_segment * 0x10 + ram_font_addr) in
  let char := a / 8 + 128 in
  128 ≤ char ≤ 254 →
  0 ≤ v ≤ 255 →
  to_unicode char [] = uc →
  uc ≠ [] →
  to_unicode char [0] = uc →
  fontdict m !! uc = Some glyph →
  List.length glyph = 8%nat →
  _peek_values m !! addr = None →
  ∃ m', _set_memory addr v m = (Ok (), m')
    ∧ _get_memory m' addr = Ok v
    ∧ fontdict m' = <[uc:=<[Z.to_nat (a mod 8):=v]> glyph]> (fontdict m)
    ∧ rebuilt_glyphs (screen m') = rebuilt_glyphs (screen m) ++ [char]
    ∧ mode (screen m') = mode (screen m)
    ∧ data m' = data m
    ∧ keyboard m' = keyboard m
    ∧ settings m' = settings m.
Proof.
  intros a char Hchar Hv Huc Hne Huc0 Hglyph Hlen Hpv.
  assert (Ha : 0 ≤ a < 1016).
  { subst char. split.
    - destruct (Z.lt_ge_cases a 0) as [Hneg|]; [|done].
      assert (a / 8 < 0) by (apply Z.div_lt_upper_bound; lia). lia.
    - destruct (Z.lt_ge_cases a 1016) as [|Hbig]; [done|].
      assert (127 ≤ a / 8) by (apply Z.div_le_lower_bound; lia). lia. }
  assert (Hk : 0 ≤ a mod 8 < 8) by (apply Z.mod_pos_bound; lia).
  assert (Haddr : ram_font_segment * 16 ≤ addr < rom_segment * 16).
  { subst a. unfold ram_font_segment, ram_font_addr, rom_segment in *. lia. }
  assert (Hchr : chr char = Ok char).
  { unfold chr. destruct (Z.leb_spec 0 char); [|lia].
    destruct (Z.ltb_spec char 256); [done|lia]. }
  assert (Hchrv : chr v = Ok v).
  { unfold chr. destruct (Z.leb_spec 0 v); [|lia].
    destruct (Z.ltb_spec v 256); [done|lia]. }
  assert (Hsel : (char <? 128) || (254 <? char) = false).
  { apply orb_false_iff. rewrite !Z.ltb_ge. lia. }
  destruct uc as [|u0 uc']; [done|].
  eexists. split.
  { unfold _set_memory.
    destruct (Z.leb_spec (rom_segment * 16) addr); [lia|].
    destruct (Z.leb_spec (ram_font_segment * 16) addr); [|lia].
    unfold _set_font_memory. fold a. fold char. rewrite Hsel, Hchr, Huc.
    unfold dict_get. rewrite Hglyph, Hchrv.
    rewrite slice_insert by lia. reflexivity. }
  split_and!; try reflexivity.
  unfold _get_memory. cbn [_peek_values set_screen set_fontdict]. rewrite Hpv.
  destruct (Z.leb_spec (rom_segment * 16) addr); [lia|].
  destruct (Z.leb_spec (ram_font_segment * 16) addr); [|lia].
  unfold _get_font_memory, glyph_byte. fold a. fold char. rewrite Hsel, Hchr.
  cbn [mbind result_bind fontdict set_screen set_fontdict]. rewrite Huc0.
  unfold dict_get. rewrite lookup_insert_eq. cbn [mbind result_bind].
  rewrite (getitem_nat _ _ v); [|lia|].
  - unfold clamp. cbn. f_equal. lia.
  - apply list_lookup_insert_eq. lia.
Qed.

(** Low memory takes writes at the keyboard flag byte, the two ring
    buffer pointers and the ring slots only.  A byte written to the flag
    byte (1047) is read back; a write to any other low address is
    dropped without an error. *)
Theorem low_memory_writes (m : Memory) (addr v : Z) :
  0 ≤ addr < data_segment (data m) * 0x10 →
  data_segment (data m) ≤ video_segment →
  (addr = 1047 →
     _set_memory addr v m = (Ok (), set_keyboard m (set_mod (keyboard m) v))
     ∧ (_peek_values m !! addr = None → 0 ≤ v →
        _get_memory (set_keyboard m (set_mod (keyboard m) v)) addr = Ok v))
  ∧ (addr ≠ 1047 → addr ≠ 1050 → addr ≠ 1052 → ¬ (1054 ≤ addr < 1086) →
     _set_memory addr v m = (Ok (), m)).
Proof.
  intros Haddr Hseg.
  assert (Hdisp : ∀ m' : Memory, data m' = data m →
    (rom_segment * 16 <=? addr) = false ∧ (ram_font_segment * 16 <=? addr) = false
    ∧ (video_segment * 16 <=? addr) = false
    ∧ (data_segment (data m') * 16 <=? addr) = false ∧ (0 <=? addr) = true).
  { intros m' ->. unfold rom_segment, ram_font_segment, video_segment in *.
    rewrite !Z.leb_gt, Z.leb_le. lia. }
  split.
  - intros ->. split.
    + unfold _set_memory.
      destruct (Hdisp m eq_refl) as (-> & -> & -> & -> & ->). reflexivity.
    + intros Hpv Hv. unfold _get_memory. cbn [_peek_values set_keyboard]. rewrite Hpv.
      destruct (Hdisp (set_keyboard m (set_mod (keyboard m) v)) eq_refl)
        as (-> & -> & -> & -> & ->).
      unfold clamp, _get_low_memory. rewrite Z.sub_0_r.
      repeat match goal with
      | |- context [1047 =? ?k] =>
          let b := eval vm_compute in (1047 =? k) in change (1047 =? k) with b
      end.
      cbn [mbind result_bind mret result_ret keyboard set_keyboard mod_ set_mod].
      rewrite Z.max_r by lia. reflexivity.
  - intros N1 N2 N3 N4. unfold _set_memory.
    destruct (Hdisp m eq_refl) as (-> & -> & -> & -> & ->).
    unfold _set_low_memory, in_range, key_buffer_offset. rewrite Z.sub_0_r.
    destruct (Z.eqb_spec addr 1047); [done|].
    destruct (Z.eqb_spec addr 1050); [done|].
    destruct (Z.eqb_spec addr 1052); [done|].
    destruct (Z.leb_spec (1024 + 30) addr); cbn [andb]; [|done].
    destruct (Z.ltb_spec addr (1024 + 30 + 32)); cbn [andb]; [lia|done].
Qed.

Lemma _set_font_memory_settings (addr val : Z) (m : Memory) :
  settings (_set_font_memory addr val m).2 = settings m.
Proof. unfold _set_font_memory. repeat case_match; reflexivity. Qed.

Lemma _set_low_memory_settings (m m' : Memory) (addr val : Z) :
  _set_low_memory m addr val = Ok m' → settings m' = settings m.
Proof.
  unfold _set_low_memory, chr.
  repeat case_match; cbn [mbind result_bind mret result_ret];
    try discriminate; by intros [= <-].
Qed.

Lemma _set_memory_settings (addr val : Z) (m : Memory) :
  settings (_set_memory addr val m).2 = settings m.
Proof.
  unfold _set_memory.
  repeat match goal with
  | |- context [if ?b then _ else _] => destruct b
  end; try reflexivity.
  - apply _set_font_memory_settings.
  - destruct (_set_low_memory m addr val) as [m'| |] eqn:E; try reflexivity.
    by apply _set_low_memory_settings in E.
Qed.

Lemma set_bytes_settings (buf : list Z) :
  ∀ (addr : Z) (m : Memory), settings (set_bytes addr buf m).2 = settings m.
Proof.
  induction buf as [|b buf IH]; intros addr m; [reflexivity|].
  cbn [set_bytes]. unfold mbind, M_bind.
  pose proof (_set_memory_settings addr b m) as Hs.
  destruct (_set_memory addr b m) as [[[]| |] m1]; cbn [snd] in *; try done.
  by rewrite IH.
Qed.

Lemma _set_memory_block_settings (addr : Z) (buf : list Z) (m : Memory) :
  settings (_set_memory_block addr buf m).2 = settings m.
Proof.
  unfold _set_memory_block. destruct (video_segment * 16 <=? addr).
  - unfold mbind, M_bind, modify. by rewrite set_bytes_settings.
  - apply set_bytes_settings.
Qed.

(** POKE, BLOAD and BSAVE, whether they succeed or fail, leave the
    segment, the preset table, the run mode, the syntax flag and the
    device table as they were; with the preset table empty at
    construction, it is empty for good. *)
Theorem statements_keep_settings (m : Memory) (pk : Value * Value)
    (bl : Value * option Value) (bs : Value * Value * Value) :
  settings (poke_ pk m).2 = settings m
  ∧ settings (bload_ bl m).2 = settings m
  ∧ settings (bsave_ bs m).2 = settings m
  ∧ ∀ data_memory devs fs scr kbd font_8 running peek_values syntax,
      _peek_values (Memory_init data_memory devs fs scr kbd font_8 running
                      peek_values syntax) = ∅.
Proof.
  split_and!.
  - unfold poke_, poke_unlocked, mbind, M_bind, lift, get, raise.
    destruct (to_int true pk.1); try reflexivity.
    destruct (locked m); try reflexivity.
    destruct (to_int false pk.2); try reflexivity.
    destruct (range_check 0 255 a0); try reflexivity.
    apply _set_memory_settings.
  - unfold bload_, bload_unlocked, mbind, M_bind, lift, get, raise.
    destruct (locked m); try reflexivity.
    destruct bl.2 as [v|].
    + destruct (to_int true v); cbn [mbind result_bind mret result_ret];
        try reflexivity.
      destruct (open_I (files m) bl.1) as [[[seg off] content]| |]; try reflexivity.
      destruct (bytearray content); try reflexivity.
      apply _set_memory_block_settings.
    + cbn [mret result_ret].
      destruct (open_I (files m) bl.1) as [[[seg off] content]| |]; try reflexivity.
      destruct (bytearray content); try reflexivity.
      apply _set_memory_block_settings.
  - unfold bsave_, bsave_unlocked, mbind, M_bind, lift, get, raise.
    destruct (locked m); try reflexivity.
    destruct bs as [[nm off] len].
    destruct (to_int true off); try reflexivity.
    destruct (to_int true len); try reflexivity.
    destruct (open_O _ _ _ _ _); try reflexivity.
    unfold bsave_write. repeat case_match; reflexivity.
  - reflexivity.
Qed.

Lemma length_range (a b : Z) : List.length (range a b) = Z.to_nat (b - a).
Proof. unfold range. by rewrite length_fmap, length_seq. Qed.

Lemma lookup_range (a b : Z) (i : nat) :
  (i < Z.to_nat (b - a))%nat → range a b !! i = Some (a + Z.of_nat i).
Proof.
  intros Hi. unfold range. rewrite list_lookup_fmap, lookup_seq_lt by done. done.
Qed.

Lemma get_bytes_spec (m : Memory) (addrs : list Z) :
  ∀ block, get_bytes m addrs = Ok block →
    List.length block = List.length addrs
    ∧ ∀ i a, addrs !! i = Some a →
        ∃ v b, _get_memory m a = Ok v ∧ block !! i = Some b
          ∧ b = Z.max 0 v ∧ 0 ≤ b ≤ 255.
Proof.
  induction addrs as [|a0 addrs IH]; intros block; cbn [get_bytes].
  - intros [= <-]. split; [done|]. intros i a Hi. by rewrite lookup_nil in Hi.
  - destruct (_get_memory m a0) as [v0| |] eqn:E0; cbn [mbind result_bind];
      try discriminate.
    unfold chr. destruct (Z.leb_spec 0 (0 `max` v0)); cbn [andb]; [|lia].
    destruct (Z.ltb_spec (0 `max` v0) 256); cbn [mbind result_bind]; try discriminate.
    destruct (get_bytes m addrs) as [bs| |]; cbn [mbind result_bind mret result_ret];
      try discriminate.
    intros [= <-]. destruct (IH bs eq_refl) as [Hlen Hall].
    split; [cbn; by rewrite Hlen|].
    intros [|i] a Hi; cbn in Hi.
    + injection Hi as <-. exists v0, (0 `max` v0). split_and!; try done; lia.
    + apply Hall in Hi. exact Hi.
Qed.

(** A block read that lies below the video segment and succeeds gives
    exactly [length] bytes, the byte at position [i] being the byte of
    address [addr + i] as the dispatcher returns it, clamped at 0; each
    is within 0..255 (a larger value makes the read fail). *)
Theorem block_read_below_video (m : Memory) (addr length : Z) (block : list Z) :
  0 ≤ length →
  addr < video_segment * 0x10 →
  _get_memory_block m addr length = Ok block →
  List.length block = Z.to_nat length
  ∧ ∀ i : nat, (i < Z.to_nat length)%nat →
      ∃ v b, _get_memory m (addr + Z.of_nat i) = Ok v ∧ block !! i = Some b
        ∧ b = Z.max 0 v ∧ 0 ≤ b ≤ 255.
Proof.
  intros Hlen Haddr. unfold _get_memory_block.
  destruct (Z.leb_spec (video_segment * 16) addr); [lia|].
  cbn [mbind result_bind mret result_ret].
  destruct (get_bytes m (range addr (addr + length))) as [rest| |] eqn:E;
    cbn [mbind result_bind]; try discriminate.
  intros [= <-]. cbn [app].
  destruct (get_bytes_spec m _ rest E) as [Hl Hall].
  rewrite length_range in Hl. replace (addr + length - addr) with length in Hl by lia.
  split; [done|]. intros i Hi. apply Hall. apply lookup_range. 
  by replace (addr + length - addr) with length by lia.
Qed.

(** POKE and then PEEK in data memory: with the program not protected,
    a byte 0..255 poked at an offset whose address lies between the data
    segment and the video segment, and has no preset value, is the byte
    peeked at that offset.  The memory after the POKE is the memory
    before it with that one byte stored in the data memory: the screen,
    the keyboard, the font, the files and the settings are the same
    objects as before.  The data memory is assumed to give back what is
    stored in it and to keep its segment and protection flag over a
    store. *)
Theorem poke_then_peek_in_data_memory (m : Memory) (a vv : Value) (addr v : Z) :
  (∀ d x y, data_get_memory (data_set_memory d x y) x = y) →
  (∀ d x y, data_segment (data_set_memory d x y) = data_segment d) →
  (∀ d x y, protected (data_set_memory d x y) = protected d) →
  locked m = false →
  to_int true a = Ok addr → 0 ≤ addr →
  to_int false vv = Ok v → 0 ≤ v ≤ 255 →
  data_segment (data m) * 0x10 ≤ addr + segment m * 0x10 < video_segment * 0x10 →
  _peek_values m !! (addr + segment m * 0x10) = None →
  let m' := {| data := data_set_memory (data m) (addr + segment m * 0x10) v;
               devices := devices m; files := files m; screen := screen m;
               keyboard := keyboard m; run_mode := run_mode m;
               fontdict := fontdict m; segment := segment m;
               _peek_values := _peek_values m;
               tandy_syntax := tandy_syntax m |} in
  poke_ (a, vv) m = (Ok (), m') ∧ peek_ m' a = Ok v.
Proof.
  intros Hget Hseg Hprot Hl Ha Haddr Hv Hval Hreg Hpv m'.
  set (abs := addr + segment m * 0x10) in *.
  change m' with (set_data m (data_set_memory (data m) abs v)). clear m'.
  assert (Hregion : (rom_segment * 16 <=? abs) = false
                    ∧ (ram_font_segment * 16 <=? abs) = false
                    ∧ (video_segment * 16 <=? abs) = false
                    ∧ (data_segment (data m) * 16 <=? abs) = true).
  { unfold rom_segment, ram_font_segment, video_segment in *.
    rewrite !Z.leb_gt, Z.leb_le. lia. }
  destruct Hregion as (R1 & R2 & R3 & R4).
  split.
  - unfold poke_, poke_unlocked, mbind, M_bind, lift, get, raise. cbn [fst snd].
    rewrite Ha, Hl, Hv. unfold range_check.
    destruct (Z.ltb_spec v 0); [lia|]. destruct (Z.ltb_spec 255 v); [lia|].
    cbn [orb]. destruct (Z.ltb_spec addr 0); [lia|].
    fold abs. unfold _set_memory. by rewrite R1, R2, R3, R4.
  - unfold peek_, locked. cbn [data run_mode set_data]. rewrite Hprot.
    fold (locked m). rewrite Hl. unfold peek_unlocked. rewrite Ha.
    cbn [mbind result_bind segment set_data]. fold abs.
    unfold _get_memory. cbn [_peek_values data set_data]. rewrite Hpv.
    rewrite R1, R2, R3, Hseg, R4, Hget. unfold clamp.
    cbn [mbind result_bind mret result_ret]. f_equal. lia.
Qed.

End memory.

Section ports.
Context `{PortDevices}.

(** [out_com_st] ends as [out_com] does, and on a normal return leaves
    the object [out_com] returns. *)
Lemma out_com_st_outcome (addr val : Z) (p : MachinePorts) (entry : Z * nat) :
  outcome (out_com_st addr val entry p) = out_com addr val p entry.
Proof.
  destruct entry as [base_addr nr].
  unfold out_com_st, out_com, outcome, mbind, M_bind, lift, get, modify, mret, M_ret.
  destruct (index (com_device p) nr) as [[stream|]| |]; cbn [result_bind]; try done.
  destruct (index (com_enable_baud_write p) nr) as [enable| |];
    cbn [result_bind]; try done.
  destruct (((addr =? base_addr) || (addr =? base_addr + 1)) && enable).
  { destruct (index (com_baud_divisor p) nr) as [old| |]; cbn [result_bind];
      try done.
    destruct (negb _); [destruct (get_params stream) as [[[? ?] ?] ?]|]; done. }
  destruct (addr =? base_addr + 3).
  { destruct (get_params stream) as [[[baud parity] bytesize] stopbits].
    destruct (negb (Z.land val 0x80 =? 0)); cbn [com_break set_com_enable_baud_write];
      (destruct (index (com_break p) nr); cbn [result_bind]; try done);
      destruct (dict_get lcr_parity _); done. }
  by destruct (addr =? base_addr + 4).
Qed.

Lemma out_coms_st_outcome (addr val : Z) (entries : list (Z * nat)) :
  ∀ p : MachinePorts,
    outcome (out_coms_st addr val entries p) = out_coms addr val p entries.
Proof.
  induction entries as [|entry entries IH]; intros p; cbn [out_coms_st out_coms];
    [done|].
  rewrite <- out_com_st_outcome. unfold mbind at 1, M_bind at 1.
  destruct (out_com_st addr val entry p) as [[[]| |] p1]; cbn [outcome result_bind mbind];
    [apply IH|done|done].
Qed.

(** The two models of [out_] agree on how the call ends and on the
    object after a normal return. *)
Lemma out_st_outcome (addr val : Z) (p : MachinePorts) :
  outcome (out_st addr val p) = out_ p addr val.
Proof.
  unfold out_st, out_.
  destruct (addr =? 0x201); [done|].
  destruct (addr =? 0x3c5); [done|].
  destruct (addr =? 0x3cf); [done|].
  destruct (addr =? 0x3d8); [done|].
  destruct (bool_decide _).
  - unfold outcome, mbind, M_bind, lift, get, modify, mret, M_ret.
    destruct (index (lpt_device p) _) as [[stream|]| |]; cbn [result_bind]; try done.
    destruct (addr - _ =? 0); [|done].
    destruct (chr val); done.
  - unfold mbind at 1, M_bind at 1, get. apply out_coms_st_outcome.
Qed.




(** A line control write whose parity bits (3 to 5) read 010, 100 or
    110 is not in the table of parities: on a port with a stream the
    write ends with Python's [KeyError]. *)
Theorem line_control_write_with_unknown_parity (stick : Stick) (scr : PortScreen)
    (lpt : list (option Parallel)) (d0 d1 : option Serial) (e0 e1 : bool)
    (v0 v1 : Z) (b0 b1 : bool) (nr : nat) (stream : Serial) (val : Z) :
  let p := {| session_stick := stick; session_screen := scr; lpt_device := lpt;
              com_base := [(0x3f8, 0%nat); (0x2f8, 1%nat)];
              com_device := [d0; d1]; com_enable_baud_write := [e0; e1];
              com_baud_divisor := [v0; v1]; com_break := [b0; b1] |} in
  let base := if Nat.eqb nr 0 then 0x3f8 else 0x2f8 in
  com_device p !! nr = Some (Some stream) →
  Z.land val 0x38 = 0x10 ∨ Z.land val 0x38 = 0x20 ∨ Z.land val 0x38 = 0x30 →
  out_ p (base + 3) val = Raise KeyError.
Proof.
  intros p base Hd Hpar.
  assert (Hnr : nr = 0%nat ∨ nr = 1%nat).
  { apply lookup_lt_Some in Hd. cbn in Hd. lia. }
  assert (Hlcr : ∀ (q : MachinePorts) (b : Z) (k : nat) (e brk : bool),
    com_device q !! k = Some (Some stream) →
    com_enable_baud_write q !! k = Some e →
    com_break q !! k = Some brk →
    out_com (b + 3) val q (b, k) = Raise KeyError).
  { intros q b k e brk Hq He Hb. unfold out_com.
    rewrite (sound_spec.index_Some _ _ _ Hq). cbn [mbind result_bind].
    rewrite (sound_spec.index_Some _ _ _ He). cbn [mbind result_bind].
    destruct (Z.eqb_spec (b + 3) b); [lia|].
    destruct (Z.eqb_spec (b + 3) (b + 1)); [lia|]. cbn [orb andb].
    rewrite Z.eqb_refl.
    destruct (get_params stream) as [[[baud parity] bytesize] stopbits].
    assert (Hpar' : dict_get lcr_parity (Z.land val 0x38) = Raise KeyError).
    { destruct Hpar as [-> | [-> | ->]]; reflexivity. }
    destruct (negb (Z.land val 0x80 =? 0)); cbn [com_break set_com_enable_baud_write];
      rewrite (sound_spec.index_Some _ _ _ Hb); cbn [mbind result_bind];
      by rewrite Hpar'. }
  unfold out_.
  assert (Hne : base + 3 ≠ 0x201 ∧ base + 3 ≠ 0x3c5 ∧ base + 3 ≠ 0x3cf
                ∧ base + 3 ≠ 0x3d8 ∧ base + 3 ∉ [0x378; 0x37A; 0x278; 0x27A]).
  { subst base. rewrite !not_elem_of_cons.
    destruct Hnr as [-> | ->]; cbn; split_and!; try lia; apply not_elem_of_nil. }
  destruct Hne as (N1 & N2 & N3 & N4 & N5).
  destruct (Z.eqb_spec (base + 3) 0x201); [done|].
  destruct (Z.eqb_spec (base + 3) 0x3c5); [done|].
  destruct (Z.eqb_spec (base + 3) 0x3cf); [done|].
  destruct (Z.eqb_spec (base + 3) 0x3d8); [done|].
  rewrite bool_decide_eq_false_2 by done.
  cbn [com_base p out_coms]. subst base.
  destruct Hnr as [-> | ->]; cbn [Nat.eqb].
  - rewrite (Hlcr p 0x3f8 0%nat e0 b0); [done|exact Hd|done|done].
  - rewrite out_com_other; [|cbn; lia|cbn; lia|lia|lia|lia|lia].
    cbn [mbind result_bind].
    rewrite (Hlcr p 0x2f8 1%nat e1 b1); [done|exact Hd|done|done].
Qed.

Lemma laid_out_init (stick : Stick) (scr : PortScreen)
    (lpt1 lpt2 : option Parallel) (com1 com2 : option Serial) :
  laid_out (MachinePorts_init stick scr lpt1 lpt2 com1 com2).
Proof. by repeat split. Qed.

Lemma index_lt {A} (l : list A) (i : nat) :
  (i < List.length l)%nat → ∃ x, l !! i = Some x ∧ index l i = Ok x.
Proof.
  intros Hi. destruct (lookup_lt_is_Some_2 l i Hi) as [x E].
  exists x. split; [done|]. by apply sound_spec.index_Some.
Qed.

Lemma lcr_parity_known (x : Z) :
  x ∈ [0; 0x8; 0x18; 0x28; 0x38] →
  ∃ parity, dict_get lcr_parity x = Ok parity.
Proof.
  rewrite !elem_of_cons. intros [->|[->|[->|[->|[->|Hx]]]]];
    [by eexists..|by apply elem_of_nil in Hx].
Qed.

(** One turn of the serial loop of [out_] on a byte. *)
Lemma out_com_ok (addr val : Z) (p : MachinePorts) (base_addr : Z) (nr : nat) :
  laid_out p → (nr < 2)%nat →
  (addr = base_addr + 3 → Z.land val 0x38 ∈ [0; 0x8; 0x18; 0x28; 0x38]) →
  ∃ p', out_com addr val p (base_addr, nr) = Ok p' ∧ laid_out p'.
Proof.
  intros (Hb & Hl & Hd & He & Hv & Hk) Hnr Hpar. unfold out_com.
  destruct (index_lt (com_device p) nr) as (dev & _ & ->); [lia|].
  cbn [mbind result_bind]. destruct dev as [stream|]; [|by eexists].
  destruct (index_lt (com_enable_baud_write p) nr) as (enable & _ & ->); [lia|].
  cbn [mbind result_bind].
  destruct (((addr =? base_addr) || (addr =? base_addr + 1)) && enable).
  { destruct (index_lt (com_baud_divisor p) nr) as (old & _ & ->); [lia|].
    cbn [mbind result_bind].
    destruct (negb _); [destruct (get_params stream) as [[[? ?] ?] ?]|];
      eexists; (split; [done|]); repeat split; cbn; by rewrite ?length_insert. }
  destruct (Z.eqb_spec addr (base_addr + 3)) as [Ha|].
  { destruct (get_params stream) as [[[baud parity] bytesize] stopbits].
    destruct (lcr_parity_known _ (Hpar Ha)) as [par Epar].
    destruct (negb (Z.land val 0x80 =? 0)); cbn [com_break set_com_enable_baud_write].
    - destruct (index_lt (com_break p) nr) as (brk & _ & ->); [lia|].
      cbn [mbind result_bind]. rewrite Epar. cbn [mbind result_bind].
      eexists; (split; [done|]); repeat split; cbn; by rewrite ?length_insert.
    - destruct (index_lt (com_break p) nr) as (brk & _ & ->); [lia|].
      cbn [mbind result_bind]. rewrite Epar. cbn [mbind result_bind].
      eexists; (split; [done|]); repeat split; cbn; by rewrite ?length_insert. }
  destruct (addr =? base_addr + 4);
    eexists; (split; [done|]); repeat split; cbn; by rewrite ?length_insert.
Qed.

(** [OUT] of a byte goes through on every port but one: only a line
    control write (to [0x3fb] or [0x2fb]) with parity bits outside the
    table can fail.  The layout of the ports stays as it was. *)
Theorem out_of_a_byte_succeeds (p : MachinePorts) (addr val : Z) :
  laid_out p → 0 ≤ val ≤ 255 →
  (addr ∈ [0x3fb; 0x2fb] → Z.land val 0x38 ∈ [0; 0x8; 0x18; 0x28; 0x38]) →
  ∃ p', out_ p addr val = Ok p' ∧ laid_out p'.
Proof.
  intros Hp Hval Hpar. unfold out_.
  destruct (addr =? 0x201); [by eexists|].
  destruct (addr =? 0x3c5); [by eexists|].
  destruct (addr =? 0x3cf); [by eexists|].
  destruct (addr =? 0x3d8); [by eexists|].
  destruct (bool_decide _).
  - destruct Hp as (Hb & Hl & Hd & He & Hv & Hk).
    destruct (index_lt (lpt_device p) (if 0x378 <=? addr then 0%nat else 1%nat))
      as (dev & _ & ->); [destruct (0x378 <=? addr); lia|].
    cbn [mbind result_bind]. destruct dev as [stream|]; [|by eexists].
    destruct (addr - _ =? 0).
    + unfold chr. destruct (Z.leb_spec 0 val); [|lia].
      destruct (Z.ltb_spec val 256); [|lia]. cbn [andb mbind result_bind].
      eexists; (split; [done|]); repeat split; cbn; by rewrite ?length_insert.
    + eexists; (split; [done|]); repeat split; cbn; by rewrite ?length_insert.
  - pose proof Hp as (Hb & _). rewrite Hb. cbn [out_coms].
    destruct (out_com_ok addr val p 0x3f8 0%nat) as (p1 & -> & Hp1); [done|lia| |].
    { intros ->. apply Hpar. apply list_elem_of_here. }
    cbn [mbind result_bind].
    destruct (out_com_ok addr val p1 0x2f8 1%nat) as (p2 & -> & Hp2); [done|lia| |].
    { intros ->. apply Hpar. apply list_elem_of_further, list_elem_of_here. }
    cbn [mbind result_bind]. by exists p2.
Qed.

End ports.

Section inputs.
Context `{Float} `{PortDevices} `{!PortInputs}.

(** The line control write at the turn of its own port. *)
Lemma out_com_lcr (val : Z) (p : MachinePorts) (base_addr : Z) (nr : nat)
    (stream : Serial) (e brk0 : bool) (parity : string) :
  com_device p !! nr = Some (Some stream) →
  com_enable_baud_write p !! nr = Some e →
  com_break p !! nr = Some brk0 →
  dict_get lcr_parity (Z.land val 0x38) = Ok parity →
  ∃ p', out_com (base_addr + 3) val p (base_addr, nr) = Ok p'
    ∧ laid_out p = laid_out p'
    ∧ lpt_device p' = lpt_device p
    ∧ com_base p' = com_base p
    ∧ com_device p' =
        <[nr:=Some (set_pins_brk
                 (set_params stream (get_params stream).1.1.1 parity
                    (Z.land val 0x3 + 5)
                    (if negb (Z.land val 0x4 =? 0) then 2 else 1))
                 (negb (Z.land val 0x40 =? 0)))]> (com_device p)
    ∧ com_enable_baud_write p' =
        <[nr:=e || negb (Z.land val 0x80 =? 0)]> (com_enable_baud_write p)
    ∧ com_break p' = <[nr:=negb (Z.land val 0x40 =? 0)]> (com_break p).
Proof.
  intros Hd He Hb Hpar. unfold out_com.
  rewrite (sound_spec.index_Some _ _ _ Hd). cbn [mbind result_bind].
  rewrite (sound_spec.index_Some _ _ _ He). cbn [mbind result_bind].
  destruct (Z.eqb_spec (base_addr + 3) base_addr); [lia|].
  destruct (Z.eqb_spec (base_addr + 3) (base_addr + 1)); [lia|]. cbn [orb andb].
  rewrite Z.eqb_refl.
  destruct (get_params stream) as [[[baud par0] bytesize] stopbits].
  destruct (negb (Z.land val 0x80 =? 0)); cbn [com_break set_com_enable_baud_write];
    rewrite (sound_spec.index_Some _ _ _ Hb); cbn [mbind result_bind];
    rewrite Hpar; cbn [mbind result_bind]; eexists; (split; [done|]);
    unfold laid_out; cbn; rewrite ?length_insert, ?orb_true_r, ?orb_false_r;
    split_and!; try done.
  symmetry. by apply list_insert_id.
Qed.

(** A read at the turn of a serial port the address does not belong to. *)
Lemma inp_com_other (port : Z) (p : MachinePorts) (base_addr : Z) (nr : nat) :
  (nr < List.length (com_device p))%nat →
  port ≠ base_addr + 3 → port ≠ base_addr + 5 → port ≠ base_addr + 6 →
  inp_com port p (base_addr, nr) = Ok None.
Proof.
  intros Hnr H3 H5 H6. unfold inp_com.
  destruct (index_lt (com_device p) nr) as (dev & _ & ->); [done|].
  cbn [mbind result_bind]. destruct dev as [stream|]; [|done].
  destruct (Z.eqb_spec port (base_addr + 3)); [done|].
  destruct (Z.eqb_spec port (base_addr + 5)); [done|].
  destruct (Z.eqb_spec port (base_addr + 6)); [done|]. done.
Qed.

(** The line control read at the turn of its own port. *)
Lemma inp_com_lcr (p : MachinePorts) (base_addr : Z) (nr : nat) (stream : Serial)
    (e brk : bool) (baud : Z) (parity : string) (bytesize stopbits code : Z) :
  com_device p !! nr = Some (Some stream) →
  get_params stream = (baud, parity, bytesize, stopbits) →
  com_enable_baud_write p !! nr = Some e →
  com_break p !! nr = Some brk →
  dict_get lcr_code parity = Ok code →
  inp_com (base_addr + 3) p (base_addr, nr) =
    Ok (Some (Z.b2z e * 0x80 + Z.b2z brk * 0x40 + code
              + (if 1 <? stopbits then 0x4 else 0) + (bytesize - 5))).
Proof.
  intros Hd Hg He Hb Hc. unfold inp_com.
  rewrite (sound_spec.index_Some _ _ _ Hd). cbn [mbind result_bind].
  rewrite Z.eqb_refl, Hg.
  rewrite (sound_spec.index_Some _ _ _ He). cbn [mbind result_bind].
  rewrite (sound_spec.index_Some _ _ _ Hb). cbn [mbind result_bind].
  rewrite Hc. cbn [mbind result_bind].
  destruct (1 <? stopbits); do 2 f_equal; lia.
Qed.

(** The two parity tables are inverse to each other. *)
Lemma lcr_code_of_parity (x : Z) (parity : string) :
  dict_get lcr_parity x = Ok parity → dict_get lcr_code parity = Ok x.
Proof.
  unfold dict_get. destruct (lcr_parity !! x) as [par|] eqn:E; [|done].
  intros [= ->].
  apply elem_of_list_to_map_2 in E.
  rewrite !elem_of_cons in E.
  destruct E as [[= -> ->]|[[= -> ->]|[[= -> ->]|[[= -> ->]|[[= -> ->]|E]]]]];
    [done..|by apply elem_of_nil in E].
Qed.

Lemma forall_below (P : Z → bool) (n : nat) :
  forallb P (map Z.of_nat (seq 0 n)) = true →
  ∀ v, 0 ≤ v < Z.of_nat n → P v = true.
Proof.
  intros Hall v Hv. rewrite forallb_forall in Hall. apply Hall.
  apply in_map_iff. exists (Z.to_nat v). split; [lia|]. apply in_seq. lia.
Qed.

(** The fields of the line control byte add up to the byte again, bit 7
    being the latch. *)
Lemma lcr_fields (e : bool) (val : Z) :
  0 ≤ val ≤ 255 →
  Z.b2z (e || negb (Z.land val 0x80 =? 0)) * 0x80
  + Z.b2z (negb (Z.land val 0x40 =? 0)) * 0x40 + Z.land val 0x38
  + (if 1 <? (if negb (Z.land val 0x4 =? 0) then 2 else 1) then 0x4 else 0)
  + (Z.land val 0x3 + 5 - 5) = Z.lor val (Z.b2z e * 0x80).
Proof.
  intros Hval. apply Z.eqb_eq.
  apply (forall_below (λ val,
    Z.b2z (e || negb (Z.land val 0x80 =? 0)) * 0x80
    + Z.b2z (negb (Z.land val 0x40 =? 0)) * 0x40 + Z.land val 0x38
    + (if 1 <? (if negb (Z.land val 0x4 =? 0) then 2 else 1) then 0x4 else 0)
    + (Z.land val 0x3 + 5 - 5) =? Z.lor val (Z.b2z e * 0x80)) 256); [|lia].
  destruct e; vm_compute; reflexivity.
Qed.

(** [OUT] to the line control register of a serial port and [INP] from
    it: the byte comes back, with bit 7 set also when the latch was set
    before.  The stream is assumed to keep the parameters it is given. *)
Theorem line_control_write_then_read (sess : Session) (nr : nat)
    (stream : Serial) (e : bool) (val : Z) :
  let base := if Nat.eqb nr 0 then 0x3f8 else 0x2f8 in
  (∀ st b pa bs sb, get_params (set_params st b pa bs sb) = (b, pa, bs, sb)) →
  (∀ st x, get_params (set_pins_brk st x) = get_params st) →
  laid_out (ports sess) →
  com_device (ports sess) !! nr = Some (Some stream) →
  com_enable_baud_write (ports sess) !! nr = Some e →
  0 ≤ val ≤ 255 →
  Z.land val 0x38 ∈ [0; 0x8; 0x18; 0x28; 0x38] →
  (sess' ← out_session sess (base + 3) val; inp sess' (base + 3))
  = Ok (Z.lor val (Z.b2z e * 0x80)).
Proof.
  intros base Hset Hpins Hp Hd He Hval Hpar.
  pose proof Hp as (Hb & Hl & Hld & Hle & Hlv & Hlk).
  assert (Hnr : nr = 0%nat ∨ nr = 1%nat).
  { apply lookup_lt_Some in Hd. lia. }
  destruct (lookup_lt_is_Some_2 (com_break (ports sess)) nr) as [brk0 Hk]; [lia|].
  destruct (lcr_parity_known _ Hpar) as [parity Epar].
  pose proof (lcr_code_of_parity _ _ Epar) as Ecode.
  assert (Hne : base + 3 ≠ 0x201 ∧ base + 3 ≠ 0x3c5 ∧ base + 3 ≠ 0x3cf
                ∧ base + 3 ≠ 0x3d8 ∧ (base + 3 ∉ [0x378; 0x37A; 0x278; 0x27A])
                ∧ base + 3 ≠ 0x60 ∧ base + 3 ≠ 0x379 ∧ base + 3 ≠ 0x279).
  { subst base. rewrite !not_elem_of_cons.
    destruct Hnr as [-> | ->]; cbn; split_and!; try lia; apply not_elem_of_nil. }
  destruct Hne as (N1 & N2 & N3 & N4 & N5 & N6 & N7 & N8).
  assert (Hout : ∃ p', out_ (ports sess) (base + 3) val = Ok p'
    ∧ laid_out p'
    ∧ com_device p' !! nr =
        Some (Some (set_pins_brk
                 (set_params stream (get_params stream).1.1.1 parity
                    (Z.land val 0x3 + 5)
                    (if negb (Z.land val 0x4 =? 0) then 2 else 1))
                 (negb (Z.land val 0x40 =? 0))))
    ∧ com_enable_baud_write p' !! nr = Some (e || negb (Z.land val 0x80 =? 0))
    ∧ com_break p' !! nr = Some (negb (Z.land val 0x40 =? 0))).
  { unfold out_.
    destruct (Z.eqb_spec (base + 3) 0x201); [done|].
    destruct (Z.eqb_spec (base + 3) 0x3c5); [done|].
    destruct (Z.eqb_spec (base + 3) 0x3cf); [done|].
    destruct (Z.eqb_spec (base + 3) 0x3d8); [done|].
    rewrite bool_decide_eq_false_2 by done.
    rewrite Hb. cbn [out_coms]. subst base.
    destruct Hnr as [-> | ->]; cbn [Nat.eqb].
    - destruct (out_com_lcr val (ports sess) 0x3f8 0%nat stream e brk0 parity)
        as (p1 & -> & Hlay & _ & _ & Ed & Ee & Ek); [done..|].
      cbn [mbind result_bind].
      assert (Hp1 : laid_out p1) by (by rewrite <- Hlay).
      destruct Hp1 as (_ & _ & Hd1 & He1 & _ & _).
      rewrite out_com_other; [|lia..]. cbn [mbind result_bind].
      exists p1. split; [done|]. split; [by rewrite <- Hlay|].
      rewrite Ed, Ee, Ek. rewrite !list_lookup_insert_eq by lia. done.
    - rewrite out_com_other; [|lia..]. cbn [mbind result_bind].
      destruct (out_com_lcr val (ports sess) 0x2f8 1%nat stream e brk0 parity)
        as (p1 & -> & Hlay & _ & _ & Ed & Ee & Ek); [done..|].
      cbn [mbind result_bind].
      exists p1. split; [done|]. split; [by rewrite <- Hlay|].
      rewrite Ed, Ee, Ek. rewrite !list_lookup_insert_eq by lia. done. }
  destruct Hout as (p' & Eout & Hp' & Hd' & He' & Hk').
  unfold out_session. rewrite Eout. cbn [mbind result_bind mret result_ret].
  unfold inp. cbn [ports last_scancode].
  destruct (Z.eqb_spec (base + 3) 0x60); [done|].
  destruct (Z.eqb_spec (base + 3) 0x201); [done|].
  destruct (Z.eqb_spec (base + 3) 0x379); [done|].
  destruct (Z.eqb_spec (base + 3) 0x279); [done|]. cbn [orb].
  destruct Hp' as (Hb' & _ & Hld' & _ & _ & _). rewrite Hb'. cbn [inp_coms].
  assert (Hin : inp_com (base + 3) p' (base, nr)
                = Ok (Some (Z.lor val (Z.b2z e * 0x80)))).
  { erewrite inp_com_lcr; [| exact Hd' | | exact He' | exact Hk' | exact Ecode].
    2: { rewrite Hpins, Hset. reflexivity. }
    do 2 f_equal. by apply lcr_fields. }
  subst base. destruct Hnr as [-> | ->]; cbn [Nat.eqb] in *.
  - rewrite Hin. done.
  - rewrite (inp_com_other _ _ 0x3f8 0%nat); [|lia..]. cbn [mbind result_bind].
    rewrite Hin. done.
Qed.

Lemma out_com_absent (addr val : Z) (p : MachinePorts) (base_addr : Z) (nr : nat) :
  com_device p !! nr = Some None → out_com addr val p (base_addr, nr) = Ok p.
Proof. intros E. unfold out_com. by rewrite (sound_spec.index_Some _ _ _ E). Qed.

Lemma inp_com_absent (port : Z) (p : MachinePorts) (base_addr : Z) (nr : nat) :
  com_device p !! nr = Some None → inp_com port p (base_addr, nr) = Ok None.
Proof. intros E. unfold inp_com. by rewrite (sound_spec.index_Some _ _ _ E). Qed.

(** With no printer and no serial line attached, [OUT] changes nothing
    outside the game port and the three video registers, and [INP]
    reads 0 outside the keyboard and the game port. *)
Theorem ports_without_devices (sess : Session) (addr val : Z) :
  laid_out (ports sess) →
  lpt_device (ports sess) = [None; None] →
  com_device (ports sess) = [None; None] →
  (addr ∉ [0x201; 0x3c5; 0x3cf; 0x3d8] →
   out_ (ports sess) addr val = Ok (ports sess))
  ∧ (addr ∉ [0x60; 0x201] → inp sess addr = Ok 0).
Proof.
  intros (Hb & _) Hl Hd. split.
  - rewrite !not_elem_of_cons. intros (N1 & N2 & N3 & N4 & _). unfold out_.
    destruct (Z.eqb_spec addr 0x201); [done|].
    destruct (Z.eqb_spec addr 0x3c5); [done|].
    destruct (Z.eqb_spec addr 0x3cf); [done|].
    destruct (Z.eqb_spec addr 0x3d8); [done|].
    destruct (bool_decide _).
    + rewrite Hl. by destruct (0x378 <=? addr).
    + rewrite Hb. cbn [out_coms].
      rewrite out_com_absent by (by rewrite Hd). cbn [mbind result_bind].
      rewrite out_com_absent by (by rewrite Hd). done.
  - rewrite !not_elem_of_cons. intros (N1 & N2 & _). unfold inp.
    destruct (Z.eqb_spec addr 0x60); [done|].
    destruct (Z.eqb_spec addr 0x201); [done|].
    destruct (_ || _).
    + rewrite Hl. by destruct (0x378 <=? addr).
    + rewrite Hb. cbn [inp_coms].
      rewrite inp_com_absent by (by rewrite Hd). cbn [mbind result_bind].
      rewrite inp_com_absent by (by rewrite Hd). done.
Qed.

Lemma wait__unfold (events_wait : Session → Session) (fuel : nat) (sess : Session)
    (addr ander xorer : Z) :
  wait_ events_wait fuel sess addr ander xorer =
  (v ← inp sess addr;
   if Z.land (Z.lxor v xorer) ander =? 0 then
     match fuel with
     | O => Hang
     | S fuel => wait_ events_wait fuel (events_wait sess) addr ander xorer
     end
   else Ok sess).
Proof. by destruct fuel. Qed.

(** [WAIT] with a mask of 0 never comes back: however long it is run,
    it has not returned. *)
Theorem wait_with_zero_mask_never_returns (events_wait : Session → Session)
    (fuel : nat) (sess : Session) (addr xorer : Z) :
  is_ok (wait_ events_wait fuel sess addr 0 xorer) = false.
Proof.
  revert sess. induction fuel as [|fuel IH]; intros sess; rewrite wait__unfold;
    destruct (inp sess addr) as [v| |]; cbn [mbind result_bind]; try done;
    rewrite Z.land_0_r; cbn; [done|apply IH].
Qed.

(** [WAIT] returns exactly at the first round of waiting at which the
    port, xor-ed with [xorer] and masked with [ander], is not 0; the
    session it leaves is the one after that many rounds. *)
Theorem wait_returns_at_first_match (events_wait : Session → Session)
    (fuel : nat) (sess sess' : Session) (addr ander xorer : Z) :
  wait_ events_wait fuel sess addr ander xorer = Ok sess' ↔
  ∃ k : nat, (k ≤ fuel)%nat ∧ sess' = Nat.iter k events_wait sess
    ∧ (∀ j : nat, (j < k)%nat →
         ∃ v, inp (Nat.iter j events_wait sess) addr = Ok v
              ∧ Z.land (Z.lxor v xorer) ander = 0)
    ∧ ∃ v, inp sess' addr = Ok v ∧ Z.land (Z.lxor v xorer) ander ≠ 0.
Proof.
  revert sess. induction fuel as [|fuel IH]; intros sess; rewrite wait__unfold.
  - destruct (inp sess addr) as [v| |] eqn:E; cbn [mbind result_bind].
    + destruct (Z.eqb_spec (Z.land (Z.lxor v xorer) ander) 0) as [Hz|Hnz]; split.
      * done.
      * intros (k & Hk & -> & _ & v' & E' & Hv').
        assert (k = 0%nat) as -> by lia. cbn in E'. congruence.
      * intros [= <-]. exists 0%nat. split_and!; [lia|done| |by exists v].
        intros j Hj. lia.
      * intros (k & Hk & -> & _). assert (k = 0%nat) as -> by lia. done.
    + split; [done|]. intros (k & Hk & -> & _ & v' & E' & _).
      assert (k = 0%nat) as -> by lia. cbn in E'. congruence.
    + split; [done|]. intros (k & Hk & -> & _ & v' & E' & _).
      assert (k = 0%nat) as -> by lia. cbn in E'. congruence.
  - destruct (inp sess addr) as [v| |] eqn:E; cbn [mbind result_bind].
    + destruct (Z.eqb_spec (Z.land (Z.lxor v xorer) ander) 0) as [Hz|Hnz]; split.
      * intros Hw. apply IH in Hw as (k & Hk & -> & Hbefore & Hat).
        exists (S k). rewrite Nat.iter_succ_r. split_and!; [lia|done| |done].
        intros [|j] Hj; [by exists v|].
        rewrite Nat.iter_succ_r. apply Hbefore. lia.
      * intros (k & Hk & -> & Hbefore & v' & E' & Hv').
        destruct k as [|k]; [cbn in E'; congruence|].
        apply IH. exists k. rewrite Nat.iter_succ_r in *.
        split_and!; [lia|done| |by exists v'].
        intros j Hj. specialize (Hbefore (S j)). rewrite Nat.iter_succ_r in Hbefore.
        apply Hbefore. lia.
      * intros [= <-]. exists 0%nat. split_and!; [lia|done| |by exists v].
        intros j Hj. lia.
      * intros (k & Hk & -> & Hbefore & _).
        destruct k as [|k]; [done|].
        destruct (Hbefore 0%nat) as (v0 & E0 & Hv0); [lia|].
        cbn in E0. congruence.
    + split; [done|]. intros (k & Hk & -> & Hbefore & v' & E' & _).
      destruct k as [|k]; [cbn in E'; congruence|].
      destruct (Hbefore 0%nat) as (v0 & E0 & _); [lia|]. cbn in E0. congruence.
    + split; [done|]. intros (k & Hk & -> & Hbefore & v' & E' & _).
      destruct k as [|k]; [cbn in E'; congruence|].
      destruct (Hbefore 0%nat) as (v0 & E0 & _); [lia|]. cbn in E0. congruence.
Qed.

End inputs.

Import Ref.

(** POKE 100, 200 and PEEK(100) in the default segment. *)
Lemma poke_then_peek_in_data_memory_witness :
  let m := memory0 false false in
  locked m = false
  ∧ to_int true 100 = Ok 100
  ∧ to_int false 200 = Ok 200
  ∧ data_segment (data m) * 0x10 ≤ 100 + segment m * 0x10 < video_segment * 0x10
  ∧ poke_ (100, 200) m
    = (Ok (), set_data m (data_set_memory (data m) (100 + segment m * 0x10) 200))
  ∧ peek_ (set_data m (data_set_memory (data m) (100 + segment m * 0x10) 200)) 100
    = Ok 200.
Proof.
  intros m.
  assert (H1 : ∀ (d : FlatData) x y, data_get_memory (data_set_memory d x y) x = y).
  { intros d x y. cbn. by rewrite lookup_insert_eq. }
  assert (H2 : data_segment (data m) * 0x10 ≤ 100 + segment m * 0x10
               < video_segment * 0x10)
    by (split; [cbv; discriminate|reflexivity]).
  split; [reflexivity|]. split; [reflexivity|]. split; [reflexivity|].
  split; [exact H2|].
  assert (H3 : 0 ≤ 100) by (cbv; discriminate).
  assert (H4 : 0 ≤ 200 ≤ 255) by (split; cbv; discriminate).
  exact (poke_then_peek_in_data_memory m 100 200 100 200 H1
           (λ _ _ _, eq_refl) (λ _ _ _, eq_refl) eq_refl eq_refl H3 eq_refl
           H4 H2 eq_refl).
Defined.

(** The keyboard buffer pointer at 1050 reads 30. *)
Lemma get_memory_is_not_negative_witness :
  let m := memory0 false false in
  _peek_values m !! 1050 = None ∧ _get_memory m 1050 = Ok 30 ∧ 0 ≤ 30.
Proof.
  intros m. split; [reflexivity|]. split; [reflexivity|].
  exact (get_memory_is_not_negative m 1050 30 eq_refl eq_refl).
Defined.

(** The first byte of the ROM segment. *)
Lemma font_regions_read_zero_outside_tables_witness :
  let m := memory0 false false in
  _peek_values m !! 0xf0000 = None
  ∧ rom_segment * 0x10 ≤ 0xf0000 < rom_segment * 0x10 + rom_font_addr
  ∧ _get_memory m 0xf0000 = Ok 0.
Proof.
  intros m.
  assert (H1 : rom_segment * 0x10 ≤ 0xf0000 < rom_segment * 0x10 + rom_font_addr)
    by (split; [cbv; discriminate|reflexivity]).
  split; [reflexivity|]. split; [exact H1|].
  exact (font_regions_read_zero_outside_tables m 0xf0000 eq_refl (or_introl H1)).
Defined.

(** Row 3 of character 128, with a blank glyph in the font. *)
Lemma ram_font_poke_then_peek_witness :
  let m := Memory_init
             {| fd_segment := 0x13ad; fd_protected := false; fd_bytes := ∅ |}
             devices0 ∅ screen0 keyboard0 {[ [128] := [0; 0; 0; 0; 0; 0; 0; 0] ]}
             false ∅ "" in
  ∃ m', _set_memory 787715 0x5a m = (Ok (), m')
    ∧ _get_memory m' 787715 = Ok 0x5a
    ∧ fontdict m' = <[[128]:=[0; 0; 0; 0x5a; 0; 0; 0; 0]]> (fontdict m)
    ∧ rebuilt_glyphs (screen m') = rebuilt_glyphs (screen m) ++ [128].
Proof.
  intros m.
  destruct (ram_font_poke_then_peek m 787715 0x5a [128] [0; 0; 0; 0; 0; 0; 0; 0])
    as (m' & E1 & E2 & E3 & E4 & _).
  - split; cbv; discriminate.
  - split; cbv; discriminate.
  - reflexivity.
  - discriminate.
  - reflexivity.
  - reflexivity.
  - reflexivity.
  - reflexivity.
  - exists m'. split; [exact E1|]. split; [exact E2|]. split; [exact E3|exact E4].
Defined.

(** The keyboard flag byte takes 64; the byte before it takes nothing. *)
Lemma low_memory_writes_witness :
  let m := memory0 false false in
  0 ≤ 1047 < data_segment (data m) * 0x10
  ∧ data_segment (data m) ≤ video_segment
  ∧ _set_memory 1047 64 m = (Ok (), set_keyboard m (set_mod (keyboard m) 64))
  ∧ _get_memory (set_keyboard m (set_mod (keyboard m) 64)) 1047 = Ok 64
  ∧ _set_memory 1046 64 m = (Ok (), m).
Proof.
  intros m.
  assert (H1 : 0 ≤ 1047 < data_segment (data m) * 0x10)
    by (split; [cbv; discriminate|reflexivity]).
  assert (H1' : 0 ≤ 1046 < data_segment (data m) * 0x10)
    by (split; [cbv; discriminate|reflexivity]).
  assert (H2 : data_segment (data m) ≤ video_segment) by (cbv; discriminate).
  split; [exact H1|]. split; [exact H2|].
  destruct (proj1 (low_memory_writes m 1047 64 H1 H2) eq_refl) as [E1 E2].
  split; [exact E1|]. split.
  - apply E2; [reflexivity|cbv; discriminate].
  - apply (proj2 (low_memory_writes m 1046 64 H1' H2)); try discriminate.
    intros [H _]. exact (H eq_refl).
Defined.

(** Four bytes from 1040 on. *)
Lemma block_read_below_video_witness :
  let m := memory0 false false in
  0 ≤ 4 ∧ 1040 < video_segment * 0x10
  ∧ _get_memory_block m 1040 4 = Ok [38; 80; 0; 0]
  ∧ List.length [38; 80; 0; 0] = Z.to_nat 4
  ∧ ∀ i : nat, (i < Z.to_nat 4)%nat →
      ∃ v b, _get_memory m (1040 + Z.of_nat i) = Ok v
        ∧ [38; 80; 0; 0] !! i = Some b ∧ b = Z.max 0 v ∧ 0 ≤ b ≤ 255.
Proof.
  intros m.
  assert (H1 : 0 ≤ 4) by (cbv; discriminate).
  assert (H2 : 1040 < video_segment * 0x10) by reflexivity.
  split; [exact H1|]. split; [exact H2|]. split; [reflexivity|].
  exact (block_read_below_video m 1040 4 [38; 80; 0; 0] H1 H2 eq_refl).
Defined.


(** OUT &H3FB, &H10 on COM1. *)
Lemma line_control_write_with_unknown_parity_witness :
  com_device ports0 !! 0%nat = Some (Some serial0)
  ∧ Z.land 0x10 0x38 = 0x10
  ∧ out_ ports0 (0x3f8 + 3) 0x10 = Raise KeyError.
Proof.
  split; [reflexivity|]. split; [reflexivity|].
  exact (line_control_write_with_unknown_parity 0%nat [] [None; None]
           (Some serial0) None false false 0 0 false false 0%nat serial0 0x10
           eq_refl (or_introl eq_refl)).
Defined.

(** OUT &H3FB, &H1B on COM1: 8 bits, one stop bit, even parity. *)
Lemma out_of_a_byte_succeeds_witness :
  laid_out ports0 ∧ 0 ≤ 0x1b ≤ 255
  ∧ Z.land 0x1b 0x38 ∈ [0; 0x8; 0x18; 0x28; 0x38]
  ∧ ∃ p', out_ ports0 0x3fb 0x1b = Ok p' ∧ laid_out p'.
Proof.
  assert (H1 : laid_out ports0) by (repeat split).
  assert (H2 : 0 ≤ 0x1b ≤ 255) by (split; cbv; discriminate).
  assert (H3 : Z.land 0x1b 0x38 ∈ [0; 0x8; 0x18; 0x28; 0x38]).
  { apply list_elem_of_further, list_elem_of_further, list_elem_of_here. }
  split; [exact H1|]. split; [exact H2|]. split; [exact H3|].
  exact (out_of_a_byte_succeeds ports0 0x3fb 0x1b H1 H2 (λ _, H3)).
Defined.

(** OUT &H3FB, &H1B and INP(&H3FB) on COM1, the latch being clear. *)
Lemma line_control_write_then_read_witness :
  (∀ st b pa bs sb, get_params (set_params st b pa bs sb) = (b, pa, bs, sb))
  ∧ (∀ st x, get_params (set_pins_brk st x) = get_params st)
  ∧ laid_out (ports session0)
  ∧ com_device (ports session0) !! 0%nat = Some (Some serial0)
  ∧ com_enable_baud_write (ports session0) !! 0%nat = Some false
  ∧ 0 ≤ 0x1b ≤ 255
  ∧ Z.land 0x1b 0x38 ∈ [0; 0x8; 0x18; 0x28; 0x38]
  ∧ (sess' ← out_session session0 (0x3f8 + 3) 0x1b; inp sess' (0x3f8 + 3))
    = Ok (Z.lor 0x1b (Z.b2z false * 0x80)).
Proof.
  assert (H1 : ∀ st b pa bs sb,
            get_params (set_params st b pa bs sb) = (b, pa, bs, sb))
    by (intros; reflexivity).
  assert (H2 : ∀ st x, get_params (set_pins_brk st x) = get_params st)
    by (intros; reflexivity).
  assert (H3 : laid_out (ports session0)) by (repeat split).
  assert (H4 : 0 ≤ 0x1b ≤ 255) by (split; cbv; discriminate).
  assert (H5 : Z.land 0x1b 0x38 ∈ [0; 0x8; 0x18; 0x28; 0x38]).
  { apply list_elem_of_further, list_elem_of_further, list_elem_of_here. }
  split; [exact H1|]. split; [exact H2|]. split; [exact H3|].
  split; [reflexivity|]. split; [reflexivity|]. split; [exact H4|].
  split; [exact H5|].
  exact (line_control_write_then_read session0 0%nat serial0 false 0x1b
           H1 H2 H3 eq_refl eq_refl H4 H5).
Defined.

(** Nothing attached: OUT &H3FB, &H83 and INP(&H3FD). *)
Lemma ports_without_devices_witness :
  let sess := {| ports := MachinePorts_init 0%nat [] None None None None;
                 last_scancode := 0 |} in
  laid_out (ports sess)
  ∧ out_ (ports sess) 0x3fb 0x83 = Ok (ports sess)
  ∧ inp sess 0x3fb = Ok 0.
Proof.
  intros sess.
  assert (H1 : laid_out (ports sess)) by (repeat split).
  split; [exact H1|].
  destruct (ports_without_devices sess 0x3fb 0x83 H1 eq_refl eq_refl) as [E1 E2].
  split.
  - apply E1. rewrite !not_elem_of_cons.
    repeat (split; [discriminate|]). apply not_elem_of_nil.
  - apply E2. rewrite !not_elem_of_cons.
    repeat (split; [discriminate|]). apply not_elem_of_nil.
Defined.

End machine_extra.
